(** * utilhub/progressBar.go: the throttled progress bar

    A shallow embedding of [ProgressBar] and of its methods [UpdateBar],
    [AddSpecificTimes], [Complete] and [Report], together with the
    constructor [NewProgressBar] and its options.

    The embedding follows one producer calling the methods one after the
    other while [ListenPrinter] drains the print channel: a send on the
    open channel is recorded in the order it is made, a send on a closed
    channel and a second [close] panic as the Go runtime does. Every call
    that looks at the clock or at the throttle timer is given the clock
    reading [now] (nanoseconds); a timer armed by [time.After] is ready as
    soon as the clock has reached its deadline.

    Numbers are those of the code: [uint32] and [int] are integers with
    their wrap-around written out, [float64] is IEEE 754 binary64 with
    rounding to nearest even, as [SpecFloat] defines it for a mantissa of
    53 bits. What the bar takes from the Go standard library (the zone
    database, the formatting of times, durations and padded cells) and the
    colour constants of the package are parameters. *)

(** Beside the bar, the file covers the printer of the bar (ListenPrinter
    and WaitForPrinterStop), GetNowTimeString of utilhub/timeZone.go, the
    default values of utilhub/defaultConfig.go (applyDefaults and
    setFieldValue, and the Once of ParseDefault behind ForceReloadConfig),
    and two helpers of the B+ tree tests (_TestTimeString and
    shuffleSlice). *)

From Stdlib Require Import ZArith List Ascii String Bool Lia.
From Stdlib Require Import SpecFloat DecimalString.
From Stdlib Require Import Permutation.
Import ListNotations.

Open Scope string_scope.
Open Scope Z_scope.

(** ** Machine integers *)

Module Int.
Definition maxUint32 : Z := 2 ^ 32 - 1.
Definition maxInt : Z := 2 ^ 63 - 1.
Definition minInt : Z := - 2 ^ 63.

(** [uint32] arithmetic wraps around modulo [2^32]. *)
Definition wrap32 (z : Z) : Z := z mod 2 ^ 32.

(** [int] and [int64] (and so [time.Duration]) are 64-bit two's complement. *)
Definition wrap64 (z : Z) : Z := (z + 2 ^ 63) mod 2 ^ 64 - 2 ^ 63.

Definition isUint32 (z : Z) : Prop := 0 <= z <= maxUint32.
Definition isInt (z : Z) : Prop := minInt <= z <= maxInt.
End Int.

(** ** float64: IEEE 754 binary64, round to nearest even *)

Definition float64 : Set := spec_float.

Module F64.
Definition prec : Z := 53.
Definition emax : Z := 1024.

(** [float64(z)] for an integer [z]. *)
Definition ofZ (z : Z) : float64 := binary_normalize prec emax z 0 false.

Definition mul : float64 -> float64 -> float64 := SFmul prec emax.
Definition div : float64 -> float64 -> float64 := SFdiv prec emax.

(** [a > b] *)
Definition gt (a b : float64) : bool := SFltb b a.

(** [int(f)]: the fraction is discarded; a value that does not fit (or an
    infinity or NaN) converts to the most negative [int], as on amd64. *)
Definition toInt (f : float64) : Z :=
  match f with
  | S754_zero _ => 0
  | S754_finite s m e =>
      let mag := if 0 <=? e then Zpos m * 2 ^ e else Zpos m / 2 ^ (- e) in
      let v := if s then - mag else mag in
      if (Int.minInt <=? v) && (v <=? Int.maxInt) then v else Int.minInt
  | _ => Int.minInt
  end.

Definition zero : float64 := S754_zero false.
Definition hundred : float64 := ofZ 100.
End F64.

(** ** The time package, as far as the bar uses it *)

Definition error : Set := string.

Inductive result (A : Type) : Type :=
| Success (a : A)
| Failure (err : error).
Arguments Success {A} a.
Arguments Failure {A} err.

(** A loaded [*time.Location], known by the zone it stands for. *)
Inductive Location : Set := MkLocation (zoneName : string).

(** A [time.Time] without monotonic reading ([In] strips it): the wall
    clock in nanoseconds and the location it is shown in. *)
Record Time : Set := { wall : Z; zone : option Location }.

Definition zeroTime : Time := {| wall := 0; zone := None |}.
Definition Now (now : Z) : Time := {| wall := now; zone := None |}.
Definition In (t : Time) (l : Location) : Time := {| wall := wall t; zone := Some l |}.

(** [t.Sub(u)]: the difference, saturated to the range of [Duration]. *)
Definition Sub (t u : Time) : Z :=
  let d := wall t - wall u in
  if d <? Int.minInt then Int.minInt
  else if Int.maxInt <? d then Int.maxInt
  else d.

Definition Millisecond : Z := 1000000.

(** [time.Duration(ms) * time.Millisecond] *)
Definition milliseconds (ms : Z) : Z := Int.wrap64 (ms * Millisecond).

(** [time.After(d)] at clock reading [now]: the deadline of the timer. *)
Definition After (now d : Z) : Z := now + Z.max 0 d.

(** What the bar takes from the Go standard library: the zone database,
    the printing of times and durations, and the two padded verbs that
    [Report] uses. *)
Class GoLib : Type := {
  LoadLocation : string -> result Location;
  FormatRFC1123 : Time -> string;
  DurationString : Z -> string;
  (** [fmt.Sprintf("%-*s", width, s)] *)
  padString : Z -> string -> string;
  (** [fmt.Sprintf("%-*d", width, n)] *)
  padUint : Z -> Z -> string
}.

(** The ANSI colour constants of package utilhub. They are declared in a
    file of the package that is not part of the sources at hand, so they
    are taken as parameters. *)
Class Palette : Type := {
  BrightCyan : string;
  BrightYellow : string;
  BrightMagenta : string;
  BrightRed : string;
  DarkYellow : string;
  Reset : string
}.

(** ** Channels *)

Inductive Chan (A : Type) : Type :=
| NilChan
| MkChan (sent : list A) (closed : bool).
Arguments NilChan {A}.
Arguments MkChan {A} sent closed.

Definition sentOn {A : Type} (c : Chan A) : list A :=
  match c with
  | NilChan => []
  | MkChan sent _ => sent
  end.

(** ** The data *)

(** barMessage *)
Record barMessage : Set := {
  filledLength : Z;
  percentage : float64
}.

(** ProgressBar *)
Record ProgressBar : Type := {
  name : string;
  total : Z;
  barLength : Z;
  precision : Z;
  currentProcess : Z;
  lastFilledLength : Z;
  timezone : string;
  location : option Location;
  startTime : Time;
  endTime : Time;
  complete : bool;
  updateInterval : Z;
  ticker : option Z;
  barColor : string;
  resetColor : string;
  printChannel : Chan barMessage;
  finishBar : Chan unit;
  mu : bool
}.

(** Field assignments [pb.f = v]. *)

Definition set_precision (v : Z) (pb : ProgressBar) : ProgressBar :=
  {| name := name pb; total := total pb; barLength := barLength pb;
     precision := v; currentProcess := currentProcess pb;
     lastFilledLength := lastFilledLength pb; timezone := timezone pb;
     location := location pb; startTime := startTime pb; endTime := endTime pb;
     complete := complete pb; updateInterval := updateInterval pb;
     ticker := ticker pb; barColor := barColor pb; resetColor := resetColor pb;
     printChannel := printChannel pb; finishBar := finishBar pb; mu := mu pb |}.

Definition set_currentProcess (v : Z) (pb : ProgressBar) : ProgressBar :=
  {| name := name pb; total := total pb; barLength := barLength pb;
     precision := precision pb; currentProcess := v;
     lastFilledLength := lastFilledLength pb; timezone := timezone pb;
     location := location pb; startTime := startTime pb; endTime := endTime pb;
     complete := complete pb; updateInterval := updateInterval pb;
     ticker := ticker pb; barColor := barColor pb; resetColor := resetColor pb;
     printChannel := printChannel pb; finishBar := finishBar pb; mu := mu pb |}.

Definition set_lastFilledLength (v : Z) (pb : ProgressBar) : ProgressBar :=
  {| name := name pb; total := total pb; barLength := barLength pb;
     precision := precision pb; currentProcess := currentProcess pb;
     lastFilledLength := v; timezone := timezone pb;
     location := location pb; startTime := startTime pb; endTime := endTime pb;
     complete := complete pb; updateInterval := updateInterval pb;
     ticker := ticker pb; barColor := barColor pb; resetColor := resetColor pb;
     printChannel := printChannel pb; finishBar := finishBar pb; mu := mu pb |}.

Definition set_timezone (v : string) (pb : ProgressBar) : ProgressBar :=
  {| name := name pb; total := total pb; barLength := barLength pb;
     precision := precision pb; currentProcess := currentProcess pb;
     lastFilledLength := lastFilledLength pb; timezone := v;
     location := location pb; startTime := startTime pb; endTime := endTime pb;
     complete := complete pb; updateInterval := updateInterval pb;
     ticker := ticker pb; barColor := barColor pb; resetColor := resetColor pb;
     printChannel := printChannel pb; finishBar := finishBar pb; mu := mu pb |}.

Definition set_location (v : option Location) (pb : ProgressBar) : ProgressBar :=
  {| name := name pb; total := total pb; barLength := barLength pb;
     precision := precision pb; currentProcess := currentProcess pb;
     lastFilledLength := lastFilledLength pb; timezone := timezone pb;
     location := v; startTime := startTime pb; endTime := endTime pb;
     complete := complete pb; updateInterval := updateInterval pb;
     ticker := ticker pb; barColor := barColor pb; resetColor := resetColor pb;
     printChannel := printChannel pb; finishBar := finishBar pb; mu := mu pb |}.

Definition set_startTime (v : Time) (pb : ProgressBar) : ProgressBar :=
  {| name := name pb; total := total pb; barLength := barLength pb;
     precision := precision pb; currentProcess := currentProcess pb;
     lastFilledLength := lastFilledLength pb; timezone := timezone pb;
     location := location pb; startTime := v; endTime := endTime pb;
     complete := complete pb; updateInterval := updateInterval pb;
     ticker := ticker pb; barColor := barColor pb; resetColor := resetColor pb;
     printChannel := printChannel pb; finishBar := finishBar pb; mu := mu pb |}.

Definition set_endTime (v : Time) (pb : ProgressBar) : ProgressBar :=
  {| name := name pb; total := total pb; barLength := barLength pb;
     precision := precision pb; currentProcess := currentProcess pb;
     lastFilledLength := lastFilledLength pb; timezone := timezone pb;
     location := location pb; startTime := startTime pb; endTime := v;
     complete := complete pb; updateInterval := updateInterval pb;
     ticker := ticker pb; barColor := barColor pb; resetColor := resetColor pb;
     printChannel := printChannel pb; finishBar := finishBar pb; mu := mu pb |}.

Definition set_complete (v : bool) (pb : ProgressBar) : ProgressBar :=
  {| name := name pb; total := total pb; barLength := barLength pb;
     precision := precision pb; currentProcess := currentProcess pb;
     lastFilledLength := lastFilledLength pb; timezone := timezone pb;
     location := location pb; startTime := startTime pb; endTime := endTime pb;
     complete := v; updateInterval := updateInterval pb;
     ticker := ticker pb; barColor := barColor pb; resetColor := resetColor pb;
     printChannel := printChannel pb; finishBar := finishBar pb; mu := mu pb |}.

Definition set_updateInterval (v : Z) (pb : ProgressBar) : ProgressBar :=
  {| name := name pb; total := total pb; barLength := barLength pb;
     precision := precision pb; currentProcess := currentProcess pb;
     lastFilledLength := lastFilledLength pb; timezone := timezone pb;
     location := location pb; startTime := startTime pb; endTime := endTime pb;
     complete := complete pb; updateInterval := v;
     ticker := ticker pb; barColor := barColor pb; resetColor := resetColor pb;
     printChannel := printChannel pb; finishBar := finishBar pb; mu := mu pb |}.

Definition set_ticker (v : option Z) (pb : ProgressBar) : ProgressBar :=
  {| name := name pb; total := total pb; barLength := barLength pb;
     precision := precision pb; currentProcess := currentProcess pb;
     lastFilledLength := lastFilledLength pb; timezone := timezone pb;
     location := location pb; startTime := startTime pb; endTime := endTime pb;
     complete := complete pb; updateInterval := updateInterval pb;
     ticker := v; barColor := barColor pb; resetColor := resetColor pb;
     printChannel := printChannel pb; finishBar := finishBar pb; mu := mu pb |}.

Definition set_barColor (v : string) (pb : ProgressBar) : ProgressBar :=
  {| name := name pb; total := total pb; barLength := barLength pb;
     precision := precision pb; currentProcess := currentProcess pb;
     lastFilledLength := lastFilledLength pb; timezone := timezone pb;
     location := location pb; startTime := startTime pb; endTime := endTime pb;
     complete := complete pb; updateInterval := updateInterval pb;
     ticker := ticker pb; barColor := v; resetColor := resetColor pb;
     printChannel := printChannel pb; finishBar := finishBar pb; mu := mu pb |}.

Definition set_printChannel (v : Chan barMessage) (pb : ProgressBar) : ProgressBar :=
  {| name := name pb; total := total pb; barLength := barLength pb;
     precision := precision pb; currentProcess := currentProcess pb;
     lastFilledLength := lastFilledLength pb; timezone := timezone pb;
     location := location pb; startTime := startTime pb; endTime := endTime pb;
     complete := complete pb; updateInterval := updateInterval pb;
     ticker := ticker pb; barColor := barColor pb; resetColor := resetColor pb;
     printChannel := v; finishBar := finishBar pb; mu := mu pb |}.

Definition set_finishBar (v : Chan unit) (pb : ProgressBar) : ProgressBar :=
  {| name := name pb; total := total pb; barLength := barLength pb;
     precision := precision pb; currentProcess := currentProcess pb;
     lastFilledLength := lastFilledLength pb; timezone := timezone pb;
     location := location pb; startTime := startTime pb; endTime := endTime pb;
     complete := complete pb; updateInterval := updateInterval pb;
     ticker := ticker pb; barColor := barColor pb; resetColor := resetColor pb;
     printChannel := printChannel pb; finishBar := v; mu := mu pb |}.

Definition set_mu (v : bool) (pb : ProgressBar) : ProgressBar :=
  {| name := name pb; total := total pb; barLength := barLength pb;
     precision := precision pb; currentProcess := currentProcess pb;
     lastFilledLength := lastFilledLength pb; timezone := timezone pb;
     location := location pb; startTime := startTime pb; endTime := endTime pb;
     complete := complete pb; updateInterval := updateInterval pb;
     ticker := ticker pb; barColor := barColor pb; resetColor := resetColor pb;
     printChannel := printChannel pb; finishBar := finishBar pb; mu := v |}.

(** ** Running a method: the bar, standard output, panics *)

Record World : Type := { bar : ProgressBar; stdout : list string }.

(** A call returns, panics, or blocks for ever. *)
Inductive Outcome (A : Type) : Type :=
| Returned (a : A) (w : World)
| Panicked (msg : string)
| Blocked.
Arguments Returned {A} a w.
Arguments Panicked {A} msg.
Arguments Blocked {A}.

Definition M (A : Type) : Type := World -> Outcome A.

Definition ret {A : Type} (a : A) : M A := fun w => Returned a w.

Definition bind {A B : Type} (c : M A) (k : A -> M B) : M B :=
  fun w =>
    match c w with
    | Returned a w' => k a w'
    | Panicked msg => Panicked msg
    | Blocked => Blocked
    end.

Declare Scope go_scope.
Delimit Scope go_scope with go.
Notation "x <- c ;; k" := (bind c (fun x => k))
  (at level 61, c at next level, right associativity) : go_scope.
Notation "c ;; k" := (bind c (fun _ => k))
  (at level 61, right associativity) : go_scope.
Open Scope go_scope.

Definition panic {A : Type} (msg : string) : M A := fun _ => Panicked msg.
Definition block {A : Type} : M A := fun _ => Blocked.

(** Reading a field [pb.f] and assigning one. *)
Definition read {A : Type} (f : ProgressBar -> A) : M A :=
  fun w => Returned (f (bar w)) w.

Definition assign (g : ProgressBar -> ProgressBar) : M unit :=
  fun w => Returned tt {| bar := g (bar w); stdout := stdout w |}.

(** [fmt.Println] and [fmt.Printf]: one more chunk on standard output. *)
Definition print (s : string) : M unit :=
  fun w => Returned tt {| bar := bar w; stdout := stdout w ++ [s] |}.

(** sync/atomic on [pb.currentProcess] *)
Definition LoadUint32 : M Z := read currentProcess.
Definition StoreUint32 (v : Z) : M unit := assign (set_currentProcess v).
Definition AddUint32 (delta : Z) : M unit :=
  cur <- read currentProcess ;;
  assign (set_currentProcess (Int.wrap32 (cur + delta))).

(** [pb.mu] *)
Definition Lock : M unit :=
  locked <- read mu ;;
  if locked then block else assign (set_mu true).

Definition Unlock : M unit :=
  locked <- read mu ;;
  if locked then assign (set_mu false)
  else panic "sync: unlock of unlocked mutex".

(** [pb.printChannel <- msg] *)
Definition send (msg : barMessage) : M unit :=
  ch <- read printChannel ;;
  match ch with
  | NilChan => block
  | MkChan sent true => panic "send on closed channel"
  | MkChan sent false => assign (set_printChannel (MkChan (sent ++ [msg]) false))
  end.

(** [close(pb.printChannel)] *)
Definition close : M unit :=
  ch <- read printChannel ;;
  match ch with
  | NilChan => panic "close of nil channel"
  | MkChan sent true => panic "close of closed channel"
  | MkChan sent false => assign (set_printChannel (MkChan sent true))
  end.

(** [case <-pb.ticker] is ready: the timer is armed and has fired. *)
Definition tickerReady (now : Z) (pb : ProgressBar) : bool :=
  match ticker pb with
  | Some deadline => deadline <=? now
  | None => false
  end.

(** The line feed that [Println] and a trailing [\n] write. *)
Definition newline : string := String (ascii_of_nat 10) "".

(** [strings.Repeat(s, count)] *)
Fixpoint repeatString (s : string) (n : nat) : string :=
  match n with
  | O => ""
  | S n' => s ++ repeatString s n'
  end.

Definition Repeat (s : string) (count : Z) : M string :=
  if count <? 0 then panic "strings: negative Repeat count"
  else ret (repeatString s (Z.to_nat count)).

(** ** Options *)

(** BarOption *)
Definition BarOption : Type := ProgressBar -> ProgressBar.

Definition WithTracking (precision : Z) : BarOption :=
  fun pb => set_precision precision pb.

Definition WithTimeZone (timeZoneName : string) : BarOption :=
  fun pb => set_timezone timeZoneName pb.

Definition WithTimeControl (updateInterval : Z) : BarOption :=
  fun pb => set_updateInterval updateInterval pb.

Definition WithDisplay (color : string) : BarOption :=
  fun pb => set_barColor color pb.

(** The four options the package offers, by name, and the option each
    name stands for. *)
Inductive OptionCall : Set :=
| CallWithTracking (precision : Z)
| CallWithTimeZone (timeZoneName : string)
| CallWithTimeControl (updateInterval : Z)
| CallWithDisplay (color : string).

Definition optionOf (c : OptionCall) : BarOption :=
  match c with
  | CallWithTracking precision => WithTracking precision
  | CallWithTimeZone timeZoneName => WithTimeZone timeZoneName
  | CallWithTimeControl updateInterval => WithTimeControl updateInterval
  | CallWithDisplay color => WithDisplay color
  end.

(** [for _, opt := range opts { opt(pb) }] *)
Definition applyOptions (opts : list BarOption) (pb : ProgressBar) : ProgressBar :=
  fold_left (fun pb opt => opt pb) opts pb.

(** ** The constructor and the methods *)

Section Bar.
Context {lib : GoLib} {colors : Palette}.

(** The struct literal at the head of NewProgressBar; the fields it
    leaves out have their zero values. *)
Definition defaultBar (name : string) (total : Z) (barLength : Z) : ProgressBar :=
  {| name := name; total := total; barLength := barLength;
     precision := 2; currentProcess := 0; lastFilledLength := 0;
     timezone := "Asia/Shanghai"; location := None;
     startTime := zeroTime; endTime := zeroTime; complete := false;
     updateInterval := 1000; ticker := None;
     barColor := BrightCyan; resetColor := Reset;
     printChannel := NilChan; finishBar := NilChan; mu := false |}.

(** NewProgressBar: the pair of results is [(pb, nil)] or [(nil, err)]. *)
Definition NewProgressBar (now : Z) (name : string) (total : Z) (barLength : Z)
    (opts : list BarOption) : option ProgressBar * option error :=
  let pb := defaultBar name total barLength in
  let pb := applyOptions opts pb in
  match LoadLocation (timezone pb) with
  | Failure err => (None, Some err)
  | Success loc =>
      let pb := set_location (Some loc) pb in
      let pb := set_startTime (In (Now now) loc) pb in
      let pb :=
        if updateInterval pb >? 0
        then set_ticker (Some (After now (milliseconds (updateInterval pb)))) pb
        else pb in
      let pb := set_printChannel (MkChan [] false) pb in
      let pb := set_finishBar (MkChan [] false) pb in
      (Some pb, None)
  end.

(** [progress], as UpdateBar computes it:
    [float64(pb.currentProcess) / float64(pb.total)]. *)
Definition progressOfUpdateBar (pb : ProgressBar) : float64 :=
  F64.div (F64.ofZ (currentProcess pb)) (F64.ofZ (total pb)).

(** [progress], as AddSpecificTimes computes it:
    [float64(pb.currentProcess / pb.total)], a division of two uint32
    (the guard at the head of the method leaves [total] positive here). *)
Definition progressOfAddSpecificTimes (pb : ProgressBar) : float64 :=
  F64.ofZ (currentProcess pb / total pb).

(** [filledLength := int(progress * float64(pb.barLength))] *)
Definition fillOf (progress : float64) (pb : ProgressBar) : Z :=
  F64.toInt (F64.mul progress (F64.ofZ (barLength pb))).

(** [percentage := progress * 100], capped at 100. *)
Definition percentOf (progress : float64) : float64 :=
  let percentage := F64.mul progress F64.hundred in
  if F64.gt percentage F64.hundred then F64.hundred else percentage.

(** UpdateBar *)
Definition UpdateBar (now : Z) : M unit :=
  cur <- LoadUint32 ;;
  tot <- read total ;;
  if cur =? tot then ret tt
  else
    cur <- LoadUint32 ;;
    if cur >? tot then StoreUint32 tot
    else
      Lock ;;
      AddUint32 1 ;;
      progress <- read progressOfUpdateBar ;;
      filledLength <- read (fillOf progress) ;;
      let percentage := percentOf progress in
      last <- read lastFilledLength ;;
      (if negb (filledLength =? last) then
         ready <- read (tickerReady now) ;;
         if ready then
           send {| filledLength := filledLength; percentage := percentage |} ;;
           assign (set_lastFilledLength filledLength) ;;
           interval <- read updateInterval ;;
           assign (set_ticker (Some (After now (milliseconds interval))))
         else ret tt
       else ret tt) ;;
      Unlock ;;
      cur <- LoadUint32 ;;
      if cur =? tot then assign (set_ticker None) else ret tt.

(** Complete *)
Definition Complete (now : Z) : M unit :=
  done <- read complete ;;
  if negb done then
    cur <- LoadUint32 ;;
    tot <- read total ;;
    (if cur <=? tot then
       loc <- read location ;;
       match loc with
       | None => panic "time: missing Location in call to Time.In"
       | Some l =>
           assign (set_endTime (In (Now now) l)) ;;
           StoreUint32 tot ;;
           width <- read barLength ;;
           send {| filledLength := width; percentage := F64.hundred |} ;;
           assign (set_complete true)
       end
     else ret tt) ;;
    assign (set_ticker None) ;;
    close
  else ret tt.

(** AddSpecificTimes *)
Definition AddSpecificTimes (now : Z) (steps : Z) : M unit :=
  cur <- LoadUint32 ;;
  tot <- read total ;;
  if cur >=? tot then StoreUint32 tot
  else
    Lock ;;
    AddUint32 steps ;;
    progress <- read progressOfAddSpecificTimes ;;
    filledLength <- read (fillOf progress) ;;
    let percentage := percentOf progress in
    last <- read lastFilledLength ;;
    (if negb (filledLength =? last) then
       ready <- read (tickerReady now) ;;
       if ready then
         send {| filledLength := filledLength; percentage := percentage |} ;;
         assign (set_lastFilledLength filledLength) ;;
         interval <- read updateInterval ;;
         assign (set_ticker (Some (After now (milliseconds interval))))
       else ret tt
     else ret tt) ;;
    Unlock ;;
    cur <- LoadUint32 ;;
    if cur =? tot then assign (set_ticker None) else ret tt.

(** One row of the report:
    [fmt.Printf("%s| %-*s | %-*s |%s\n", color, fieldWidth, field, valueWidth, value, Reset)];
    [cell] is the value already padded to [valueWidth]. *)
Definition tableRow (color : string) (fieldWidth : Z) (field cell : string) : string :=
  color ++ "| " ++ padString fieldWidth field ++ " | " ++ cell ++ " |" ++ Reset
        ++ newline.

Definition println (s : string) : M unit := print (s ++ newline).

(** Report: the result is the error, [None] for nil. *)
Definition Report (valueWidth : Z) : M (option error) :=
  done <- read complete ;;
  if negb done then ret (Some "progress is not yet complete")
  else
    pb <- read (fun pb => pb) ;;
    let elapsed := Sub (endTime pb) (startTime pb) in
    let fieldWidth := 20 in
    let valueWidth := if valueWidth <? 32 then 32 else valueWidth in
    let totalWidth := Int.wrap64 (fieldWidth + valueWidth + 7) in
    equals <- Repeat "=" totalWidth ;;
    let border := BrightYellow ++ equals ++ Reset in
    dashes <- Repeat "-" totalWidth ;;
    let divider := BrightYellow ++ dashes ++ Reset in
    let title := "Progress Bar Report" in
    let titleWidth := Z.of_nat (String.length title) in
    let padding := Z.quot (Int.wrap64 (totalWidth - titleWidth)) 2 in
    println (BrightMagenta ++ border ++ Reset) ;;
    left <- Repeat " " padding ;;
    right <- Repeat " " (Int.wrap64 (padding - 1)) ;;
    print (BrightMagenta ++ "|" ++ left ++ title ++ right ++ "|" ++ Reset
                         ++ newline) ;;
    println (BrightMagenta ++ border ++ Reset) ;;
    print (tableRow BrightRed fieldWidth "Field" (padString valueWidth "Value")) ;;
    println (BrightRed ++ divider ++ Reset) ;;
    print (tableRow DarkYellow fieldWidth "Task Name"
             (padString valueWidth (name pb))) ;;
    print (tableRow DarkYellow fieldWidth "Start Time"
             (padString valueWidth (FormatRFC1123 (startTime pb)))) ;;
    print (tableRow DarkYellow fieldWidth "End Time"
             (padString valueWidth (FormatRFC1123 (endTime pb)))) ;;
    print (tableRow DarkYellow fieldWidth "Elapsed Time"
             (padString valueWidth (DurationString elapsed))) ;;
    print (tableRow DarkYellow fieldWidth "Total Tasks"
             (padUint valueWidth (total pb))) ;;
    print (tableRow DarkYellow fieldWidth "Completed Tasks"
             (padUint valueWidth (currentProcess pb))) ;;
    println (BrightMagenta ++ border ++ Reset) ;;
    ret None.

(** ** Sequences of calls on one bar *)

Inductive Call : Set :=
| CallUpdateBar (now : Z)
| CallAddSpecificTimes (now steps : Z)
| CallComplete (now : Z)
| CallReport (valueWidth : Z).

Definition exec (c : Call) : M unit :=
  match c with
  | CallUpdateBar now => UpdateBar now
  | CallAddSpecificTimes now steps => AddSpecificTimes now steps
  | CallComplete now => Complete now
  | CallReport valueWidth => _ <- Report valueWidth ;; ret tt
  end.

Fixpoint run (calls : list Call) : M unit :=
  match calls with
  | [] => ret tt
  | c :: rest => exec c ;; run rest
  end.

(** A fresh bar in front of an empty terminal. *)
Definition start (pb : ProgressBar) : World := {| bar := pb; stdout := [] |}.

(** The frames sent on the print channel so far. *)
Definition frames (w : World) : list barMessage := sentOn (printChannel (bar w)).
End Bar.

(** ** A sample platform

    A zone database that knows two zones, plain renderings of times and
    durations, and the usual ANSI escape sequences. The evaluations on
    concrete calls below use it. *)

Definition decimal (z : Z) : string :=
  DecimalString.NilZero.string_of_int (Z.to_int z).

Definition sampleLib : GoLib :=
  {| LoadLocation := fun z =>
       if String.eqb z "Asia/Shanghai" || String.eqb z "UTC"
       then Success (MkLocation z)
       else Failure ("unknown time zone " ++ z);
     FormatRFC1123 := fun t => decimal (wall t) ++ "ns";
     DurationString := fun d => decimal d ++ "ns";
     padString := fun width s =>
       s ++ repeatString " " (Z.to_nat (width - Z.of_nat (String.length s)));
     padUint := fun width n =>
       decimal n
         ++ repeatString " " (Z.to_nat (width - Z.of_nat (String.length (decimal n)))) |}.

Definition escape (code : string) : string := String (ascii_of_nat 27) code.

Definition samplePalette : Palette :=
  {| BrightCyan := escape "[96m";
     BrightYellow := escape "[93m";
     BrightMagenta := escape "[95m";
     BrightRed := escape "[91m";
     DarkYellow := escape "[33m";
     Reset := escape "[0m" |}.

(** The bar of a successful construction on the sample platform (a bar
    that was not created stands for itself as the empty default). *)
Definition sampleBar (now : Z) (name : string) (total barLength : Z)
    (opts : list BarOption) : option ProgressBar :=
  fst (@NewProgressBar sampleLib samplePalette now name total barLength opts).

Definition sampleRun (pb : option ProgressBar) (calls : list Call) : Outcome unit :=
  match pb with
  | Some pb => @run sampleLib samplePalette calls (start pb)
  | None => Panicked "no bar"
  end.

(** The world in which a run that returned ends (a run that did not return
    leaves the empty bar). *)
Definition worldAfter (o : Outcome unit) : World :=
  match o with
  | Returned _ w => w
  | _ => start (@defaultBar samplePalette "" 0 0)
  end.

(** A bar of ten units after three of them, and the same bar completed. *)
Definition sampleWorking : World :=
  Eval vm_compute in
    worldAfter (sampleRun (sampleBar 0 "idx" 10 10 [])
                  [CallAddSpecificTimes 1000 3]).

Definition sampleDone : World :=
  Eval vm_compute in
    worldAfter (sampleRun (sampleBar 0 "idx" 10 10 [])
                  [CallAddSpecificTimes 1000 3; CallComplete 5000000]).

(** One call every 20 ms, [n] of them. *)
Definition every20ms (n : nat) : list Z :=
  map (fun i => Z.of_nat i * 20 * Millisecond) (seq 1 n).

(** A bar of a hundred units after a hundred calls of UpdateBar. *)
Definition sampleHundred : World :=
  Eval vm_compute in
    worldAfter (sampleRun (sampleBar 0 "index" 100 40 [])
                  (map CallUpdateBar (every20ms 100))).

(** A bar of three units after one update of five. *)
Definition sampleOvershoot : World :=
  Eval vm_compute in
    worldAfter (sampleRun (sampleBar 0 "x" 3 10 []) [CallAddSpecificTimes 1000 5]).

(** A bar of ten units and ten columns with a timer of one millisecond,
    after four calls of UpdateBar within the first millisecond. *)
Definition sampleFour : World :=
  Eval vm_compute in
    worldAfter (sampleRun (sampleBar 0 "x" 10 10 [WithTimeControl 1])
                  [CallUpdateBar 1000; CallUpdateBar 2000; CallUpdateBar 3000;
                   CallUpdateBar 4000]).

(** ** The settings a list of option calls asks for

    Read off the list of calls and not off the bar: a kind of option that
    is not called keeps its default, and the last call of a kind wins. *)

Record Settings : Set := {
  wantPrecision : Z;
  wantTimezone : string;
  wantUpdateInterval : Z;
  wantBarColor : string
}.

Definition defaultSettings {colors : Palette} : Settings :=
  {| wantPrecision := 2; wantTimezone := "Asia/Shanghai";
     wantUpdateInterval := 1000; wantBarColor := BrightCyan |}.

Definition override (s : Settings) (c : OptionCall) : Settings :=
  match c with
  | CallWithTracking p =>
      {| wantPrecision := p; wantTimezone := wantTimezone s;
         wantUpdateInterval := wantUpdateInterval s; wantBarColor := wantBarColor s |}
  | CallWithTimeZone z =>
      {| wantPrecision := wantPrecision s; wantTimezone := z;
         wantUpdateInterval := wantUpdateInterval s; wantBarColor := wantBarColor s |}
  | CallWithTimeControl i =>
      {| wantPrecision := wantPrecision s; wantTimezone := wantTimezone s;
         wantUpdateInterval := i; wantBarColor := wantBarColor s |}
  | CallWithDisplay c =>
      {| wantPrecision := wantPrecision s; wantTimezone := wantTimezone s;
         wantUpdateInterval := wantUpdateInterval s; wantBarColor := c |}
  end.

Definition requested {colors : Palette} (calls : list OptionCall) : Settings :=
  fold_left override calls defaultSettings.

(** The settings of a bar. *)
Definition settingsOf (pb : ProgressBar) : Settings :=
  {| wantPrecision := precision pb; wantTimezone := timezone pb;
     wantUpdateInterval := updateInterval pb; wantBarColor := barColor pb |}.

(** The fields of a bar that no option touches. *)
Definition untouchedByOptions (pb pb0 : ProgressBar) : Prop :=
  name pb = name pb0 /\ total pb = total pb0 /\ barLength pb = barLength pb0 /\
  currentProcess pb = currentProcess pb0 /\
  lastFilledLength pb = lastFilledLength pb0 /\
  complete pb = complete pb0 /\ endTime pb = endTime pb0 /\
  resetColor pb = resetColor pb0 /\ mu pb = mu pb0.

(** ** Vocabulary for the effect of one call *)

(** The fields that only the constructor writes. *)
Definition sameSetup (pb pb' : ProgressBar) : Prop :=
  name pb' = name pb /\ total pb' = total pb /\ barLength pb' = barLength pb /\
  precision pb' = precision pb /\ timezone pb' = timezone pb /\
  location pb' = location pb /\ startTime pb' = startTime pb /\
  updateInterval pb' = updateInterval pb /\ barColor pb' = barColor pb /\
  resetColor pb' = resetColor pb /\ finishBar pb' = finishBar pb.

(** The print channel after a call that sends at most one frame and does
    not close it. *)
Definition sentAtMostOne (ch ch' : Chan barMessage) : Prop :=
  ch' = ch \/
  exists sent msg, ch = MkChan sent false /\ ch' = MkChan (sent ++ [msg]) false.

(** The counter after UpdateBar and after AddSpecificTimes. *)
Definition counterAfterUpdateBar (pb : ProgressBar) : Z :=
  if currentProcess pb =? total pb then currentProcess pb
  else if currentProcess pb >? total pb then total pb
  else Int.wrap32 (currentProcess pb + 1).

Definition counterAfterAddSpecificTimes (steps : Z) (pb : ProgressBar) : Z :=
  if currentProcess pb >=? total pb then total pb
  else Int.wrap32 (currentProcess pb + steps).

(** The print channel is there and open. *)
Definition channelOpen (pb : ProgressBar) : Prop :=
  exists sent, printChannel pb = MkChan sent false.

(** A command that leaves the bar as it found it. *)
Definition keepsBar {A : Type} (c : M A) : Prop :=
  forall w a w', c w = Returned a w' -> bar w' = bar w.

(** The worlds that a program can be in: a bar made by NewProgressBar with
    options of the package, then any calls of its methods that returned. *)
Definition Reachable {lib : GoLib} {colors : Palette} (w : World) : Prop :=
  exists now name total barLength options pb calls,
    NewProgressBar now name total barLength (map optionOf options) = (Some pb, None)
    /\ run calls (start pb) = Returned tt w.

(** A completed bar has its counter at [total]. *)
Definition atCeiling (w : World) : Prop :=
  complete (bar w) = true -> currentProcess (bar w) = total (bar w).

(** The 100 % frame that Complete sends. *)
Definition finalFrame (pb : ProgressBar) : barMessage :=
  {| filledLength := barLength pb; percentage := F64.hundred |}.

(** ** Calls within the total, and calls before a deadline *)

(** The units of progress a call asks for. *)
Definition demandOf (c : Call) : Z :=
  match c with
  | CallUpdateBar _ => 1
  | CallAddSpecificTimes _ steps => steps
  | CallComplete _ => 0
  | CallReport _ => 0
  end.

Definition demand (calls : list Call) : Z :=
  fold_right (fun c acc => demandOf c + acc) 0 calls.

(** Arguments in the range of their Go types, as far as the call depends
    on it: a step count is not negative, and the table of the report is
    not wider than an int. *)
Definition inRangeCall (c : Call) : Prop :=
  match c with
  | CallAddSpecificTimes _ steps => 0 <= steps
  | CallReport valueWidth => valueWidth + 27 <= Int.maxInt
  | _ => True
  end.

(** An update call whose clock reading is before [deadline]. *)
Definition updateBefore (deadline : Z) (c : Call) : Prop :=
  match c with
  | CallUpdateBar now => now < deadline
  | CallAddSpecificTimes now _ => now < deadline
  | _ => False
  end.

Definition isComplete (c : Call) : bool :=
  match c with
  | CallComplete _ => true
  | _ => false
  end.

(** The state of a bar that is asked for no more than its total, with
    the calls [rest] still to come. *)
Definition withinTotal (rest : list Call) (w : World) : Prop :=
  mu (bar w) = false
  /\ (exists l, location (bar w) = Some l)
  /\ 0 <= currentProcess (bar w) <= total (bar w)
  /\ total (bar w) <= Int.maxUint32
  /\ (complete (bar w) = false ->
      channelOpen (bar w) /\ currentProcess (bar w) + demand rest <= total (bar w))
  /\ (complete (bar w) = true -> currentProcess (bar w) = total (bar w)).

(** The print channel of a completed bar is closed, and the 100 % frame is
    the last one sent on it. *)
Definition endsWithFinalFrame (w : World) : Prop :=
  complete (bar w) = true ->
  exists sent, printChannel (bar w) = MkChan (sent ++ [finalFrame (bar w)])%list true.

(** A bar without timer that has sent nothing but, at most, the frame
    [final] of Complete. *)
Definition silent (final : barMessage) (w : World) : Prop :=
  ticker (bar w) = None
  /\ (frames w = [] \/ printChannel (bar w) = MkChan [final] true).

(** Every fill in the list differs from the one before it, [prev] being
    the one before the first. *)
Fixpoint changes (prev : Z) (fills : list Z) : Prop :=
  match fills with
  | [] => True
  | fill :: rest => fill <> prev /\ changes fill rest
  end.

(** The fills of the frames sent so far. *)
Definition fills (w : World) : list Z := map filledLength (frames w).

(** No frame repeats the fill of the frame before it, and the bar has the
    last of them on record. *)
Definition fillsOnRecord (w : World) : Prop :=
  changes 0 (fills w) /\ lastFilledLength (bar w) = last (fills w) 0.

(** The percentage of a frame is not above 100. *)
Definition capped (msg : barMessage) : Prop :=
  F64.gt (percentage msg) F64.hundred = false.

(** The times of the bar are in its zone, and the end time is set when
    the complete flag is. *)
Definition timesInZone (w : World) : Prop :=
  exists l,
    location (bar w) = Some l
    /\ zone (startTime (bar w)) = Some l
    /\ (complete (bar w) = true -> zone (endTime (bar w)) = Some l)
    /\ (complete (bar w) = false -> endTime (bar w) = zeroTime).

(** ** The printer: ListenPrinter and WaitForPrinterStop

    ListenPrinter runs beside the producer and receives what the methods
    send. What it prints depends on the frames alone, and on fields that
    no method writes, so it is given as one command over the frames sent
    on the print channel: its loop ends once the channel is closed, and
    waits for ever on a channel that stays open. The goroutine that
    WaitForPrinterStop starts is the command of its body. One listener
    and the goroutines of WaitForPrinterStop are followed, each run when
    the receive it begins with can go ahead. *)

(** [fmt.Sprintf(format, f)] with one float64 argument, and
    [t.Format(layout)], of the Go standard library. *)
Class GoFmt : Type := {
  SprintfFloat : string -> float64 -> string;
  Format : Time -> string -> string
}.

(** The two glyphs of the bar, U+2588 and U+2591, as Go holds them: three
    bytes of UTF-8 each. *)
Definition filledGlyph : string :=
  String (ascii_of_nat 226) (String (ascii_of_nat 150) (String (ascii_of_nat 136) "")).

Definition emptyGlyph : string :=
  String (ascii_of_nat 226) (String (ascii_of_nat 150) (String (ascii_of_nat 145) "")).

Definition carriageReturn : string := String (ascii_of_nat 13) "".

(** [for ...; i < n; i++ { bar += glyph }], [count] rounds of it. *)
Fixpoint appendGlyphs (glyph : string) (count : nat) (bar : string) : string :=
  match count with
  | O => bar
  | S count' => appendGlyphs glyph count' (bar ++ glyph)
  end.

(** The two loops of ListenPrinter: the first runs from 0 to
    [filledLength], the second from [filledLength] to [barLength]. *)
Definition barText (barLength : Z) (filledLength : Z) : string :=
  let bar := "" in
  let bar := appendGlyphs filledGlyph (Z.to_nat filledLength) bar in
  appendGlyphs emptyGlyph (Z.to_nat (barLength - filledLength)) bar.

Section Printer.
Context {fmt : GoFmt}.

(** What ListenPrinter prints for one message. *)
Definition frameText (pb : ProgressBar) (msg : barMessage) : string :=
  let format := "%." ++ decimal (precision pb) ++ "f" in
  let percentageStr := SprintfFloat format (percentage msg) in
  let bar := barText (barLength pb) (filledLength msg) in
  if negb (String.eqb (name pb) "") then
    carriageReturn ++ name pb ++ ": " ++ barColor pb ++ "[" ++ bar ++ "] "
      ++ percentageStr ++ "%" ++ resetColor pb
  else
    carriageReturn ++ "Progress: " ++ barColor pb ++ "[" ++ bar ++ "] "
      ++ percentageStr ++ "%" ++ resetColor pb.

(** [for msg := range pb.printChannel { ... }] over the messages received. *)
Fixpoint printFrames (msgs : list barMessage) : M unit :=
  match msgs with
  | [] => ret tt
  | msg :: rest =>
      pb <- read (fun pb => pb) ;;
      print (frameText pb msg) ;;
      printFrames rest
  end.

(** [pb.finishBar <- struct{}{}] *)
Definition signalFinish : M unit :=
  ch <- read finishBar ;;
  match ch with
  | NilChan => block
  | MkChan _ true => panic "send on closed channel"
  | MkChan signals false => assign (set_finishBar (MkChan (signals ++ [tt]) false))
  end.

(** ListenPrinter *)
Definition ListenPrinter : M unit :=
  ch <- read printChannel ;;
  match ch with
  | NilChan => block
  | MkChan sent closed =>
      printFrames sent ;;
      if closed then signalFinish else block
  end.

(** The goroutine of WaitForPrinterStop: it receives from [finishBar]
    (at once when the channel is closed), closes it, and prints the line
    feed. The channel [finish] that the method returns is closed when this
    command returns. *)
Definition WaitForPrinterStop : M unit :=
  ch <- read finishBar ;;
  match ch with
  | NilChan => block
  | MkChan _ true => panic "close of closed channel"
  | MkChan [] false => block
  | MkChan (signal :: signals) false =>
      assign (set_finishBar (MkChan (signal :: signals) true)) ;;
      print newline
  end.
End Printer.

(** ** utilhub/timeZone.go and the helpers of the B+ tree tests *)

(** What a run of plain Go code ends in: a value, or a panic. *)
Inductive Run (A : Type) : Type :=
| Done (a : A)
| Crash (msg : string).
Arguments Done {A} a.
Arguments Crash {A} msg.

Section TimeZone.
Context {lib : GoLib} {fmt : GoFmt}.

(** GetNowTimeString: the pair of results. *)
Definition GetNowTimeString (now : Z) (format timeZone : string)
    : string * option error :=
  match LoadLocation timeZone with
  | Failure err => ("", Some err)
  | Success loc =>
      let currentTime := In (Now now) loc in
      let dateStr := Format currentTime format in
      (dateStr, None)
  end.

(** _TestTimeString: the string, or the panic with the error. *)
Definition _TestTimeString (now : Z) (format timeZone : string) : Run string :=
  match GetNowTimeString now format timeZone with
  | (str, Some err) => Crash err
  | (str, None) => Done str
  end.
End TimeZone.

(** A [*rand.Rand]: its state and the draw [Intn(n)], which returns the
    number drawn and the next state. *)
Record Rand : Type := {
  RandState : Type;
  draw : Z -> RandState -> Z * RandState
}.

(** The contract of [Intn]: for a positive [n] the number drawn is in
    [[0, n)]. *)
Definition IntnInRange (g : Rand) : Prop :=
  forall n s, 0 < n -> 0 <= fst (draw g n s) < n.

(** [rng.Intn(n)] *)
Definition Intn (g : Rand) (n : Z) (s : RandState g) : Run (Z * RandState g) :=
  if n <=? 0 then Crash "invalid argument to Intn" else Done (draw g n s).

(** The panic of an index that is not within the slice. *)
Definition outOfRange (i : Z) (len : nat) : string :=
  "runtime error: index out of range [" ++ decimal i ++ "] with length "
    ++ decimal (Z.of_nat len).

(** [slice[i]] for an index of type int. *)
Definition sliceAt (slice : list Z) (i : Z) : Run Z :=
  if (i <? 0) || (Z.of_nat (List.length slice) <=? i)
  then Crash (outOfRange i (List.length slice))
  else match nth_error slice (Z.to_nat i) with
       | Some x => Done x
       | None => Crash (outOfRange i (List.length slice))
       end.

(** [slice[i] = x] for an index within the slice. *)
Fixpoint setAt (i : nat) (x : Z) (slice : list Z) : list Z :=
  match slice, i with
  | [], _ => []
  | _ :: rest, O => x :: rest
  | y :: rest, S i' => y :: setAt i' x rest
  end.

(** [slice[i], slice[j] = slice[j], slice[i]]: both elements are read,
    then both are written. *)
Definition swapAt (slice : list Z) (i j : Z) : Run (list Z) :=
  match sliceAt slice j with
  | Crash msg => Crash msg
  | Done atJ =>
      match sliceAt slice i with
      | Crash msg => Crash msg
      | Done atI => Done (setAt (Z.to_nat j) atI (setAt (Z.to_nat i) atJ slice))
      end
  end.

(** The loop of shuffleSlice from index [i] down to 1. *)
Fixpoint shuffleFrom (g : Rand) (i : nat) (slice : list Z) (s : RandState g)
    : Run (list Z * RandState g) :=
  match i with
  | O => Done (slice, s)
  | S i' =>
      match Intn g (Z.of_nat i + 1) s with
      | Crash msg => Crash msg
      | Done (j, s') =>
          match swapAt slice (Z.of_nat i) j with
          | Crash msg => Crash msg
          | Done slice' => shuffleFrom g i' slice' s'
          end
      end
  end.

(** shuffleSlice: the slice as the loop leaves it, and the generator. *)
Definition shuffleSlice (g : Rand) (slice : list Z) (s : RandState g)
    : Run (list Z * RandState g) :=
  shuffleFrom g (List.length slice - 1) slice s.

(** Two generators: a linear congruential one, and one that reads its
    draws off a tape. *)
Definition lcg : Rand :=
  {| RandState := Z;
     draw := fun n s => ((s / 65536) mod n, (s * 1103515245 + 12345) mod 2 ^ 31) |}.

Definition tape : Rand :=
  {| RandState := list Z;
     draw := fun n s => match s with
                        | [] => (0, [])
                        | x :: rest => (x mod n, rest)
                        end |}.

(** 1 when [a] is [y], for counting occurrences. *)
Definition hit (a y : Z) : nat := if Z.eq_dec a y then 1%nat else 0%nat.

(** ** More of the sample platform *)

Definition sampleFmt : GoFmt :=
  {| SprintfFloat := fun format f => decimal (F64.toInt f) ++ " as " ++ format;
     Format := fun t layout => decimal (wall t) ++ "ns as " ++ layout |}.

(** A platform whose zone database is empty. *)
Definition bareLib : GoLib :=
  {| LoadLocation := fun z => Failure ("unknown time zone " ++ z);
     FormatRFC1123 := @FormatRFC1123 sampleLib;
     DurationString := @DurationString sampleLib;
     padString := @padString sampleLib;
     padUint := @padUint sampleLib |}.

(** A fresh bar of ten units with the timer of one second, the same bar
    after an UpdateBar two seconds later, and after three more updates
    within the following second. *)
Definition sampleFresh : World :=
  Eval vm_compute in worldAfter (sampleRun (sampleBar 0 "x" 10 10 []) []).

Definition sampleFirstFrame : World :=
  Eval vm_compute in
    worldAfter (sampleRun (sampleBar 0 "x" 10 10 []) [CallUpdateBar 2000000000]).

Definition hastyCalls : list Call :=
  [CallUpdateBar 2200000000; CallAddSpecificTimes 2500000000 3;
   CallUpdateBar 2900000000].

Definition sampleThrottled : World :=
  Eval vm_compute in
    worldAfter (sampleRun (sampleBar 0 "x" 10 10 [])
                  (CallUpdateBar 2000000000 :: hastyCalls)).

(** Calls that ask a bar of ten units for ten in all, Complete and Report
    among them. *)
Definition modestCalls : list Call :=
  [CallUpdateBar 1000; CallAddSpecificTimes 2000000000 5; CallReport 40;
   CallAddSpecificTimes 2000000000 3; CallComplete 5000000000; CallUpdateBar 6000000000;
   CallComplete 7000000000; CallReport 40].

(** A bar of ten units without timer, and the same bar after updates and
    Complete. *)
Definition sampleUntimed : World :=
  Eval vm_compute in
    worldAfter (sampleRun (sampleBar 0 "x" 10 10 [WithTimeControl 0]) []).

Definition untimedCalls : list Call :=
  [CallUpdateBar 1000000000; CallAddSpecificTimes 3000000000 4;
   CallComplete 4000000000].

Definition sampleUntimedDone : World :=
  Eval vm_compute in
    worldAfter (sampleRun (sampleBar 0 "x" 10 10 [WithTimeControl 0]) untimedCalls).

(** The bar of three units that was taken to five, after Complete. *)
Definition sampleClosed : World :=
  Eval vm_compute in
    worldAfter (@run sampleLib samplePalette [CallComplete 2000] sampleOvershoot).

(** ** utilhub/defaultConfig.go: default values from struct tags

    applyDefaults and setFieldValue walk a config struct by reflection.
    The embedding keeps what they look at: the type of every field (its
    kind, the length and the element type of an array, the element type
    of a slice, and for a field of a struct its name, whether the name is
    exported and its [default] tag) and the value the field holds. *)

(** [reflect.Kind] *)
Module Kind.
Inductive t : Set :=
| Invalid | Bool
| Int | Int8 | Int16 | Int32 | Int64
| Uint | Uint8 | Uint16 | Uint32 | Uint64 | Uintptr
| Float32 | Float64 | Complex64 | Complex128
| Array | Chan | Func | Interface | Map | Pointer | Slice | String | Struct
| UnsafePointer.

(** [k.String()] *)
Definition name (k : t) : string :=
  match k with
  | Invalid => "invalid" | Bool => "bool"
  | Int => "int" | Int8 => "int8" | Int16 => "int16" | Int32 => "int32"
  | Int64 => "int64"
  | Uint => "uint" | Uint8 => "uint8" | Uint16 => "uint16" | Uint32 => "uint32"
  | Uint64 => "uint64" | Uintptr => "uintptr"
  | Float32 => "float32" | Float64 => "float64"
  | Complex64 => "complex64" | Complex128 => "complex128"
  | Array => "array" | Chan => "chan" | Func => "func" | Interface => "interface"
  | Map => "map" | Pointer => "ptr" | Slice => "slice" | String => "string"
  | Struct => "struct" | UnsafePointer => "unsafe.Pointer"
  end.

(** The width in bits of the integer kinds ([int] and [uint] have 64). *)
Definition bits (k : t) : Z :=
  match k with
  | Int8 | Uint8 => 8
  | Int16 | Uint16 => 16
  | Int32 | Uint32 => 32
  | _ => 64
  end.
End Kind.

(** [reflect.Type]. A type that is no array, slice or struct is known by
    its kind. *)
Inductive Ty : Type :=
| Basic (kind : Kind.t)
| ArrayOf (len : nat) (elem : Ty)
| SliceOf (elem : Ty)
| StructOf (fields : Fields)
with Fields : Type :=
| NoField
| Field (name : string) (exported : bool) (defaultTag : string) (type : Ty)
        (rest : Fields).

Scheme Ty_Fields_ind := Induction for Ty Sort Prop
  with Fields_Ty_ind := Induction for Fields Sort Prop.

(** [t.Kind()] *)
Definition kindOf (t : Ty) : Kind.t :=
  match t with
  | Basic kind => kind
  | ArrayOf _ _ => Kind.Array
  | SliceOf _ => Kind.Slice
  | StructOf _ => Kind.Struct
  end.

(** [reflect.Value]: what a field holds. For the kinds that the code only
    compares with their zero value (channels, functions, interfaces, maps,
    pointers) the value is nil or not. *)
#[warnings="-register-all"]
Inductive Value : Type :=
| VBool (b : bool)
| VInt (z : Z)
| VUint (z : Z)
| VFloat (f : float64)
| VComplex (re im : float64)
| VString (s : string)
| VArray (elems : list Value)
| VSlice (elems : option (list Value))
| VStruct (fields : list Value)
| VRef (isNil : bool).

(** What the two functions take from strconv and strings:
    [ParseBool(s)], [ParseInt(s, 10, 64)], [ParseUint(s, 10, 64)],
    [ParseFloat(s, 64)], [TrimSpace(s)], and the conversion [float32(f)]. *)
Class GoStrconv : Type := {
  ParseBool : string -> result bool;
  ParseInt : string -> result Z;
  ParseUint : string -> result Z;
  ParseFloat : string -> result float64;
  TrimSpace : string -> string;
  toFloat32 : float64 -> float64
}.

(** [strings.Split(s, ",")] *)
Fixpoint splitComma (s : string) : list string :=
  match s with
  | EmptyString => [""]
  | String c rest =>
      if Ascii.eqb c ","%char then "" :: splitComma rest
      else match splitComma rest with
           | item :: items => String c item :: items
           | [] => [String c ""]
           end
  end.

(** [int8(x)] and the like: the low [bits] bits as a signed number, and
    as an unsigned one. *)
Definition wrapSigned (bits : Z) (z : Z) : Z :=
  (z + 2 ^ (bits - 1)) mod 2 ^ bits - 2 ^ (bits - 1).

Definition wrapUnsigned (bits : Z) (z : Z) : Z := z mod 2 ^ bits.

(** [reflect.DeepEqual(field.Interface(), reflect.Zero(field.Type()).Interface())]:
    numbers and strings are compared with [==] (so a NaN is not zero and
    -0 is), arrays and structs element by element, and a slice, map,
    pointer, function, channel or interface is zero when it is nil. *)
Fixpoint isZero (v : Value) : bool :=
  match v with
  | VBool b => negb b
  | VInt z => z =? 0
  | VUint z => z =? 0
  | VFloat f => SFeqb f F64.zero
  | VComplex re im => SFeqb re F64.zero && SFeqb im F64.zero
  | VString s => String.eqb s ""
  | VArray elems => forallb isZero elems
  | VSlice None => true
  | VSlice (Some _) => false
  | VStruct fields => forallb isZero fields
  | VRef isNil => isNil
  end.

(** [reflect.Zero(t)], which is also what [reflect.MakeSlice] fills a new
    slice with. *)
Fixpoint zeroOf (t : Ty) : Value :=
  match t with
  | Basic Kind.Bool => VBool false
  | Basic (Kind.Int | Kind.Int8 | Kind.Int16 | Kind.Int32 | Kind.Int64) => VInt 0
  | Basic (Kind.Uint | Kind.Uint8 | Kind.Uint16 | Kind.Uint32 | Kind.Uint64
          | Kind.Uintptr) => VUint 0
  | Basic (Kind.Float32 | Kind.Float64) => VFloat F64.zero
  | Basic (Kind.Complex64 | Kind.Complex128) => VComplex F64.zero F64.zero
  | Basic Kind.String => VString ""
  | Basic _ => VRef true
  | ArrayOf len elem => VArray (repeat (zeroOf elem) len)
  | SliceOf _ => VSlice None
  | StructOf fields => VStruct (zerosOf fields)
  end
with zerosOf (fields : Fields) : list Value :=
  match fields with
  | NoField => []
  | Field _ _ _ type rest => zeroOf type :: zerosOf rest
  end.

(** A value of the type. *)
Fixpoint hasType (t : Ty) (v : Value) {struct t} : Prop :=
  match t, v with
  | Basic Kind.Bool, VBool _ => True
  | Basic (Kind.Int | Kind.Int8 | Kind.Int16 | Kind.Int32 | Kind.Int64), VInt _ => True
  | Basic (Kind.Uint | Kind.Uint8 | Kind.Uint16 | Kind.Uint32 | Kind.Uint64
          | Kind.Uintptr), VUint _ => True
  | Basic (Kind.Float32 | Kind.Float64), VFloat _ => True
  | Basic (Kind.Complex64 | Kind.Complex128), VComplex _ _ => True
  | Basic Kind.String, VString _ => True
  | Basic (Kind.Chan | Kind.Func | Kind.Interface | Kind.Map | Kind.Pointer
          | Kind.UnsafePointer), VRef _ => True
  | ArrayOf len elem, VArray elems =>
      List.length elems = len /\ Forall (hasType elem) elems
  | SliceOf elem, VSlice None => True
  | SliceOf elem, VSlice (Some elems) => Forall (hasType elem) elems
  | StructOf fields, VStruct vals => haveTypes fields vals
  | _, _ => False
  end
with haveTypes (fields : Fields) (vals : list Value) {struct fields} : Prop :=
  match fields, vals with
  | NoField, [] => True
  | Field _ _ _ type rest, v :: vals' => hasType type v /\ haveTypes rest vals'
  | _, _ => False
  end.

Section Defaults.
Context {strconv : GoStrconv}.

(** The loops of setFieldValue over the elements of an array or of a new
    slice: element [i] is set from item [i], trimmed; the first error ends
    the loop, with the elements before it already set. *)
Fixpoint setElements (set : Value -> string -> Value * option error)
    (elems : list Value) (items : list string) : list Value * option error :=
  match elems, items with
  | x :: elems', item :: items' =>
      match set x (TrimSpace item) with
      | (x', Some err) => (x' :: elems', Some err)
      | (x', None) =>
          let (rest, err) := setElements set elems' items' in
          (x' :: rest, err)
      end
  | _, _ => (elems, None)
  end.

(** setFieldValue: the field as the call leaves it, and the error.
    [canSet] is [field.CanSet()]. *)
Fixpoint setFieldValue (canSet : bool) (t : Ty) (field : Value) (value : string)
    {struct t} : Value * option error :=
  if negb canSet then (field, Some "cannot set field value")
  else
    match t with
    | Basic Kind.Invalid => (field, Some "invalid field kind")
    | Basic Kind.Bool =>
        match ParseBool value with
        | Failure err => (field, Some err)
        | Success boolVal => (VBool boolVal, None)
        end
    | Basic (Kind.Int | Kind.Int8 | Kind.Int16 | Kind.Int32 | Kind.Int64) =>
        match ParseInt value with
        | Failure err => (field, Some err)
        | Success intVal => (VInt (wrapSigned (Kind.bits (kindOf t)) intVal), None)
        end
    | Basic (Kind.Uint | Kind.Uint8 | Kind.Uint16 | Kind.Uint32 | Kind.Uint64) =>
        match ParseUint value with
        | Failure err => (field, Some err)
        | Success uintVal => (VUint (wrapUnsigned (Kind.bits (kindOf t)) uintVal), None)
        end
    | Basic Kind.Float32 =>
        match ParseFloat value with
        | Failure err => (field, Some err)
        | Success floatVal => (VFloat (toFloat32 floatVal), None)
        end
    | Basic Kind.Float64 =>
        match ParseFloat value with
        | Failure err => (field, Some err)
        | Success floatVal => (VFloat floatVal, None)
        end
    | Basic (Kind.Complex64 | Kind.Complex128) =>
        (field, Some "unsupported field type: complex")
    | ArrayOf len elem =>
        let items := splitComma value in
        if negb (Nat.eqb (List.length items) len) then
          (field, Some ("array length mismatch: expected " ++ decimal (Z.of_nat len)
                          ++ ", got " ++ decimal (Z.of_nat (List.length items))))
        else
          match field with
          | VArray elems =>
              let (elems', err) := setElements (setFieldValue canSet elem) elems items in
              (VArray elems', err)
          | _ => (field, None)
          end
    | Basic Kind.Chan => (field, Some "unsupported field type: channel")
    | Basic Kind.Func => (field, Some "unsupported field type: function")
    | Basic Kind.Interface => (field, Some "unsupported field type: interface")
    | Basic Kind.Map => (field, Some "unsupported field type: map")
    | Basic Kind.Pointer => (field, Some "unsupported field type: pointer")
    | StructOf _ => (field, Some "unsupported field type: struct")
    | Basic Kind.UnsafePointer => (field, Some "unsupported field type: UnsafePointer")
    | Basic Kind.String => (VString value, None)
    | SliceOf elem =>
        let items := splitComma value in
        let slice := repeat (zeroOf elem) (List.length items) in
        match setElements (setFieldValue true elem) slice items with
        | (_, Some err) => (field, Some err)
        | (slice', None) => (VSlice (Some slice'), None)
        end
    | Basic Kind.Uintptr =>
        (field, Some ("unsupported field type: " ++ Kind.name (kindOf t)))
    | Basic (Kind.Array | Kind.Slice | Kind.Struct) => (field, None)
    end.

(** The panic of [Value.Interface] on a field with an unexported name. *)
Definition unexportedPanic : string :=
  "reflect.Value.Interface: cannot return value obtained from unexported field or method".

(** applyDefaults on a pointer to the struct [v] of type [t]: the struct
    as the call leaves it and the error, or the panic. [applyFields] is
    the loop over the fields. *)
Fixpoint applyDefaults (t : Ty) (v : Value) {struct t} : Run (Value * option error) :=
  match t, v with
  | StructOf fields, VStruct vals =>
      match applyFields fields vals with
      | Crash msg => Crash msg
      | Done (vals', err) => Done (VStruct vals', err)
      end
  | _, _ =>
      Crash ("reflect: call of reflect.Value.NumField on " ++ Kind.name (kindOf t)
               ++ " Value")
  end
with applyFields (fields : Fields) (vals : list Value) {struct fields}
    : Run (list Value * option error) :=
  match fields, vals with
  | Field name exported defaultTag type rest, field :: vals' =>
      let continue (field' : Value) :=
        match applyFields rest vals' with
        | Crash msg => Crash msg
        | Done (vals'', err) => Done (field' :: vals'', err)
        end in
      match type with
      | StructOf _ =>
          if negb exported then Crash unexportedPanic
          else
            match applyDefaults type field with
            | Crash msg => Crash msg
            | Done (field', Some err) => Done (field' :: vals', Some err)
            | Done (field', None) => continue field'
            end
      | _ =>
          if String.eqb defaultTag "" then continue field
          else if negb exported then Crash unexportedPanic
          else if negb (isZero field) then continue field
          else
            match setFieldValue true type field defaultTag with
            | (field', Some err) =>
                Done (field' :: vals', Some ("field " ++ name ++ ": " ++ err))
            | (field', None) => continue field'
            end
      end
  | _, _ => Done (vals, None)
  end.
End Defaults.

(** What _parseDefault takes from os and encoding/json: [os.ReadFile(path)]
    and [json.Unmarshal(data, cfg)] for a pointer [cfg] to a value of the
    type, with the value it leaves behind the pointer and its error. *)
Class GoFiles : Type := {
  ReadFile : string -> result string;
  Unmarshal : string -> Ty -> Value -> Value * option error
}.

(** A config as it is handed over: the value itself, or a pointer to it. *)
Inductive Config : Type :=
| ByValue (t : Ty) (v : Value)
| ByPointer (t : Ty) (v : Value).

Definition valueOf (cfg : Config) : Value :=
  match cfg with
  | ByValue _ v => v
  | ByPointer _ v => v
  end.

Section ParseFile.
Context {strconv : GoStrconv} {files : GoFiles}.

(** _parseDefault: the value of the config as the call leaves it and the
    error, or the panic. *)
Definition _parseDefault (filePath : string) (cfg : Config)
    : Run (Value * option error) :=
  match cfg with
  | ByValue _ v => Done (v, Some "config must be a pointer to a struct")
  | ByPointer t v =>
      match ReadFile filePath with
      | Failure err => Done (v, Some err)
      | Success file =>
          match Unmarshal file t v with
          | (v, Some err) => Done (v, Some err)
          | (v, None) =>
              match applyDefaults t v with
              | Crash msg => Crash msg
              | Done (v, Some err) => Done (v, Some err)
              | Done (v, None) => Done (v, None)
              end
          end
      end
  end.
End ParseFile.

(** No panic of reflection on the way: every field of struct type is
    exported, and so is every other field with a default tag. *)
Fixpoint exportedWhereRead (t : Ty) : Prop :=
  match t with
  | StructOf fields => exportedFields fields
  | _ => True
  end
with exportedFields (fields : Fields) : Prop :=
  match fields with
  | NoField => True
  | Field _ exported defaultTag type rest =>
      match type with
      | StructOf _ => exported = true /\ exportedWhereRead type
      | _ => defaultTag = "" \/ exported = true
      end
      /\ exportedFields rest
  end.

(** [v'] differs from [v] at most in fields that have a default tag and
    held their zero value. *)
Fixpoint filledFrom (t : Ty) (v v' : Value) {struct t} : Prop :=
  match t, v, v' with
  | StructOf fields, VStruct vals, VStruct vals' => fieldsFilledFrom fields vals vals'
  | _, _, _ => v' = v
  end
with fieldsFilledFrom (fields : Fields) (vals vals' : list Value) {struct fields} : Prop :=
  match fields, vals, vals' with
  | Field _ _ defaultTag type rest, x :: xs, x' :: xs' =>
      match type with
      | StructOf _ => filledFrom type x x'
      | _ => (defaultTag = "" \/ isZero x = false) -> x' = x
      end
      /\ fieldsFilledFrom rest xs xs'
  | _, _, _ => vals' = vals
  end.

(** ** utilhub/defaultConfig_daily.go: the configuration of the package

    The struct BptreeUnitTestConfig and the closure that ParseDefault
    hands to [_ones.Do] (it reads the project directory and the config
    file) are taken as they come: [Config] with its zero value, and [load],
    which gives the config the closure leaves behind the pointer and the
    error it assigns to [err], or panics. *)

Section Daily.
Variable Config : Type.
Variable zeroConfig : Config.
Variable load : Config -> Run (Config * option error).

(** The package variables. [_ones] holds whether the Once is used up. *)
Record Package : Type := {
  _unitTestConfig : Config;
  _configParseErr : option error;
  _ones : bool
}.

(** ParseDefault(cfg), by the state of [_ones] and the config behind
    [cfg]: the two afterwards, and the error returned. *)
Definition ParseDefault (ones : bool) (cfg : Config)
    : Run (bool * Config * option error) :=
  if ones then Done (true, cfg, None)
  else
    match load cfg with
    | Crash msg => Crash msg
    | Done (cfg', err) => Done (true, cfg', err)
    end.

(** The initialisation of the package: its variables in order, then
    [init]. *)
Definition initPackage : Run Package :=
  match ParseDefault false zeroConfig with
  | Crash msg => Crash msg
  | Done (ones, cfg, err) =>
      match err with
      | Some e => Crash e
      | None => Done {| _unitTestConfig := cfg; _configParseErr := err; _ones := ones |}
      end
  end.

(** ForceReloadConfig *)
Definition ForceReloadConfig (p : Package) : Run Package :=
  match ParseDefault (_ones p) zeroConfig with
  | Crash msg => Crash msg
  | Done (ones, cfg, err) =>
      Done {| _unitTestConfig := cfg; _configParseErr := err; _ones := ones |}
  end.

(** GetDefaultConfig *)
Definition GetDefaultConfig (p : Package) : Config := _unitTestConfig p.
End Daily.

(** ** A sample strconv and a sample config *)

Definition digitOf (c : ascii) : option Z :=
  let n := Z.of_nat (nat_of_ascii c) in
  if (48 <=? n) && (n <=? 57) then Some (n - 48) else None.

(** Decimal digits, read from the left onto [acc]. *)
Fixpoint digitsFrom (acc : Z) (s : string) : option Z :=
  match s with
  | EmptyString => Some acc
  | String c rest =>
      match digitOf c with
      | Some d => digitsFrom (10 * acc + d) rest
      | None => None
      end
  end.

Definition parseDecimal (s : string) : result Z :=
  match s with
  | EmptyString => Failure "invalid syntax"
  | String c rest =>
      if Ascii.eqb c "-"%char then
        match rest, digitsFrom 0 rest with
        | String _ _, Some z => Success (- z)
        | _, _ => Failure "invalid syntax"
        end
      else
        match digitsFrom 0 s with
        | Some z => Success z
        | None => Failure "invalid syntax"
        end
  end.

Fixpoint dropSpaces (s : string) : string :=
  match s with
  | String c rest => if Ascii.eqb c " "%char then dropSpaces rest else s
  | EmptyString => s
  end.

(** Strings of digits, an optional minus sign, blanks before an item. *)
Definition sampleStrconv : GoStrconv :=
  {| ParseBool := fun s =>
       if String.eqb s "true" then Success true
       else if String.eqb s "false" then Success false
       else Failure "invalid syntax";
     ParseInt := parseDecimal;
     ParseUint := fun s =>
       match digitsFrom 0 s with
       | Some z => if String.eqb s "" then Failure "invalid syntax" else Success z
       | None => Failure "invalid syntax"
       end;
     ParseFloat := fun s =>
       match parseDecimal s with
       | Success z => Success (F64.ofZ z)
       | Failure err => Failure err
       end;
     TrimSpace := dropSpaces;
     toFloat32 := fun f => f |}.

(** A config with a name, a list of widths, a nested struct with a count,
    and an unexported note. *)
Definition sampleConfigType : Ty :=
  StructOf
    (Field "Name" true "idx" (Basic Kind.String)
       (Field "Width" true "3, 6, 7" (SliceOf (Basic Kind.Int))
          (Field "Inner" true ""
             (StructOf (Field "Count" true "10" (Basic Kind.Int64)
                          (Field "Ratio" true "2" (Basic Kind.Float64) NoField)))
             (Field "note" false "" (Basic Kind.String) NoField)))).

Definition sampleConfig : Value :=
  VStruct [VString ""; VSlice None; VStruct [VInt 5; VFloat F64.zero]; VString "x"].

Definition sampleConfigFilled : Value :=
  Eval vm_compute in
    match @applyDefaults sampleStrconv sampleConfigType sampleConfig with
    | Done (v, _) => v
    | Crash _ => sampleConfig
    end.

(** A file system with one config file, which sets the count to 8. *)
Definition sampleFiles : GoFiles :=
  {| ReadFile := fun path =>
       if String.eqb path "config/sample.json" then Success "{Inner: {Count: 8}}"
       else Failure ("open " ++ path ++ ": no such file or directory");
     Unmarshal := fun data t v =>
       match v with
       | VStruct [a; b; VStruct [_; r]; n] => (VStruct [a; b; VStruct [VInt 8; r]; n], None)
       | _ => (v, Some "json: cannot unmarshal")
       end |}.

Definition sampleConfigZero : Value :=
  VStruct [VString ""; VSlice None; VStruct [VInt 0; VFloat F64.zero]; VString ""].


(** * Properties *)

(** ** Machine integers *)

Lemma wrap64_id (z : Z) : Int.isInt z -> Int.wrap64 z = z.
Proof.
  unfold Int.isInt, Int.wrap64, Int.minInt, Int.maxInt. intros Hz.
  rewrite Z.mod_small; lia.
Qed.

Lemma wrap32_id (z : Z) : Int.isUint32 z -> Int.wrap32 z = z.
Proof.
  unfold Int.isUint32, Int.wrap32, Int.maxUint32. intros Hz.
  apply Z.mod_small. lia.
Qed.

(** ** float64 arithmetic in the normal range *)

Lemma pow2_pos (k : Z) : 0 <= k -> 0 < 2 ^ k.
Proof. intros Hk. apply Z.pow_pos_nonneg; lia. Qed.

Lemma digits2_pos_bounds (p : positive) :
  2 ^ (Zpos (digits2_pos p) - 1) <= Zpos p < 2 ^ Zpos (digits2_pos p).
Proof.
  induction p as [p IH|p IH|]; cbn [digits2_pos].
  - rewrite Pos2Z.inj_succ.
    replace (Z.succ (Zpos (digits2_pos p)) - 1) with (Z.succ (Zpos (digits2_pos p) - 1)) by lia.
    rewrite !Z.pow_succ_r by lia. lia.
  - rewrite Pos2Z.inj_succ.
    replace (Z.succ (Zpos (digits2_pos p)) - 1) with (Z.succ (Zpos (digits2_pos p) - 1)) by lia.
    rewrite !Z.pow_succ_r by lia. lia.
  - cbn. lia.
Qed.

Lemma Zdigits2_bounds (m : Z) :
  0 < m -> 0 < Zdigits2 m /\ 2 ^ (Zdigits2 m - 1) <= m < 2 ^ Zdigits2 m.
Proof.
  destruct m as [|p|p]; try lia. intros _. cbn [Zdigits2].
  split; [lia|]. apply digits2_pos_bounds.
Qed.

Lemma Zdigits2_le (m k : Z) : 0 < m -> 0 <= k -> m < 2 ^ k -> Zdigits2 m <= k.
Proof.
  intros Hm Hk H. destruct (Zdigits2_bounds m Hm) as (Hd & Hlo & _).
  destruct (Z_le_gt_dec (Zdigits2 m) k) as [|G]; [assumption|].
  assert (2 ^ k <= 2 ^ (Zdigits2 m - 1)) by (apply Z.pow_le_mono_r; lia). lia.
Qed.

Lemma Zdigits2_ge (m k : Z) : 0 < m -> 2 ^ (k - 1) <= m -> k <= Zdigits2 m.
Proof.
  intros Hm H. destruct (Zdigits2_bounds m Hm) as (Hd & _ & Hhi).
  destruct (Z_le_gt_dec k (Zdigits2 m)) as [|G]; [assumption|].
  assert (2 ^ Zdigits2 m <= 2 ^ (k - 1)) by (apply Z.pow_le_mono_r; lia). lia.
Qed.

Lemma shr_1_m (mrs : shr_record) :
  0 <= shr_m mrs -> shr_m (shr_1 mrs) = shr_m mrs / 2.
Proof.
  destruct mrs as [m r s]. cbn [shr_m]. intros Hm. unfold shr_1.
  destruct m as [|[p|p|]|p]; cbn [shr_m]; try lia.
  - reflexivity.
  - apply Z.div_unique with 1; lia.
  - apply Z.div_unique with 0; lia.
  - reflexivity.
Qed.

Lemma shr_m_iter (p : positive) (mrs : shr_record) :
  0 <= shr_m mrs ->
  shr_m (iter_pos shr_1 p mrs) = shr_m mrs / 2 ^ Zpos p.
Proof.
  revert mrs. induction p as [p IH|p IH|]; intros mrs Hm; cbn [iter_pos].
  - assert (Hp : 0 < 2 ^ Zpos p) by (apply pow2_pos; lia).
    assert (H1 : 0 <= shr_m (shr_1 mrs)).
    { rewrite shr_1_m by assumption. apply Z.div_pos; lia. }
    assert (H2 : 0 <= shr_m (iter_pos shr_1 p (shr_1 mrs))).
    { rewrite IH by assumption. apply Z.div_pos; assumption. }
    rewrite IH, IH, shr_1_m by assumption.
    rewrite !Z.div_div by lia.
    f_equal. rewrite (Pos2Z.inj_xI p).
    replace (2 * Zpos p + 1) with (1 + Zpos p + Zpos p) by lia.
    rewrite !Z.pow_add_r by lia. lia.
  - assert (Hp : 0 < 2 ^ Zpos p) by (apply pow2_pos; lia).
    assert (H2 : 0 <= shr_m (iter_pos shr_1 p mrs)).
    { rewrite IH by assumption. apply Z.div_pos; assumption. }
    rewrite IH, IH by assumption.
    rewrite Z.div_div by lia.
    f_equal. rewrite (Pos2Z.inj_xO p).
    replace (2 * Zpos p) with (Zpos p + Zpos p) by lia.
    rewrite Z.pow_add_r by lia. reflexivity.
  - rewrite shr_1_m by assumption. reflexivity.
Qed.

Lemma shr_record_of_loc_m (m : Z) (l : SpecFloat.location) : shr_m (shr_record_of_loc m l) = m.
Proof. destruct l as [|[]]; reflexivity. Qed.

Lemma round_nearest_even_bounds (m : Z) (l : SpecFloat.location) :
  m <= round_nearest_even m l <= m + 1.
Proof.
  unfold round_nearest_even. destruct l as [|[]]; try lia.
  destruct (Z.even m); lia.
Qed.

(** The shift that rounding to 53 bits applies to a mantissa in the normal
    range. *)
Lemma shr_fexp_normal (m e : Z) (l : SpecFloat.location) :
  0 < m -> -1074 <= Zdigits2 m + e - 53 ->
  exists mrs,
    shr_fexp 53 1024 m e l = (mrs, e + Z.max 0 (Zdigits2 m - 53))
    /\ 0 < shr_m mrs
    /\ Zdigits2 (shr_m mrs) = Z.min (Zdigits2 m) 53.
Proof.
  intros Hm Hn. destruct (Zdigits2_bounds m Hm) as (Hd & Hlo & Hhi).
  unfold shr_fexp, fexp, emin.
  rewrite Z.max_l by lia.
  replace (Zdigits2 m + e - 53 - e) with (Zdigits2 m - 53) by lia.
  unfold shr. destruct (Zdigits2 m - 53) as [|p|p] eqn:E.
  - eexists. split; [f_equal; lia|]. rewrite shr_record_of_loc_m. split; [lia|]. lia.
  - assert (Hp : 0 < 2 ^ Zpos p) by (apply pow2_pos; lia).
    eexists. split; [f_equal; lia|].
    rewrite shr_m_iter by (rewrite shr_record_of_loc_m; lia).
    rewrite shr_record_of_loc_m.
    assert (Hq : 2 ^ 52 <= m / 2 ^ Zpos p < 2 ^ 53).
    { split.
      - apply Z.div_le_lower_bound; [assumption|].
        rewrite <- Z.pow_add_r by lia.
        replace (Zpos p + 52) with (Zdigits2 m - 1) by lia. apply Hlo.
      - apply Z.div_lt_upper_bound; [assumption|].
        rewrite <- Z.pow_add_r by lia.
        replace (Zpos p + 53) with (Zdigits2 m) by lia. apply Hhi. }
    assert (0 < 2 ^ 52) by (apply pow2_pos; lia).
    split; [lia|].
    rewrite Z.min_r by lia.
    apply Z.le_antisymm.
    + apply Zdigits2_le; lia.
    + apply Zdigits2_ge; [lia|]. replace (53 - 1) with 52 by lia. lia.
  - eexists. split; [f_equal; lia|]. rewrite shr_record_of_loc_m. split; [lia|]. lia.
Qed.

(** Rounding a positive mantissa in the normal range gives a finite number
    of the same sign, and the mantissa has 53 bits when the input had at
    least as many. *)
Lemma binary_round_aux_normal (sx : bool) (mx ex : Z) (lx : SpecFloat.location) :
  0 < mx ->
  -1074 <= Zdigits2 mx + ex - 53 -> ex <= 970 -> Zdigits2 mx + ex <= 1023 ->
  exists m e,
    binary_round_aux 53 1024 sx mx ex lx = S754_finite sx m e
    /\ Zdigits2 mx + ex <= Zpos (digits2_pos m) + e <= Zdigits2 mx + ex + 1
    /\ (53 <= Zdigits2 mx -> Zpos (digits2_pos m) = 53).
Proof.
  intros Hm Hlo Hex Hhi.
  destruct (shr_fexp_normal mx ex lx Hm Hlo) as (mrs1 & E1 & Hm1 & Hd1).
  unfold binary_round_aux. rewrite E1.
  set (m1 := round_nearest_even (shr_m mrs1) (loc_of_shr_record mrs1)).
  pose proof (round_nearest_even_bounds (shr_m mrs1) (loc_of_shr_record mrs1)) as Hr.
  fold m1 in Hr.
  destruct (Zdigits2_bounds mx Hm) as (Hdx & _).
  destruct (Zdigits2_bounds (shr_m mrs1) Hm1) as (Hd1pos & Hb1lo & Hb1hi).
  assert (Hm1' : 0 < m1) by lia.
  assert (Hdm1 : Zdigits2 (shr_m mrs1) <= Zdigits2 m1 <= Zdigits2 (shr_m mrs1) + 1).
  { split.
    - apply Zdigits2_ge; lia.
    - apply Zdigits2_le; [lia|lia|].
      rewrite Z.pow_add_r by lia. change (2 ^ 1) with 2. lia. }
  destruct (shr_fexp_normal m1 (ex + Z.max 0 (Zdigits2 mx - 53)) loc_Exact Hm1')
    as (mrs2 & E2 & Hm2 & Hd2); [lia|].
  rewrite E2.
  destruct (shr_m mrs2) as [|m|m] eqn:Em; try lia.
  replace (ex + Z.max 0 (Zdigits2 mx - 53) + Z.max 0 (Zdigits2 m1 - 53) <=? 1024 - 53)
    with true by (symmetry; apply Z.leb_le; lia).
  eexists; eexists. split; [reflexivity|].
  cbn [Zdigits2] in Hd2. lia.
Qed.

Lemma iter_xO_pow (m d : positive) :
  Zpos (Pos.iter xO m d) = Zpos m * 2 ^ Zpos d.
Proof.
  induction d as [|d IH] using Pos.peano_ind.
  - cbn. lia.
  - rewrite Pos.iter_succ, Pos2Z.inj_xO, IH, Pos2Z.inj_succ, Z.pow_succ_r by lia. lia.
Qed.

(** [float64(z)] for an integer of at most 64 bits is finite, carries the
    sign of [z], and has a mantissa of 53 bits. *)
Lemma binary_round_int (s : bool) (p : positive) :
  Zpos p < 2 ^ 64 ->
  exists m e,
    binary_round 53 1024 s p 0 = S754_finite s m e
    /\ Zpos (digits2_pos m) = 53
    /\ Zpos (digits2_pos p) <= 53 + e <= Zpos (digits2_pos p) + 1.
Proof.
  intros Hp. pose proof (digits2_pos_bounds p) as (Hlo & Hhi).
  assert (Hd : Zpos (digits2_pos p) <= 64).
  { apply (Zdigits2_le (Zpos p) 64); lia. }
  unfold binary_round, shl_align, fexp, emin.
  rewrite Z.max_l by lia.
  replace (Zpos (digits2_pos p) + 0 - 53 - 0) with (Zpos (digits2_pos p) - 53) by lia.
  destruct (Zpos (digits2_pos p) - 53) as [|k|k] eqn:E.
  - destruct (binary_round_aux_normal s (Zpos p) 0 loc_Exact) as (m & e & H & Hsum & H53);
      cbn [Zdigits2]; try lia.
    exists m, e. split; [exact H|]. cbn [Zdigits2] in *. lia.
  - destruct (binary_round_aux_normal s (Zpos p) 0 loc_Exact) as (m & e & H & Hsum & H53);
      cbn [Zdigits2]; try lia.
    exists m, e. split; [exact H|]. cbn [Zdigits2] in *. lia.
  - assert (Hk : Zpos k = 53 - Zpos (digits2_pos p)) by lia.
    assert (Hmz : 2 ^ 52 <= Zpos (Pos.iter xO p k) < 2 ^ 53).
    { rewrite iter_xO_pow.
      assert (Hpk : 0 < 2 ^ Zpos k) by (apply pow2_pos; lia).
      assert (H52 : 2 ^ 52 = 2 ^ (Zpos (digits2_pos p) - 1) * 2 ^ Zpos k).
      { rewrite <- Z.pow_add_r by lia. f_equal. lia. }
      assert (H53 : 2 ^ 53 = 2 ^ Zpos (digits2_pos p) * 2 ^ Zpos k).
      { rewrite <- Z.pow_add_r by lia. f_equal. lia. }
      rewrite H52, H53. split.
      - apply Z.mul_le_mono_pos_r; assumption.
      - apply Z.mul_lt_mono_pos_r; assumption. }
    assert (Hdz : Zdigits2 (Zpos (Pos.iter xO p k)) = 53).
    { apply Z.le_antisymm.
      - apply Zdigits2_le; lia.
      - apply Zdigits2_ge; [lia|]. replace (53 - 1) with 52 by lia. lia. }
    destruct (binary_round_aux_normal s (Zpos (Pos.iter xO p k))
                (Zpos (digits2_pos p) + 0 - 53) loc_Exact)
      as (m & e & H & Hsum & H53); try lia.
    exists m, e. split; [exact H|]. specialize (H53 ltac:(lia)). lia.
Qed.

Lemma digits53_bounds (m : positive) :
  Zpos (digits2_pos m) = 53 -> 2 ^ 52 <= Zpos m < 2 ^ 53.
Proof.
  intros H. pose proof (digits2_pos_bounds m) as B. rewrite H in B.
  replace (53 - 1) with 52 in B by lia. exact B.
Qed.

(** The product of two finite numbers with 53-bit mantissas, when it is in
    the normal range. *)
Lemma SFmul_normal (sx sy : bool) (mx my : positive) (ex ey : Z) :
  Zpos (digits2_pos mx) = 53 -> Zpos (digits2_pos my) = 53 ->
  -1126 <= ex + ey <= 917 ->
  exists m e,
    SFmul 53 1024 (S754_finite sx mx ex) (S754_finite sy my ey)
    = S754_finite (xorb sx sy) m e
    /\ Zpos (digits2_pos m) = 53
    /\ 105 + ex + ey <= 53 + e <= 107 + ex + ey.
Proof.
  intros Hx Hy He.
  apply digits53_bounds in Hx, Hy.
  assert (Hprod : 2 ^ 104 <= Zpos (mx * my) < 2 ^ 106).
  { rewrite Pos2Z.inj_mul.
    change (2 ^ 104) with (2 ^ 52 * 2 ^ 52). change (2 ^ 106) with (2 ^ 53 * 2 ^ 53).
    assert (0 < 2 ^ 52) by (apply pow2_pos; lia).
    split; [apply Z.mul_le_mono_nonneg; lia|apply Z.mul_lt_mono_nonneg; lia]. }
  assert (Hd : 105 <= Zdigits2 (Zpos (mx * my)) <= 106).
  { split.
    - apply Zdigits2_ge; [lia|]. replace (105 - 1) with 104 by lia. lia.
    - apply Zdigits2_le; lia. }
  cbn [SFmul].
  destruct (binary_round_aux_normal (xorb sx sy) (Zpos (mx * my)) (ex + ey) loc_Exact)
    as (m & e & H & Hsum & H53); try lia.
  exists m, e. split; [exact H|]. specialize (H53 ltac:(lia)). lia.
Qed.

(** The quotient of two finite numbers with 53-bit mantissas, when it is in
    the normal range. *)
Lemma SFdiv_normal (sx sy : bool) (mx my : positive) (ex ey : Z) :
  Zpos (digits2_pos mx) = 53 -> Zpos (digits2_pos my) = 53 ->
  -1021 <= ex - ey <= 1020 ->
  exists m e,
    SFdiv 53 1024 (S754_finite sx mx ex) (S754_finite sy my ey)
    = S754_finite (xorb sx sy) m e
    /\ Zpos (digits2_pos m) = 53
    /\ ex - ey <= 53 + e <= ex - ey + 2.
Proof.
  intros Hx Hy He.
  cbn [SFdiv]. unfold SFdiv_core_binary. cbn [Zdigits2].
  rewrite Hx, Hy. unfold fexp, emin.
  replace (53 + ex - (53 + ey)) with (ex - ey) by lia.
  rewrite Z.max_l by lia. rewrite Z.min_l by lia.
  replace (ex - ey - (ex - ey - 53)) with 53 by lia.
  rewrite Z.shiftl_mul_pow2 by lia.
  apply digits53_bounds in Hx, Hy.
  assert (H52 : 0 < 2 ^ 52) by (apply pow2_pos; lia).
  assert (H53 : 2 ^ 53 = 2 * 2 ^ 52) by reflexivity.
  assert (H54 : 2 ^ 54 = 2 * 2 ^ 53) by reflexivity.
  assert (Hq : 2 ^ 52 <= Zpos mx * 2 ^ 53 / Zpos my < 2 ^ 54).
  { split.
    - apply Z.div_le_lower_bound; [lia|]. nia.
    - apply Z.div_lt_upper_bound; [lia|]. nia. }
  destruct (Z.div_eucl (Zpos mx * 2 ^ 53) (Zpos my)) as [q r] eqn:Eq.
  assert (Hqe : q = Zpos mx * 2 ^ 53 / Zpos my) by (unfold Z.div; rewrite Eq; reflexivity).
  rewrite <- Hqe in Hq.
  assert (Hd : 53 <= Zdigits2 q <= 54).
  { split.
    - apply Zdigits2_ge; [lia|]. replace (53 - 1) with 52 by lia. lia.
    - apply Zdigits2_le; lia. }
  destruct (binary_round_aux_normal (xorb sx sy) q (ex - ey - 53)
              (new_location (Zpos my) r))
    as (m & e & H & Hsum & H53'); try lia.
  exists m, e. split; [exact H|]. specialize (H53' ltac:(lia)). lia.
Qed.

Lemma ofZ_positive (z : Z) :
  0 < z < 2 ^ 64 ->
  exists m e,
    F64.ofZ z = S754_finite false m e
    /\ Zpos (digits2_pos m) = 53
    /\ Zdigits2 z <= 53 + e <= Zdigits2 z + 1.
Proof.
  intros Hz. destruct z as [|p|p]; try lia.
  unfold F64.ofZ, binary_normalize. apply binary_round_int. lia.
Qed.

Lemma ofZ_finite_or_zero (z : Z) :
  - 2 ^ 64 < z < 2 ^ 64 ->
  F64.ofZ z = F64.zero \/ exists s m e, F64.ofZ z = S754_finite s m e.
Proof.
  intros Hz. destruct z as [|p|p].
  - left. reflexivity.
  - right. destruct (binary_round_int false p) as (m & e & H & _); [lia|]. eauto.
  - right. destruct (binary_round_int true p) as (m & e & H & _); [lia|]. eauto.
Qed.

(** [int(0 * float64(z))] is 0. *)
Lemma toInt_zero_times (z : Z) :
  - 2 ^ 64 < z < 2 ^ 64 -> F64.toInt (F64.mul F64.zero (F64.ofZ z)) = 0.
Proof.
  intros Hz. destruct (ofZ_finite_or_zero z Hz) as [E|(s & m & e & E)];
    rewrite E; reflexivity.
Qed.

Lemma hundred_eq : F64.hundred = S754_finite false 7036874417766400 (-46).
Proof. reflexivity. Qed.

(** The quotient of two positive uint32, the smaller over the larger, is
    finite and positive. *)
Lemma div_uint32_positive (a b : Z) :
  0 < a <= b -> b <= Int.maxUint32 ->
  exists m e,
    F64.div (F64.ofZ a) (F64.ofZ b) = S754_finite false m e
    /\ Zpos (digits2_pos m) = 53 /\ -34 <= 53 + e <= 34.
Proof.
  intros Hab Hb. unfold Int.maxUint32 in Hb.
  assert (H32 : 2 ^ 32 < 2 ^ 64) by reflexivity.
  destruct (ofZ_positive a) as (ma & ea & Ea & Hda & Hea); [lia|].
  destruct (ofZ_positive b) as (mb & eb & Eb & Hdb & Heb); [lia|].
  assert (Da : 0 < Zdigits2 a <= 32).
  { split; [apply Zdigits2_bounds; lia|apply Zdigits2_le; lia]. }
  assert (Db : 0 < Zdigits2 b <= 32).
  { split; [apply Zdigits2_bounds; lia|apply Zdigits2_le; lia]. }
  unfold F64.div, F64.prec, F64.emax. rewrite Ea, Eb.
  destruct (SFdiv_normal false false ma mb ea eb Hda Hdb) as (m & e & H & Hd & He); [lia|].
  exists m, e. split; [exact H|]. split; [exact Hd|]. lia.
Qed.

(** ** Construction *)

Section Construction.
Context {lib : GoLib} {colors : Palette}.

Lemma applyOptions_settings (calls : list OptionCall) (pb : ProgressBar) :
  settingsOf (applyOptions (map optionOf calls) pb)
  = fold_left override calls (settingsOf pb).
Proof.
  revert pb. induction calls as [|c calls IH]; intros pb; [reflexivity|].
  cbn [map fold_left applyOptions]. unfold applyOptions in IH. rewrite IH.
  f_equal. destruct c; reflexivity.
Qed.

Lemma applyOptions_untouched (calls : list OptionCall) (pb : ProgressBar) :
  untouchedByOptions (applyOptions (map optionOf calls) pb) pb
  /\ location (applyOptions (map optionOf calls) pb) = location pb
  /\ startTime (applyOptions (map optionOf calls) pb) = startTime pb
  /\ ticker (applyOptions (map optionOf calls) pb) = ticker pb
  /\ printChannel (applyOptions (map optionOf calls) pb) = printChannel pb
  /\ finishBar (applyOptions (map optionOf calls) pb) = finishBar pb.
Proof.
  revert pb. induction calls as [|c calls IH]; intros pb.
  - unfold untouchedByOptions. cbn. repeat split.
  - cbn [map applyOptions fold_left]. unfold applyOptions in IH.
    specialize (IH (optionOf c pb)).
    unfold untouchedByOptions in *.
    destruct IH as ((H1 & H2 & H3 & H4 & H5 & H6 & H7 & H8 & H9) & H10 & H11 & H12 & H13 & H14).
    rewrite H1, H2, H3, H4, H5, H6, H7, H8, H9, H10, H11, H12, H13, H14.
    destruct c; cbn; repeat split.
Qed.

(** What NewProgressBar returns, by the outcome of the zone lookup. *)
Lemma NewProgressBar_cases (now : Z) (name : string) (total barLength : Z)
    (opts : list BarOption) :
  let configured := applyOptions opts (defaultBar name total barLength) in
  match LoadLocation (timezone configured) with
  | Failure err =>
      NewProgressBar now name total barLength opts = (None, Some err)
  | Success loc =>
      exists pb,
        NewProgressBar now name total barLength opts = (Some pb, None)
        /\ settingsOf pb = settingsOf configured
        /\ untouchedByOptions pb configured
        /\ location pb = Some loc
        /\ startTime pb = In (Now now) loc
        /\ printChannel pb = MkChan [] false
  end.
Proof.
  intros configured. unfold NewProgressBar. fold configured.
  destruct (LoadLocation (timezone configured)) as [loc|err]; [|reflexivity].
  eexists. split; [reflexivity|].
  unfold untouchedByOptions, settingsOf.
  destruct (updateInterval _ >? 0); cbn; repeat split.
Qed.

(** C8. NewProgressBar returns an error and no bar exactly when the zone
    name the bar is configured with does not resolve, and in that case the
    error is the one of the zone lookup; when the name resolves it returns
    a bar and no error. There is no other way for the construction to
    fail. *)
Theorem NewProgressBar_fails_only_on_zone (now : Z) (name : string)
    (total barLength : Z) (opts : list BarOption) :
  let tz := timezone (applyOptions opts (defaultBar name total barLength)) in
  match LoadLocation tz with
  | Failure err =>
      NewProgressBar now name total barLength opts = (None, Some err)
  | Success loc =>
      exists pb,
        NewProgressBar now name total barLength opts = (Some pb, None)
        /\ timezone pb = tz /\ location pb = Some loc
  end.
Proof.
  intros tz. subst tz.
  pose proof (NewProgressBar_cases now name total barLength opts) as H.
  cbv zeta in H.
  destruct (LoadLocation _) as [loc|err]; [|exact H].
  destruct H as (pb & Hpb & Hset & _ & Hloc & _).
  exists pb. repeat split; try assumption.
  apply (f_equal wantTimezone) in Hset. exact Hset.
Qed.

(** C10. Without options the bar has precision 2, time zone
    "Asia/Shanghai", update interval 1000 ms and the bright cyan colour.
    With options, each of the four settings is the value of the last
    option call of its kind, or the default when there is none, and the
    fields that no option names are those of the bar without options. *)
Theorem NewProgressBar_defaults_and_overrides (now : Z) (name : string)
    (total barLength : Z) (calls : list OptionCall) :
  requested [] =
    {| wantPrecision := 2; wantTimezone := "Asia/Shanghai";
       wantUpdateInterval := 1000; wantBarColor := BrightCyan |}
  /\
  match LoadLocation (wantTimezone (requested calls)) with
  | Failure err =>
      NewProgressBar now name total barLength (map optionOf calls) = (None, Some err)
  | Success loc =>
      exists pb,
        NewProgressBar now name total barLength (map optionOf calls) = (Some pb, None)
        /\ settingsOf pb = requested calls
        /\ untouchedByOptions pb (defaultBar name total barLength)
  end.
Proof.
  split; [reflexivity|].
  pose proof (NewProgressBar_cases now name total barLength (map optionOf calls)) as H.
  cbv zeta in H.
  pose proof (applyOptions_settings calls (defaultBar name total barLength)) as Hs.
  change (settingsOf (defaultBar name total barLength)) with defaultSettings in Hs.
  fold (requested calls) in Hs.
  replace (timezone (applyOptions (map optionOf calls) (defaultBar name total barLength)))
    with (wantTimezone (requested calls)) in H
    by (rewrite <- Hs; reflexivity).
  destruct (LoadLocation _) as [loc|err]; [|exact H].
  destruct H as (pb & Hpb & Hset & Hun & _).
  exists pb. split; [exact Hpb|]. split; [congruence|].
  destruct (applyOptions_untouched calls (defaultBar name total barLength)) as (Hu & _).
  unfold untouchedByOptions in *.
  destruct Hun as (H1 & H2 & H3 & H4 & H5 & H6 & H7 & H8 & H9).
  destruct Hu as (G1 & G2 & G3 & G4 & G5 & G6 & G7 & G8 & G9).
  repeat split; congruence.
Qed.
End Construction.

(** ** Running a method step by step *)

Section Steps.
Context {A B : Type}.
Implicit Types (w : World).

Lemma bind_assoc {C : Type} (c : M A) (k1 : A -> M B) (k2 : B -> M C) w :
  bind (bind c k1) k2 w = bind c (fun a => bind (k1 a) k2) w.
Proof. unfold bind. destruct (c w); reflexivity. Qed.

Lemma bind_ret (a : A) (k : A -> M B) w : bind (ret a) k w = k a w.
Proof. reflexivity. Qed.

Lemma bind_read (f : ProgressBar -> A) (k : A -> M B) w :
  bind (read f) k w = k (f (bar w)) w.
Proof. reflexivity. Qed.

Lemma bind_assign (g : ProgressBar -> ProgressBar) (k : unit -> M B) w :
  bind (assign g) k w = k tt {| bar := g (bar w); stdout := stdout w |}.
Proof. reflexivity. Qed.

Lemma bind_print (s : string) (k : unit -> M B) w :
  bind (print s) k w = k tt {| bar := bar w; stdout := stdout w ++ [s] |}.
Proof. reflexivity. Qed.

Lemma bind_panic (msg : string) (k : A -> M B) w :
  bind (panic msg) k w = Panicked msg.
Proof. reflexivity. Qed.

Lemma bind_block (k : A -> M B) w : bind block k w = Blocked.
Proof. reflexivity. Qed.

Lemma bind_if (b : bool) (x y : M A) (k : A -> M B) w :
  bind (if b then x else y) k w = if b then bind x k w else bind y k w.
Proof. destruct b; reflexivity. Qed.

Lemma run_if (b : bool) (x y : M A) w :
  (if b then x else y) w = if b then x w else y w.
Proof. destruct b; reflexivity. Qed.

Lemma run_ret (a : A) w : ret a w = Returned a w.
Proof. reflexivity. Qed.

Lemma run_read (f : ProgressBar -> A) w : read f w = Returned (f (bar w)) w.
Proof. reflexivity. Qed.

Lemma run_panic (msg : string) w : @panic A msg w = Panicked msg.
Proof. reflexivity. Qed.

Lemma run_block w : @block A w = Blocked.
Proof. reflexivity. Qed.
End Steps.

Lemma run_assign (g : ProgressBar -> ProgressBar) (w : World) :
  assign g w = Returned tt {| bar := g (bar w); stdout := stdout w |}.
Proof. reflexivity. Qed.

Lemma run_print (s : string) (w : World) :
  print s w = Returned tt {| bar := bar w; stdout := stdout w ++ [s] |}.
Proof. reflexivity. Qed.

(** The commands of the Go runtime, down to [read], [assign] and tests. *)
Ltac unfold_prims_in H :=
  unfold LoadUint32, StoreUint32, AddUint32, Lock, Unlock, send, close,
    println, Repeat in H.

(** Field reads of a bar that was just written. *)
Ltac state_in H :=
  cbn [bar stdout name total barLength precision currentProcess lastFilledLength
       timezone location startTime endTime complete updateInterval ticker
       barColor resetColor printChannel finishBar mu negb
       set_precision set_currentProcess set_lastFilledLength set_timezone
       set_location set_startTime set_endTime set_complete set_updateInterval
       set_ticker set_barColor set_printChannel set_finishBar set_mu] in H.

Ltac state :=
  cbn [bar stdout name total barLength precision currentProcess lastFilledLength
       timezone location startTime endTime complete updateInterval ticker
       barColor resetColor printChannel finishBar mu negb
       set_precision set_currentProcess set_lastFilledLength set_timezone
       set_location set_startTime set_endTime set_complete set_updateInterval
       set_ticker set_barColor set_printChannel set_finishBar set_mu].

(** One step of the method in [H]: the first command is run, or the test
    it waits for is decided both ways. *)
Ltac step_in H :=
  lazymatch type of H with
  | bind (bind _ _) _ _ = _ => rewrite bind_assoc in H
  | bind (ret _) _ _ = _ => rewrite bind_ret in H
  | bind (read _) _ _ = _ => rewrite bind_read in H
  | bind (assign _) _ _ = _ => rewrite bind_assign in H
  | bind (print _) _ _ = _ => rewrite bind_print in H
  | bind (panic _) _ _ = _ => rewrite bind_panic in H
  | bind block _ _ = _ => rewrite bind_block in H
  | bind (if negb ?c then _ else _) _ _ = _ => destruct c eqn:?
  | bind (if ?c then _ else _) _ _ = _ => destruct c eqn:?
  | bind (match ?c with NilChan => _ | MkChan _ _ => _ end) _ _ = _ =>
      destruct c as [|? [|]] eqn:?
  | bind (match ?c with Some _ => _ | None => _ end) _ _ = _ =>
      destruct c eqn:?
  | (if negb ?c then _ else _) _ = _ => destruct c eqn:?
  | (if ?c then _ else _) _ = _ => destruct c eqn:?
  | (match ?c with NilChan => _ | MkChan _ _ => _ end) _ = _ =>
      destruct c as [|? [|]] eqn:?
  | (match ?c with Some _ => _ | None => _ end) _ = _ => destruct c eqn:?
  | ret _ _ = _ => rewrite run_ret in H
  | read _ _ = _ => rewrite run_read in H
  | assign _ _ = _ => rewrite run_assign in H
  | print _ _ = _ => rewrite run_print in H
  | panic _ _ = _ => rewrite run_panic in H
  | block _ = _ => rewrite run_block in H
  end;
  cbv beta zeta in H; state_in H.

(** Run the method in [H] along every path. *)
Ltac cases_in H :=
  unfold_prims_in H; cbv beta zeta in H;
  repeat (step_in H);
  try discriminate H.

(** Comparisons of the code, as propositions for [lia]. *)
Ltac to_props :=
  repeat match goal with
         | H : (_ =? _) = true |- _ => apply Z.eqb_eq in H
         | H : (_ =? _) = false |- _ => apply Z.eqb_neq in H
         | H : (_ <=? _) = true |- _ => apply Z.leb_le in H
         | H : (_ <=? _) = false |- _ => apply Z.leb_gt in H
         | H : (_ <? _) = true |- _ => apply Z.ltb_lt in H
         | H : (_ <? _) = false |- _ => apply Z.ltb_ge in H
         | H : (_ >? _) = true |- _ => rewrite Z.gtb_ltb in H
         | H : (_ >? _) = false |- _ => rewrite Z.gtb_ltb in H
         | H : (_ >=? _) = true |- _ => rewrite Z.geb_leb in H
         | H : (_ >=? _) = false |- _ => rewrite Z.geb_leb in H
         end.

(** ** Commands that do not write the bar *)

Create HintDb keeps.

Lemma keepsBar_ret {A : Type} (a : A) : keepsBar (ret a).
Proof. intros w b w' H. injection H as _ <-. reflexivity. Qed.

Lemma keepsBar_read {A : Type} (f : ProgressBar -> A) : keepsBar (read f).
Proof. intros w b w' H. injection H as _ <-. reflexivity. Qed.

Lemma keepsBar_print (s : string) : keepsBar (print s).
Proof. intros w b w' H. inversion H. reflexivity. Qed.

Lemma keepsBar_panic {A : Type} (msg : string) : keepsBar (@panic A msg).
Proof. intros w b w' H. discriminate H. Qed.

Lemma keepsBar_if {A : Type} (b : bool) (x y : M A) :
  keepsBar x -> keepsBar y -> keepsBar (if b then x else y).
Proof. destruct b; auto. Qed.

Lemma keepsBar_bind {A B : Type} (c : M A) (k : A -> M B) :
  keepsBar c -> (forall a, keepsBar (k a)) -> keepsBar (bind c k).
Proof.
  intros Hc Hk w b w' H. unfold bind in H.
  destruct (c w) as [a w1| |] eqn:E; try discriminate H.
  rewrite (Hk a w1 b w' H). exact (Hc w a w1 E).
Qed.

#[local] Hint Resolve keepsBar_ret keepsBar_read keepsBar_print keepsBar_panic
  keepsBar_if keepsBar_bind : keeps.

(** ** What one call does to the bar *)

Section Calls.
Context {lib : GoLib} {colors : Palette}.

Lemma sameSetup_refl (pb : ProgressBar) : sameSetup pb pb.
Proof. unfold sameSetup. repeat split. Qed.

Lemma sameSetup_trans (a b c : ProgressBar) :
  sameSetup a b -> sameSetup b c -> sameSetup a c.
Proof.
  unfold sameSetup.
  intros (A1 & A2 & A3 & A4 & A5 & A6 & A7 & A8 & A9 & A10 & A11)
         (B1 & B2 & B3 & B4 & B5 & B6 & B7 & B8 & B9 & B10 & B11).
  repeat split; congruence.
Qed.

Lemma UpdateBar_effect (now : Z) (w w' : World) :
  UpdateBar now w = Returned tt w' ->
  sameSetup (bar w) (bar w') /\ stdout w' = stdout w /\
  complete (bar w') = complete (bar w) /\ endTime (bar w') = endTime (bar w) /\
  mu (bar w') = mu (bar w) /\
  currentProcess (bar w') = counterAfterUpdateBar (bar w) /\
  sentAtMostOne (printChannel (bar w)) (printChannel (bar w')).
Proof.
  intros H. unfold UpdateBar in H. unfold counterAfterUpdateBar.
  cases_in H; injection H as <-;
    unfold sameSetup, sentAtMostOne; cbn;
    repeat match goal with E : _ = _ |- _ => rewrite E end;
    repeat split; try reflexivity; try (left; reflexivity);
    try (right; eauto).
Qed.

Lemma AddSpecificTimes_effect (now steps : Z) (w w' : World) :
  AddSpecificTimes now steps w = Returned tt w' ->
  sameSetup (bar w) (bar w') /\ stdout w' = stdout w /\
  complete (bar w') = complete (bar w) /\ endTime (bar w') = endTime (bar w) /\
  mu (bar w') = mu (bar w) /\
  currentProcess (bar w') = counterAfterAddSpecificTimes steps (bar w) /\
  sentAtMostOne (printChannel (bar w)) (printChannel (bar w')).
Proof.
  intros H. unfold AddSpecificTimes in H. unfold counterAfterAddSpecificTimes.
  cases_in H; injection H as <-;
    unfold sameSetup, sentAtMostOne; cbn;
    repeat match goal with E : _ = _ |- _ => rewrite E end;
    repeat split; try reflexivity; try (left; reflexivity);
    try (right; eauto).
Qed.
Lemma Complete_effect (now : Z) (w w' : World) :
  Complete now w = Returned tt w' ->
  sameSetup (bar w) (bar w') /\ stdout w' = stdout w /\
  mu (bar w') = mu (bar w) /\
  lastFilledLength (bar w') = lastFilledLength (bar w) /\
  ((complete (bar w) = true /\ w' = w)
   \/ (complete (bar w) = false /\ currentProcess (bar w) <= total (bar w) /\
       complete (bar w') = true /\ currentProcess (bar w') = total (bar w) /\
       (exists l, location (bar w) = Some l /\ endTime (bar w') = In (Now now) l) /\
       exists sent, printChannel (bar w) = MkChan sent false /\
                    printChannel (bar w') = MkChan (sent ++ [finalFrame (bar w)]) true)
   \/ (complete (bar w) = false /\ total (bar w) < currentProcess (bar w) /\
       complete (bar w') = false /\ currentProcess (bar w') = currentProcess (bar w) /\
       endTime (bar w') = endTime (bar w) /\
       exists sent, printChannel (bar w) = MkChan sent false /\
                    printChannel (bar w') = MkChan sent true)).
Proof.
  intros H. unfold Complete in H.
  cases_in H; injection H as <-; to_props;
    (split; [solve [apply sameSetup_refl | unfold sameSetup; cbn; repeat split]|]);
    do 3 (split; [reflexivity|]).
  all: first
    [ left; split; [reflexivity|reflexivity]
    | right; left; cbn; unfold finalFrame;
      repeat split; try reflexivity; try lia; solve [eauto]
    | right; right; cbn;
      repeat split; try reflexivity; try lia; solve [eauto] ].
Qed.

Lemma Complete_done (now : Z) (w : World) :
  complete (bar w) = true -> Complete now w = Returned tt w.
Proof.
  intros Hc. unfold Complete. rewrite bind_read, Hc. reflexivity.
Qed.

Lemma Complete_returns (now : Z) (w : World) (l : Location) :
  complete (bar w) = false ->
  currentProcess (bar w) <= total (bar w) ->
  location (bar w) = Some l ->
  channelOpen (bar w) ->
  exists w', Complete now w = Returned tt w'.
Proof.
  intros Hc Hcur Hloc (sent & Hch).
  destruct (Complete now w) as [[] w'|msg|] eqn:H; [eauto| |];
    exfalso; unfold Complete in H; cases_in H; to_props;
    try congruence; try lia.
Qed.

Lemma UpdateBar_returns (now : Z) (w : World) :
  mu (bar w) = false -> channelOpen (bar w) ->
  exists w', UpdateBar now w = Returned tt w'.
Proof.
  intros Hmu (sent & Hch).
  destruct (UpdateBar now w) as [[] w'|msg|] eqn:H; [eauto| |];
    exfalso; unfold UpdateBar in H; cases_in H; congruence.
Qed.

Lemma AddSpecificTimes_returns (now steps : Z) (w : World) :
  mu (bar w) = false -> channelOpen (bar w) ->
  exists w', AddSpecificTimes now steps w = Returned tt w'.
Proof.
  intros Hmu (sent & Hch).
  destruct (AddSpecificTimes now steps w) as [[] w'|msg|] eqn:H; [eauto| |];
    exfalso; unfold AddSpecificTimes in H; cases_in H; congruence.
Qed.

(** *** The frame of an update *)

Lemma UpdateBar_frame (now : Z) (w w' : World) :
  UpdateBar now w = Returned tt w' ->
  frames w' = frames w
  \/ (currentProcess (bar w) < total (bar w)
      /\ exists progress,
           progress = F64.div (F64.ofZ (Int.wrap32 (currentProcess (bar w) + 1)))
                              (F64.ofZ (total (bar w)))
           /\ frames w'
              = (frames w
                   ++ [{| filledLength :=
                            F64.toInt (F64.mul progress (F64.ofZ (barLength (bar w))));
                          percentage := percentOf progress |}])%list
           /\ lastFilledLength (bar w')
              = F64.toInt (F64.mul progress (F64.ofZ (barLength (bar w))))).
Proof.
  intros H. unfold UpdateBar in H.
  cases_in H; injection H as <-; unfold frames; cbn [bar];
    try (left; reflexivity).
  all: right; to_props; split; [lia|]; eexists; split; [reflexivity|];
    state;
    match goal with E : printChannel _ = _ |- _ => rewrite E end;
    split; reflexivity.
Qed.

Lemma AddSpecificTimes_frame (now steps : Z) (w w' : World) :
  AddSpecificTimes now steps w = Returned tt w' ->
  frames w' = frames w
  \/ (currentProcess (bar w) < total (bar w)
      /\ exists progress,
           progress = F64.ofZ (Int.wrap32 (currentProcess (bar w) + steps)
                               / total (bar w))
           /\ frames w'
              = (frames w
                   ++ [{| filledLength :=
                            F64.toInt (F64.mul progress (F64.ofZ (barLength (bar w))));
                          percentage := percentOf progress |}])%list
           /\ lastFilledLength (bar w')
              = F64.toInt (F64.mul progress (F64.ofZ (barLength (bar w))))).
Proof.
  intros H. unfold AddSpecificTimes in H.
  cases_in H; injection H as <-; unfold frames; cbn [bar];
    try (left; reflexivity).
  all: right; to_props; split; [lia|]; eexists; split; [reflexivity|];
    state;
    match goal with E : printChannel _ = _ |- _ => rewrite E end;
    split; reflexivity.
Qed.

(** *** Report *)

Lemma Report_keepsBar (valueWidth : Z) : keepsBar (Report valueWidth).
Proof.
  unfold Report, Repeat, println. cbv zeta. auto 40 with keeps.
Qed.

Lemma Report_incomplete (valueWidth : Z) (w : World) :
  complete (bar w) = false ->
  Report valueWidth w = Returned (Some "progress is not yet complete") w.
Proof.
  intros Hc. unfold Report. rewrite bind_read, Hc. reflexivity.
Qed.

Lemma Report_complete (valueWidth : Z) (w : World) :
  complete (bar w) = true ->
  valueWidth + 27 <= Int.maxInt ->
  let width := if valueWidth <? 32 then 32 else valueWidth in
  exists lines,
    Report valueWidth w
    = Returned None {| bar := bar w; stdout := stdout w ++ lines |}
    /\ List.length lines = 12%nat
    /\ nth_error lines 8
       = Some (tableRow DarkYellow 20 "Elapsed Time"
                 (padString width
                    (DurationString (Sub (endTime (bar w)) (startTime (bar w))))))
    /\ nth_error lines 9
       = Some (tableRow DarkYellow 20 "Total Tasks" (padUint width (total (bar w))))
    /\ nth_error lines 10
       = Some (tableRow DarkYellow 20 "Completed Tasks"
                 (padUint width (currentProcess (bar w)))).
Proof.
  intros Hc Hw width. unfold Report.
  rewrite bind_read, Hc. cbn [negb].
  rewrite bind_read. cbv beta zeta. fold width.
  assert (Hwidth : 32 <= width <= Int.maxInt - 27).
  { subst width. unfold Int.maxInt in *. destruct (Z.ltb_spec valueWidth 32); lia. }
  change (Z.of_nat (String.length "Progress Bar Report")) with 19.
  rewrite (wrap64_id (20 + width + 7))
    by (unfold Int.isInt, Int.minInt, Int.maxInt in *; lia).
  rewrite (wrap64_id (20 + width + 7 - 19))
    by (unfold Int.isInt, Int.minInt, Int.maxInt in *; lia).
  assert (Hq : 20 <= Z.quot (20 + width + 7 - 19) 2 <= Int.maxInt).
  { unfold Int.maxInt in *. split.
    - apply Z.quot_le_lower_bound; lia.
    - apply Z.quot_le_upper_bound; lia. }
  rewrite (wrap64_id (Z.quot (20 + width + 7 - 19) 2 - 1))
    by (unfold Int.isInt, Int.minInt, Int.maxInt in *; lia).
  unfold Repeat, println.
  replace (20 + width + 7 <? 0) with false by (symmetry; apply Z.ltb_ge; lia).
  replace (Z.quot (20 + width + 7 - 19) 2 <? 0) with false
    by (symmetry; apply Z.ltb_ge; lia).
  replace (Z.quot (20 + width + 7 - 19) 2 - 1 <? 0) with false
    by (symmetry; apply Z.ltb_ge; lia).
  eexists. split.
  - cbv [bind print ret read bar stdout].
    rewrite <- !app_assoc. cbn [app]. reflexivity.
  - repeat split.
Qed.

(** *** Sequences of calls *)

Lemma run_cons (c : Call) (rest : list Call) (w w' : World) :
  run (c :: rest) w = Returned tt w' ->
  exists w1, exec c w = Returned tt w1 /\ run rest w1 = Returned tt w'.
Proof.
  cbn [run]. unfold bind.
  destruct (exec c w) as [[] w1| |]; try discriminate. eauto.
Qed.

Lemma run_cons_returned (c : Call) (rest : list Call) (w w1 : World) :
  exec c w = Returned tt w1 -> run (c :: rest) w = run rest w1.
Proof. intros H. cbn [run]. unfold bind. rewrite H. reflexivity. Qed.

Lemma sentAtMostOne_open (pb pb' : ProgressBar) :
  sentAtMostOne (printChannel pb) (printChannel pb') ->
  channelOpen pb -> channelOpen pb'.
Proof.
  unfold channelOpen. intros [H|(sent & msg & _ & H)] (sent0 & H0); rewrite H; eauto.
Qed.

Lemma exec_atCeiling (c : Call) (w w' : World) :
  exec c w = Returned tt w' -> atCeiling w -> atCeiling w'.
Proof.
  unfold atCeiling. intros H Hinv Hdone. destruct c as [now|now steps|now|vw]; cbn [exec] in H.
  - apply UpdateBar_effect in H as ((_ & Ht & _) & _ & Hc & _ & _ & Hcur & _).
    rewrite Hcur, Ht. unfold counterAfterUpdateBar.
    rewrite Hc in Hdone. rewrite (Hinv Hdone), Z.eqb_refl. reflexivity.
  - apply AddSpecificTimes_effect in H as ((_ & Ht & _) & _ & Hc & _ & _ & Hcur & _).
    rewrite Hcur, Ht. unfold counterAfterAddSpecificTimes.
    rewrite Hc in Hdone. rewrite (Hinv Hdone).
    replace (total (bar w) >=? total (bar w)) with true; [reflexivity|].
    symmetry. rewrite Z.geb_leb. apply Z.leb_refl.
  - apply Complete_effect in H as ((_ & Ht & _) & _ & _ & _ & Hcase).
    destruct Hcase as [(Hc & ->)|[(_ & _ & _ & Hcur & _)|(_ & _ & Hc & _)]].
    + auto.
    + congruence.
    + congruence.
  - unfold bind in H. destruct (Report vw w) as [e w1| |] eqn:E; try discriminate.
    injection H as <-. apply Report_keepsBar in E. rewrite E in *. auto.
Qed.

Lemma run_atCeiling (calls : list Call) (w w' : World) :
  run calls w = Returned tt w' -> atCeiling w -> atCeiling w'.
Proof.
  revert w. induction calls as [|c rest IH]; intros w H Hinv.
  - injection H as <-. exact Hinv.
  - apply run_cons in H as (w1 & H1 & H2).
    eapply IH; [exact H2|]. eapply exec_atCeiling; eassumption.
Qed.

(** The bar that NewProgressBar hands out. *)
Lemma NewProgressBar_fresh (now : Z) (title : string) (units width : Z)
    (options : list OptionCall) (pb : ProgressBar) :
  NewProgressBar now title units width (map optionOf options) = (Some pb, None) ->
  complete pb = false /\ currentProcess pb = 0 /\ mu pb = false /\
  total pb = units /\ printChannel pb = MkChan [] false /\
  exists loc, location pb = Some loc.
Proof.
  intros H.
  pose proof (NewProgressBar_cases now title units width (map optionOf options)) as Hc.
  cbv zeta in Hc. destruct (LoadLocation _) as [loc|err]; [|congruence].
  destruct Hc as (pb0 & Hpb0 & _ & Hun & Hloc & _ & Hch).
  assert (pb0 = pb) by congruence. subst pb0.
  destruct (applyOptions_untouched options (defaultBar title units width))
    as (Hu & _).
  unfold untouchedByOptions in *.
  destruct Hun as (H1 & H2 & H3 & H4 & H5 & H6 & H7 & H8 & H9).
  destruct Hu as (G1 & G2 & G3 & G4 & G5 & G6 & G7 & G8 & G9).
  cbn in G2, G4, G6, G9.
  repeat split; try congruence; eauto.
Qed.

Lemma Reachable_atCeiling (w : World) : Reachable w -> atCeiling w.
Proof.
  intros (now & name & total & barLength & options & pb & calls & Hnew & Hrun).
  eapply run_atCeiling; [exact Hrun|].
  apply NewProgressBar_fresh in Hnew as (Hc & _).
  unfold atCeiling, start. cbn. congruence.
Qed.

(** Any number of UpdateBar calls on an unlocked bar with an open channel:
    they all return and the counter stops at [total]. *)
Lemma run_UpdateBar_many (nows : list Z) (w : World) :
  mu (bar w) = false -> channelOpen (bar w) ->
  0 <= currentProcess (bar w) <= total (bar w) ->
  total (bar w) <= Int.maxUint32 ->
  exists w',
    run (map CallUpdateBar nows) w = Returned tt w'
    /\ sameSetup (bar w) (bar w') /\ stdout w' = stdout w
    /\ complete (bar w') = complete (bar w)
    /\ mu (bar w') = false /\ channelOpen (bar w')
    /\ currentProcess (bar w')
       = Z.min (total (bar w)) (currentProcess (bar w) + Z.of_nat (List.length nows)).
Proof.
  revert w. induction nows as [|now nows IH]; intros w Hmu Hch Hcur Htot.
  - exists w. cbn [map run List.length]. repeat split; auto using sameSetup_refl.
    cbn. lia.
  - destruct (UpdateBar_returns now w Hmu Hch) as (w1 & H1).
    pose proof (UpdateBar_effect now w w1 H1)
      as (Hset & Hout & Hc & _ & Hmu1 & Hcur1 & Hsent).
    assert (Ht1 : total (bar w1) = total (bar w)) by apply Hset.
    assert (Hstep : currentProcess (bar w1)
                    = Z.min (total (bar w)) (currentProcess (bar w) + 1)).
    { rewrite Hcur1. unfold counterAfterUpdateBar.
      destruct (Z.eqb_spec (currentProcess (bar w)) (total (bar w))); [lia|].
      destruct (Z.gtb_spec (currentProcess (bar w)) (total (bar w))); [lia|].
      rewrite wrap32_id by (unfold Int.isUint32; lia). lia. }
    destruct (IH w1) as (w' & Hrun & Hset' & Hout' & Hc' & Hmu' & Hch' & Hcur').
    + congruence.
    + eapply sentAtMostOne_open; eassumption.
    + rewrite Ht1, Hstep. lia.
    + rewrite Ht1. exact Htot.
    + exists w'. cbn [map].
      rewrite (run_cons_returned (CallUpdateBar now) _ w w1 H1).
      split; [exact Hrun|]. split; [eapply sameSetup_trans; eassumption|].
      repeat split; try congruence.
      rewrite Hcur', Ht1, Hstep. cbn [List.length]. lia.
Qed.
End Calls.

(** ** The counter at and beyond the ceiling *)

Section Ceiling.

(** UpdateBar and AddSpecificTimes(1) move the counter alike. *)
Lemma counter_UpdateBar_AddSpecificTimes_1 (pb : ProgressBar) :
  counterAfterUpdateBar pb = counterAfterAddSpecificTimes 1 pb.
Proof.
  unfold counterAfterUpdateBar, counterAfterAddSpecificTimes.
  destruct (Z.eqb_spec (currentProcess pb) (total pb)) as [E|E].
  - rewrite E. replace (total pb >=? total pb) with true; [reflexivity|].
    symmetry. rewrite Z.geb_leb. apply Z.leb_refl.
  - destruct (Z.gtb_spec (currentProcess pb) (total pb)) as [G|G];
      destruct (Z.geb_spec (currentProcess pb) (total pb)) as [G'|G'];
      try reflexivity; lia.
Qed.

(** Once the counter is at [total], AddSpecificTimes changes nothing. *)
Lemma AddSpecificTimes_at_ceiling (now steps : Z) (w : World) :
  currentProcess (bar w) = total (bar w) ->
  AddSpecificTimes now steps w = Returned tt w.
Proof.
  intros E. unfold AddSpecificTimes, LoadUint32, StoreUint32.
  rewrite !bind_read, E.
  replace (total (bar w) >=? total (bar w)) with true
    by (symmetry; rewrite Z.geb_leb; apply Z.leb_refl).
  rewrite run_assign. destruct w as [pb out]. destruct pb. cbn in *.
  subst. reflexivity.
Qed.

(** A counter beyond [total] is cut back by the next update call, not by
    the call that took it there. *)
Lemma AddSpecificTimes_beyond_ceiling (now steps : Z) (w : World) :
  total (bar w) < currentProcess (bar w) ->
  exists w', AddSpecificTimes now steps w = Returned tt w'
             /\ currentProcess (bar w') = total (bar w).
Proof.
  intros G. unfold AddSpecificTimes, LoadUint32, StoreUint32.
  rewrite !bind_read.
  replace (currentProcess (bar w) >=? total (bar w)) with true
    by (symmetry; rewrite Z.geb_leb; apply Z.leb_le; lia).
  rewrite run_assign. eexists. split; reflexivity.
Qed.

(** The first call of Complete on a bar whose counter is within [total]
    sends the one 100 % frame, sets endTime and closes the channel; a
    second call changes nothing. *)
Lemma Complete_twice_within_total (first second : Z) (w : World) (l : Location) :
  complete (bar w) = false ->
  currentProcess (bar w) <= total (bar w) ->
  location (bar w) = Some l ->
  channelOpen (bar w) ->
  exists w1,
    Complete first w = Returned tt w1
    /\ Complete second w1 = Returned tt w1
    /\ frames w1 = (frames w ++ [finalFrame (bar w)])%list
    /\ endTime (bar w1) = In (Now first) l.
Proof.
  intros Hc Hcur Hloc Hch.
  destruct (Complete_returns first w l Hc Hcur Hloc Hch) as (w1 & H1).
  pose proof (Complete_effect first w w1 H1) as (_ & _ & _ & _ & Hcase).
  exists w1. split; [exact H1|].
  destruct Hcase as [(Hx & _)|[(_ & _ & Hdone & _ & (l' & Hl' & Hend) & (sent & Hs & Hs'))
                              |(_ & Hx & _)]].
  - congruence.
  - split; [apply Complete_done; exact Hdone|].
    unfold frames. rewrite Hs, Hs'. split; [reflexivity|]. congruence.
  - lia.
Qed.
End Ceiling.

(** ** The two ways to compute the progress *)

Section Progress.

Lemma percentOf_zero : percentOf F64.zero = F64.zero.
Proof. reflexivity. Qed.

Lemma percentOf_positive (m : positive) (e : Z) :
  Zpos (digits2_pos m) = 53 -> -34 <= 53 + e <= 34 ->
  exists m' e', percentOf (S754_finite false m e) = S754_finite false m' e'.
Proof.
  intros Hd He. unfold percentOf, F64.mul, F64.prec, F64.emax.
  rewrite hundred_eq.
  destruct (SFmul_normal false false m 7036874417766400 e (-46) Hd eq_refl)
    as (m' & e' & H & _); [lia|].
  rewrite H. cbn [xorb].
  destruct (F64.gt _ _); eauto.
Qed.

(** C6. Where AddSpecificTimes computes the progress, with the counter
    strictly between 0 and [total], the division of the two uint32 gives
    0, and so the progress, the fill and the percentage are all 0; a frame
    that the call sends is (0, 0 %). UpdateBar divides the two float64
    instead: in the same state its percentage is a positive number, and
    so is the percentage of every frame that UpdateBar sends. *)
Theorem AddSpecificTimes_truncates_progress :
  (forall pb : ProgressBar,
      0 < currentProcess pb < total pb ->
      Int.isInt (barLength pb) ->
      progressOfAddSpecificTimes pb = F64.zero
      /\ fillOf (progressOfAddSpecificTimes pb) pb = 0
      /\ percentOf (progressOfAddSpecificTimes pb) = F64.zero)
  /\
  (forall (now steps : Z) (w w' : World),
      0 < Int.wrap32 (currentProcess (bar w) + steps) < total (bar w) ->
      Int.isInt (barLength (bar w)) ->
      AddSpecificTimes now steps w = Returned tt w' ->
      frames w' = frames w
      \/ frames w'
         = (frames w ++ [{| filledLength := 0; percentage := F64.zero |}])%list)
  /\
  (forall pb : ProgressBar,
      0 < currentProcess pb < total pb ->
      total pb <= Int.maxUint32 ->
      progressOfUpdateBar pb
      = F64.div (F64.ofZ (currentProcess pb)) (F64.ofZ (total pb))
      /\ exists m e,
           percentOf (progressOfUpdateBar pb) = S754_finite false m e)
  /\
  (forall (now : Z) (w w' : World),
      0 <= currentProcess (bar w) ->
      total (bar w) <= Int.maxUint32 ->
      UpdateBar now w = Returned tt w' ->
      frames w' = frames w
      \/ exists fill m e,
           frames w'
           = (frames w ++ [{| filledLength := fill;
                              percentage := S754_finite false m e |}])%list).
Proof.
  split; [|split; [|split]].
  - intros pb Hcur Hlen.
    assert (E : progressOfAddSpecificTimes pb = F64.zero).
    { unfold progressOfAddSpecificTimes. rewrite Z.div_small by lia. reflexivity. }
    rewrite E. split; [reflexivity|]. split; [|apply percentOf_zero].
    unfold fillOf. apply toInt_zero_times.
    unfold Int.isInt, Int.minInt, Int.maxInt in Hlen.
    assert (2 ^ 63 < 2 ^ 64) by reflexivity. lia.
  - intros now steps w w' Hcur Hlen H.
    apply AddSpecificTimes_frame in H as [H|(_ & progress & Ep & Hf & _)];
      [left; exact H|right].
    rewrite Z.div_small in Ep by lia. change (F64.ofZ 0) with F64.zero in Ep.
    subst progress. rewrite Hf, percentOf_zero, toInt_zero_times; [reflexivity|].
    unfold Int.isInt, Int.minInt, Int.maxInt in Hlen.
    assert (2 ^ 63 < 2 ^ 64) by reflexivity. lia.
  - intros pb Hcur Htot. split; [reflexivity|].
    unfold progressOfUpdateBar.
    destruct (div_uint32_positive (currentProcess pb) (total pb)) as (m & e & E & Hd & He);
      [lia|exact Htot|].
    rewrite E. apply percentOf_positive; assumption.
  - intros now w w' Hcur Htot H.
    apply UpdateBar_frame in H as [H|(Hlt & progress & Ep & Hf & _)];
      [left; exact H|right].
    rewrite wrap32_id in Ep by (unfold Int.isUint32; lia).
    destruct (div_uint32_positive (currentProcess (bar w) + 1) (total (bar w)))
      as (m & e & E & Hd & He); [lia|exact Htot|].
    rewrite E in Ep. subst progress.
    destruct (percentOf_positive m e Hd He) as (m' & e' & Hp).
    rewrite Hp in Hf. eauto.
Qed.
End Progress.

(** ** Completion and the report *)

Section Reporting.
Context {lib : GoLib} {colors : Palette}.

(** C7. Report on a bar whose complete flag is false returns the error
    "progress is not yet complete" and leaves standard output (and the
    bar) as they were. On a completed bar that a program can reach, and
    for a value width whose table width fits an int, it returns nil and
    prints the twelve lines of the table; the "Completed Tasks" row shows
    [total] and the "Elapsed Time" row shows endTime.Sub(startTime). *)
Theorem Report_needs_completion :
  (forall (valueWidth : Z) (w : World),
      complete (bar w) = false ->
      Report valueWidth w = Returned (Some "progress is not yet complete") w)
  /\
  (forall (valueWidth : Z) (w : World),
      Reachable w ->
      complete (bar w) = true ->
      valueWidth + 27 <= Int.maxInt ->
      let width := if valueWidth <? 32 then 32 else valueWidth in
      exists lines,
        Report valueWidth w
        = Returned None {| bar := bar w; stdout := stdout w ++ lines |}
        /\ List.length lines = 12%nat
        /\ nth_error lines 10
           = Some (tableRow DarkYellow 20 "Completed Tasks"
                     (padUint width (total (bar w))))
        /\ nth_error lines 8
           = Some (tableRow DarkYellow 20 "Elapsed Time"
                     (padString width
                        (DurationString
                           (Sub (endTime (bar w)) (startTime (bar w))))))).
Proof.
  split.
  - intros valueWidth w Hc. apply Report_incomplete. exact Hc.
  - intros valueWidth w Hreach Hc Hw width.
    destruct (Report_complete valueWidth w Hc Hw)
      as (lines & Hrun & Hlen & Helapsed & _ & Hdone).
    exists lines. repeat split; try assumption.
    rewrite <- (Reachable_atCeiling w Hreach Hc). exact Hdone.
Qed.

(** C9. Report writes no field of the bar: whenever it returns, the bar
    is the one it was called on, and it does return (with or without
    error) for every value width whose table width fits an int. *)
Theorem Report_leaves_bar_unchanged (valueWidth : Z) (w : World) :
  (forall err w', Report valueWidth w = Returned err w' -> bar w' = bar w)
  /\
  (valueWidth + 27 <= Int.maxInt ->
   exists err w', Report valueWidth w = Returned err w' /\ bar w' = bar w).
Proof.
  split.
  - intros err w' H. exact (Report_keepsBar valueWidth w err w' H).
  - intros Hw. destruct (complete (bar w)) eqn:Hc.
    + destruct (Report_complete valueWidth w Hc Hw) as (lines & Hrun & _).
      eexists; eexists. split; [exact Hrun|reflexivity].
    + eexists; eexists. split; [apply Report_incomplete; exact Hc|reflexivity].
Qed.

(** C3 (amended). After NewProgressBar("index", 100, 40) and 100 calls of
    UpdateBar, at any clock readings, the counter is 100 and the complete
    flag is still false, so Report returns the error "progress is not yet
    complete". Only a call of Complete sets the flag, after which Report
    returns nil. *)
Theorem UpdateBar_alone_does_not_complete (now : Z) (nows : list Z)
    (loc : Location) :
  LoadLocation "Asia/Shanghai" = Success loc ->
  List.length nows = 100%nat ->
  exists pb w,
    NewProgressBar now "index" 100 40 [] = (Some pb, None)
    /\ run (map CallUpdateBar nows) (start pb) = Returned tt w
    /\ currentProcess (bar w) = 100
    /\ complete (bar w) = false
    /\ (forall valueWidth,
           Report valueWidth w
           = Returned (Some "progress is not yet complete") w)
    /\ (forall later valueWidth,
           valueWidth + 27 <= Int.maxInt ->
           exists w1 w2,
             Complete later w = Returned tt w1
             /\ complete (bar w1) = true
             /\ Report valueWidth w1 = Returned None w2).
Proof.
  intros Hzone Hlen.
  pose proof (NewProgressBar_cases now "index" 100 40 []) as Hnew.
  cbv zeta in Hnew. cbn [applyOptions fold_left defaultBar timezone] in Hnew.
  rewrite Hzone in Hnew.
  destruct Hnew as (pb & Hpb & _ & Hun & Hloc & _ & Hch).
  unfold untouchedByOptions in Hun. cbn in Hun.
  destruct Hun as (_ & Htot & _ & Hcur & _ & Hc & _ & _ & Hmu).
  destruct (run_UpdateBar_many nows (start pb))
    as (w & Hrun & Hset & Hout & Hc' & Hmu' & Hch' & Hcur').
  { exact Hmu. }
  { exists []. exact Hch. }
  { cbn [start bar]. rewrite Hcur, Htot. lia. }
  { cbn [start bar]. rewrite Htot. unfold Int.maxUint32. lia. }
  cbn [start bar] in Hc', Hcur'. rewrite Hcur, Htot, Hlen in Hcur'.
  assert (Ht : total (bar w) = 100).
  { destruct Hset as (_ & Ht & _). cbn [start bar] in Ht. congruence. }
  assert (Hcw : complete (bar w) = false) by congruence.
  exists pb, w. split; [exact Hpb|]. split; [exact Hrun|].
  split; [rewrite Hcur'; reflexivity|].
  split; [exact Hcw|]. split.
  - intros valueWidth. apply Report_incomplete. exact Hcw.
  - intros later valueWidth Hw.
    assert (Hlocw : location (bar w) = Some loc).
    { destruct Hset as (_ & _ & _ & _ & _ & Hl & _). cbn [start bar] in Hl.
      congruence. }
    destruct (Complete_returns later w loc Hcw) as (w1 & H1); try assumption.
    { rewrite Hcur', Ht. cbn. lia. }
    pose proof (Complete_effect later w w1 H1) as (_ & _ & _ & _ & Hcase).
    assert (Hdone : complete (bar w1) = true).
    { destruct Hcase as [(Hx & _)|[(_ & _ & Hx & _)|(_ & Hx & _)]].
      - congruence.
      - exact Hx.
      - rewrite Hcur', Ht in Hx. cbn in Hx. lia. }
    destruct (Report_complete valueWidth w1 Hdone Hw) as (lines & Hrep & _).
    eauto.
Qed.
End Reporting.

(** ** The methods on concrete bars *)

(** Report on the sample bar of ten units: after three of them it refuses,
    after Complete it prints the table with 10 completed tasks and the five
    milliseconds that passed. *)
Lemma Report_needs_completion_witness :
  (complete (bar sampleWorking) = false
   /\ @Report sampleLib samplePalette 40 sampleWorking
      = Returned (Some "progress is not yet complete") sampleWorking)
  /\
  (complete (bar sampleDone) = true
   /\ exists lines,
        @Report sampleLib samplePalette 40 sampleDone
        = Returned None {| bar := bar sampleDone; stdout := stdout sampleDone ++ lines |}
        /\ List.length lines = 12%nat
        /\ nth_error lines 10
           = Some (@tableRow sampleLib samplePalette (@DarkYellow samplePalette) 20
                     "Completed Tasks" (@padUint sampleLib 40 10))
        /\ nth_error lines 8
           = Some (@tableRow sampleLib samplePalette (@DarkYellow samplePalette) 20
                     "Elapsed Time"
                     (@padString sampleLib 40 (@DurationString sampleLib 5000000)))).
Proof.
  split.
  - split; [reflexivity|].
    exact (proj1 (@Report_needs_completion sampleLib samplePalette)
             40 sampleWorking eq_refl).
  - split; [reflexivity|].
    assert (Hreach : @Reachable sampleLib samplePalette sampleDone).
    { exists 0, "idx", 10, 10, [].
      eexists. exists [CallAddSpecificTimes 1000 3; CallComplete 5000000].
      split; reflexivity. }
    assert (Hw : 40 + 27 <= Int.maxInt) by (unfold Int.maxInt; lia).
    exact (proj2 (@Report_needs_completion sampleLib samplePalette)
             40 sampleDone Hreach eq_refl Hw).
Defined.

(** Report on the completed sample bar returns and leaves the bar alone. *)
Lemma Report_leaves_bar_unchanged_witness :
  40 + 27 <= Int.maxInt
  /\ exists err w',
       @Report sampleLib samplePalette 40 sampleDone = Returned err w'
       /\ bar w' = bar sampleDone.
Proof.
  assert (Hw : 40 + 27 <= Int.maxInt) by (unfold Int.maxInt; lia).
  split; [exact Hw|].
  exact (proj2 (@Report_leaves_bar_unchanged sampleLib samplePalette 40 sampleDone) Hw).
Defined.

(** A hundred calls of UpdateBar on the sample platform, one every 20 ms. *)
Lemma UpdateBar_alone_does_not_complete_witness :
  @LoadLocation sampleLib "Asia/Shanghai" = Success (MkLocation "Asia/Shanghai")
  /\ List.length (every20ms 100) = 100%nat
  /\ exists pb w,
       @NewProgressBar sampleLib samplePalette 0 "index" 100 40 [] = (Some pb, None)
       /\ @run sampleLib samplePalette (map CallUpdateBar (every20ms 100)) (start pb)
          = Returned tt w
       /\ currentProcess (bar w) = 100
       /\ complete (bar w) = false.
Proof.
  split; [reflexivity|]. split; [reflexivity|].
  destruct (@UpdateBar_alone_does_not_complete sampleLib samplePalette 0
              (every20ms 100) (MkLocation "Asia/Shanghai") eq_refl eq_refl)
    as (pb & w & Hnew & Hrun & Hcur & Hc & _).
  exists pb, w. auto.
Defined.

(** C3 (as stated) fails: a hundred calls of UpdateBar, one every 20 ms,
    take the counter of a bar of a hundred units to 100, and the complete
    flag is still false and Report returns its error. *)
Lemma automatic_completion_counterexample :
  sampleRun (sampleBar 0 "index" 100 40 []) (map CallUpdateBar (every20ms 100))
  = Returned tt sampleHundred
  /\ currentProcess (bar sampleHundred) = 100
  /\ complete (bar sampleHundred) = false
  /\ @Report sampleLib samplePalette 40 sampleHundred
     = Returned (Some "progress is not yet complete") sampleHundred.
Proof. repeat split; vm_compute; reflexivity. Qed.

(** C1 (the code falls short). A bar of three units takes one
    AddSpecificTimes(5): the call returns with the counter at 5, above
    [total]. No call has cut it back to 3. *)
Lemma AddSpecificTimes_overshoots :
  sampleRun (sampleBar 0 "x" 3 10 []) [CallAddSpecificTimes 1000 5]
  = Returned tt sampleOvershoot
  /\ currentProcess (bar sampleOvershoot) = 5
  /\ total (bar sampleOvershoot) = 3.
Proof. repeat split; vm_compute; reflexivity. Qed.

(** C2 (the code falls short). On the bar above, whose counter is beyond
    [total], the first Complete sends no frame, sets neither endTime nor the
    complete flag, and closes the channel; the second Complete closes it
    again and panics. *)
Lemma Complete_twice_panics_beyond_total :
  (exists w,
      @run sampleLib samplePalette [CallComplete 2000] sampleOvershoot = Returned tt w
      /\ frames w = []
      /\ complete (bar w) = false
      /\ endTime (bar w) = zeroTime
      /\ printChannel (bar w) = MkChan [] true)
  /\ @run sampleLib samplePalette [CallComplete 2000; CallComplete 3000] sampleOvershoot
     = Panicked "close of closed channel".
Proof.
  split.
  - eexists. split; [vm_compute; reflexivity|]. repeat split.
  - vm_compute. reflexivity.
Qed.

(** C4 (the code falls short). The same bar, counter 4 of 10, ten columns,
    timer due: UpdateBar sends the frame (5, 50 %) and records the fill 5;
    AddSpecificTimes(1) sends nothing and leaves the recorded fill at 0.
    Both take the counter to 5. *)
Lemma UpdateBar_differs_from_AddSpecificTimes_1 :
  (exists w,
      UpdateBar (2 * Millisecond) sampleFour = Returned tt w
      /\ currentProcess (bar w) = 5
      /\ frames w = [{| filledLength := 5; percentage := F64.ofZ 50 |}]
      /\ lastFilledLength (bar w) = 5)
  /\
  (exists w,
      AddSpecificTimes (2 * Millisecond) 1 sampleFour = Returned tt w
      /\ currentProcess (bar w) = 5
      /\ frames w = []
      /\ lastFilledLength (bar w) = 0).
Proof.
  split; eexists; (split; [vm_compute; reflexivity|]); repeat split.
Qed.

(** C5 (the code falls short). Two runs of updates followed by Complete.
    In the first, UpdateBar and AddSpecificTimes alternate and the fills of
    the frames sent are 5, 0, 10: they go down. In the second, one update
    beyond [total] sends a frame of 20 columns on a bar of 10, Complete adds
    no frame, and so the last frame is not (barLength, 100 %). *)
Lemma frames_counterexamples :
  (exists w,
      sampleRun (Some (bar sampleFour))
        [CallUpdateBar (2 * Millisecond);
         CallAddSpecificTimes (4 * Millisecond) 1;
         CallComplete (5 * Millisecond)] = Returned tt w
      /\ frames w = [{| filledLength := 5; percentage := F64.ofZ 50 |};
                     {| filledLength := 0; percentage := F64.zero |};
                     {| filledLength := 10; percentage := F64.hundred |}]
      /\ complete (bar w) = true)
  /\
  (exists w,
      sampleRun (sampleBar 0 "x" 3 10 [WithTimeControl 1])
        [CallAddSpecificTimes (2 * Millisecond) 6;
         CallComplete (5 * Millisecond)] = Returned tt w
      /\ frames w = [{| filledLength := 20; percentage := F64.hundred |}]
      /\ barLength (bar w) = 10
      /\ complete (bar w) = false).
Proof.
  split; eexists; (split; [vm_compute; reflexivity|]); repeat split.
Qed.

(** The two computations on the sample bar with counter 3 of 10. *)
Lemma AddSpecificTimes_truncates_progress_witness :
  (0 < currentProcess (bar sampleWorking) < total (bar sampleWorking)
   /\ Int.isInt (barLength (bar sampleWorking))
   /\ percentOf (progressOfAddSpecificTimes (bar sampleWorking)) = F64.zero)
  /\ (total (bar sampleWorking) <= Int.maxUint32
      /\ exists m e,
           percentOf (progressOfUpdateBar (bar sampleWorking)) = S754_finite false m e).
Proof.
  assert (Hcur : 0 < currentProcess (bar sampleWorking) < total (bar sampleWorking))
    by (cbn; lia).
  assert (Hlen : Int.isInt (barLength (bar sampleWorking)))
    by (unfold Int.isInt, Int.minInt, Int.maxInt; cbn; lia).
  assert (Htot : total (bar sampleWorking) <= Int.maxUint32)
    by (unfold Int.maxUint32; cbn; lia).
  split.
  - split; [exact Hcur|]. split; [exact Hlen|].
    exact (proj2 (proj2 (proj1 AddSpecificTimes_truncates_progress
                           (bar sampleWorking) Hcur Hlen))).
  - split; [exact Htot|].
    exact (proj2 (proj1 (proj2 (proj2 AddSpecificTimes_truncates_progress))
                    (bar sampleWorking) Hcur Htot)).
Defined.

(** ** A bar that is used within its total, the throttle, the last frame *)

Section Usage.
Context {lib : GoLib} {colors : Palette}.

Lemma UpdateBar_at_ceiling (now : Z) (w : World) :
  currentProcess (bar w) = total (bar w) -> UpdateBar now w = Returned tt w.
Proof.
  intros E. unfold UpdateBar, LoadUint32.
  rewrite !bind_read, E, Z.eqb_refl. reflexivity.
Qed.

(** What an update call does to the timer. *)
Lemma UpdateBar_ticker (now : Z) (w w' : World) :
  UpdateBar now w = Returned tt w' ->
  (frames w' = frames w /\ (ticker (bar w') = ticker (bar w) \/ ticker (bar w') = None))
  \/ (tickerReady now (bar w) = true
      /\ (ticker (bar w') = None
          \/ ticker (bar w')
             = Some (After now (milliseconds (updateInterval (bar w)))))).
Proof.
  intros H. unfold UpdateBar in H.
  cases_in H; injection H as <-; unfold frames; cbn [bar]; state;
    first [ left; split; [reflexivity|]; first [left; reflexivity|right; reflexivity]
          | right; split; [assumption|]; first [left; reflexivity|right; reflexivity] ].
Qed.

Lemma AddSpecificTimes_ticker (now steps : Z) (w w' : World) :
  AddSpecificTimes now steps w = Returned tt w' ->
  (frames w' = frames w /\ (ticker (bar w') = ticker (bar w) \/ ticker (bar w') = None))
  \/ (tickerReady now (bar w) = true
      /\ (ticker (bar w') = None
          \/ ticker (bar w')
             = Some (After now (milliseconds (updateInterval (bar w)))))).
Proof.
  intros H. unfold AddSpecificTimes in H.
  cases_in H; injection H as <-; unfold frames; cbn [bar]; state;
    first [ left; split; [reflexivity|]; first [left; reflexivity|right; reflexivity]
          | right; split; [assumption|]; first [left; reflexivity|right; reflexivity] ].
Qed.

Lemma tickerReady_before (now deadline : Z) (pb : ProgressBar) :
  ticker pb = None \/ (exists d, ticker pb = Some d /\ deadline <= d) ->
  now < deadline -> tickerReady now pb = false.
Proof.
  intros [E|(d & E & Hd)] Hnow; unfold tickerReady; rewrite E; [reflexivity|].
  apply Z.leb_gt. lia.
Qed.

(** Updates that all come before the deadline of the timer send nothing. *)
Lemma updates_before_deadline (deadline : Z) (calls : list Call) :
  forall w w',
    Forall (updateBefore deadline) calls ->
    ticker (bar w) = None \/ (exists d, ticker (bar w) = Some d /\ deadline <= d) ->
    run calls w = Returned tt w' ->
    frames w' = frames w.
Proof.
  induction calls as [|c rest IH]; intros w w' Hall Ht Hrun.
  - injection Hrun as <-. reflexivity.
  - apply run_cons in Hrun as (w1 & H1 & Hrest).
    inversion Hall as [|c' rest' Hc Hrest']; subst.
    assert (Hstep : frames w1 = frames w
                    /\ (ticker (bar w1) = ticker (bar w) \/ ticker (bar w1) = None)).
    { destruct c as [now|now steps|now|vw]; cbn [updateBefore exec] in *; try contradiction.
      - pose proof (tickerReady_before now deadline (bar w) Ht Hc) as Hq.
        apply UpdateBar_ticker in H1 as [H1|(Hr & _)]; [exact H1|congruence].
      - pose proof (tickerReady_before now deadline (bar w) Ht Hc) as Hq.
        apply AddSpecificTimes_ticker in H1 as [H1|(Hr & _)]; [exact H1|congruence]. }
    destruct Hstep as (Hf & Hk).
    rewrite <- Hf. apply IH; [assumption| |assumption].
    destruct Hk as [Hk|Hk]; [rewrite Hk; exact Ht|left; exact Hk].
Qed.

(** X1. The throttle: once an update has sent a frame at the clock reading
    [now], no update before [now] plus the update interval sends another. *)
Theorem throttle_after_frame (c : Call) (now : Z) (calls : list Call)
    (w w1 w2 : World) :
  c = CallUpdateBar now \/ (exists steps, c = CallAddSpecificTimes now steps) ->
  0 <= updateInterval (bar w) * Millisecond <= Int.maxInt ->
  exec c w = Returned tt w1 ->
  frames w1 <> frames w ->
  Forall (updateBefore (now + updateInterval (bar w) * Millisecond)) calls ->
  run calls w1 = Returned tt w2 ->
  frames w2 = frames w1.
Proof.
  intros Hc Hint H1 Hsent Hall Hrun.
  apply (updates_before_deadline (now + updateInterval (bar w) * Millisecond) calls w1 w2);
    try assumption.
  assert (Hd : After now (milliseconds (updateInterval (bar w)))
               = now + updateInterval (bar w) * Millisecond).
  { unfold After, milliseconds. rewrite wrap64_id; [lia|].
    unfold Int.isInt, Int.minInt, Int.maxInt in *. lia. }
  assert (Hk : ticker (bar w1) = None
               \/ ticker (bar w1)
                  = Some (After now (milliseconds (updateInterval (bar w))))).
  { destruct Hc as [->|(steps & ->)]; cbn [exec] in H1.
    - apply UpdateBar_ticker in H1 as [(Hf & _)|(_ & Hk)]; [contradiction|exact Hk].
    - apply AddSpecificTimes_ticker in H1 as [(Hf & _)|(_ & Hk)]; [contradiction|exact Hk]. }
  destruct Hk as [Hk|Hk]; [left; exact Hk|right].
  eexists. split; [exact Hk|]. lia.
Qed.

(** *** The timer and the channels of a fresh bar *)

Lemma NewProgressBar_timer (now : Z) (title : string) (units width : Z)
    (options : list OptionCall) (pb : ProgressBar) :
  NewProgressBar now title units width (map optionOf options) = (Some pb, None) ->
  ticker pb = (if updateInterval pb >? 0
               then Some (After now (milliseconds (updateInterval pb)))
               else None)
  /\ barLength pb = width
  /\ lastFilledLength pb = 0
  /\ finishBar pb = MkChan [] false.
Proof.
  intros H. unfold NewProgressBar in H.
  destruct (applyOptions_untouched options (defaultBar title units width))
    as (Hu & _ & _ & Ht & _ & _).
  destruct Hu as (_ & _ & Hw & _ & Hl & _).
  destruct (LoadLocation _) as [loc|err]; [|discriminate H].
  injection H as <-. state.
  destruct (updateInterval _ >? 0) eqn:E; state; rewrite ?E, ?Ht, ?Hw, ?Hl;
    repeat split; reflexivity.
Qed.

Lemma Complete_ticker (now : Z) (w w' : World) :
  Complete now w = Returned tt w' -> w' = w \/ ticker (bar w') = None.
Proof.
  intros H. unfold Complete in H.
  cases_in H; injection H as <-; first [left; reflexivity|right; reflexivity].
Qed.

Lemma demand_nonneg (calls : list Call) :
  Forall inRangeCall calls -> 0 <= demand calls.
Proof.
  induction 1 as [|c rest Hc _ IH]; cbn [demand fold_right]; [lia|].
  fold (demand rest). destruct c; cbn [demandOf inRangeCall] in *; lia.
Qed.


Lemma exec_withinTotal (c : Call) (rest : list Call) (w : World) :
  inRangeCall c -> Forall inRangeCall rest ->
  withinTotal (c :: rest) w ->
  exists w',
    exec c w = Returned tt w'
    /\ withinTotal rest w'
    /\ total (bar w') = total (bar w)
    /\ (complete (bar w') = false ->
        complete (bar w) = false
        /\ currentProcess (bar w') = currentProcess (bar w) + demandOf c).
Proof.
  intros Hc Hrest (Hmu & (l & Hloc) & Hcur & Htot & Hopen & Hdone).
  pose proof (demand_nonneg rest Hrest) as Hd.
  cbn [demand fold_right] in Hopen. fold (demand rest) in Hopen.
  destruct c as [now|now steps|now|vw]; cbn [exec demandOf inRangeCall] in *.
  - (* UpdateBar *)
    destruct (complete (bar w)) eqn:Hcw.
    + specialize (Hdone eq_refl).
      exists w. split; [apply UpdateBar_at_ceiling; exact Hdone|].
      split; [|split; [reflexivity|congruence]].
      unfold withinTotal. rewrite Hcw. repeat split; eauto; try lia; discriminate.
    + destruct (Hopen eq_refl) as (Hch & Hsum).
      destruct (UpdateBar_returns now w Hmu Hch) as (w' & H).
      pose proof (UpdateBar_effect now w w' H)
        as (Hset & _ & Hc' & _ & Hmu' & Hcur' & Hsent).
      assert (Ht : total (bar w') = total (bar w)) by apply Hset.
      assert (Hl : location (bar w') = location (bar w)) by apply Hset.
      assert (Hstep : currentProcess (bar w') = currentProcess (bar w) + 1).
      { rewrite Hcur'. unfold counterAfterUpdateBar.
        destruct (Z.eqb_spec (currentProcess (bar w)) (total (bar w))); [lia|].
        destruct (Z.gtb_spec (currentProcess (bar w)) (total (bar w))); [lia|].
        apply wrap32_id. unfold Int.isUint32. lia. }
      exists w'. split; [exact H|]. split; [|split; [exact Ht|]].
      * unfold withinTotal. rewrite Hmu', Hl, Ht, Hc', Hcw, Hstep.
        repeat split; eauto; try lia; try discriminate.
        eapply sentAtMostOne_open; eassumption.
      * intros _. split; [reflexivity|exact Hstep].
  - (* AddSpecificTimes *)
    destruct (complete (bar w)) eqn:Hcw.
    + specialize (Hdone eq_refl).
      exists w. split; [apply AddSpecificTimes_at_ceiling; exact Hdone|].
      split; [|split; [reflexivity|congruence]].
      unfold withinTotal. rewrite Hcw. repeat split; eauto; try lia; discriminate.
    + destruct (Hopen eq_refl) as (Hch & Hsum).
      destruct (AddSpecificTimes_returns now steps w Hmu Hch) as (w' & H).
      pose proof (AddSpecificTimes_effect now steps w w' H)
        as (Hset & _ & Hc' & _ & Hmu' & Hcur' & Hsent).
      assert (Ht : total (bar w') = total (bar w)) by apply Hset.
      assert (Hl : location (bar w') = location (bar w)) by apply Hset.
      assert (Hstep : currentProcess (bar w') = currentProcess (bar w) + steps).
      { rewrite Hcur'. unfold counterAfterAddSpecificTimes.
        destruct (Z.geb_spec (currentProcess (bar w)) (total (bar w))); [lia|].
        apply wrap32_id. unfold Int.isUint32. lia. }
      exists w'. split; [exact H|]. split; [|split; [exact Ht|]].
      * unfold withinTotal. rewrite Hmu', Hl, Ht, Hc', Hcw, Hstep.
        repeat split; eauto; try lia; try discriminate.
        eapply sentAtMostOne_open; eassumption.
      * intros _. split; [reflexivity|exact Hstep].
  - (* Complete *)
    destruct (complete (bar w)) eqn:Hcw.
    + specialize (Hdone eq_refl).
      exists w. split; [apply Complete_done; exact Hcw|].
      split; [|split; [reflexivity|congruence]].
      unfold withinTotal. rewrite Hcw. repeat split; eauto; try lia; discriminate.
    + destruct (Hopen eq_refl) as (Hch & Hsum).
      destruct (Complete_returns now w l Hcw (proj2 Hcur) Hloc Hch) as (w' & H).
      pose proof (Complete_effect now w w' H) as (Hset & _ & Hmu' & _ & Hcase).
      assert (Ht : total (bar w') = total (bar w)) by apply Hset.
      assert (Hl : location (bar w') = location (bar w)) by apply Hset.
      exists w'. split; [exact H|].
      destruct Hcase as [(Hx & _)|[(_ & _ & Hc' & Hcur' & _)|(_ & Hx & _)]];
        [congruence| |lia].
      split; [|split; [exact Ht|congruence]].
      unfold withinTotal. rewrite Hmu', Hl, Ht, Hc', Hcur'.
      repeat split; eauto; try lia; discriminate.
  - (* Report *)
    assert (Hret : exists err, Report vw w = Returned err w
                               \/ exists lines,
                                    Report vw w
                                    = Returned err {| bar := bar w;
                                                      stdout := (stdout w ++ lines)%list |}).
    { destruct (complete (bar w)) eqn:Hcw.
      - destruct (Report_complete vw w Hcw Hc) as (lines & Hrun & _). eauto.
      - eexists. left. apply Report_incomplete. exact Hcw. }
    destruct Hret as (err & [Hrun|(lines & Hrun)]); unfold bind; rewrite Hrun;
      eexists; (split; [reflexivity|]); cbn [bar].
    + split; [|split; [reflexivity|intros E; split; [exact E|lia]]].
      unfold withinTotal. repeat split; eauto; try lia.
      * apply Hopen; assumption.
      * destruct (Hopen H); lia.
    + split; [|split; [reflexivity|intros E; split; [exact E|lia]]].
      unfold withinTotal. cbn [bar]. repeat split; eauto; try lia.
      * apply Hopen; assumption.
      * destruct (Hopen H); lia.
Qed.

Lemma run_withinTotal (calls : list Call) :
  forall w,
    Forall inRangeCall calls -> withinTotal calls w ->
    exists w',
      run calls w = Returned tt w'
      /\ total (bar w') = total (bar w)
      /\ 0 <= currentProcess (bar w') <= total (bar w)
      /\ (complete (bar w') = false ->
          complete (bar w) = false
          /\ currentProcess (bar w') = currentProcess (bar w) + demand calls)
      /\ (complete (bar w') = true -> currentProcess (bar w') = total (bar w)).
Proof.
  induction calls as [|c rest IH]; intros w Hall Hw.
  - exists w. split; [reflexivity|]. split; [reflexivity|].
    destruct Hw as (_ & _ & Hcur & _ & _ & Hdone).
    cbn [demand fold_right]. split; [exact Hcur|]. split; [|exact Hdone].
    intros E. split; [exact E|lia].
  - inversion Hall as [|c' rest' Hc Hrest]; subst.
    destruct (exec_withinTotal c rest w Hc Hrest Hw) as (w1 & H1 & Hw1 & Ht1 & Hstep).
    destruct (IH w1 Hrest Hw1) as (w' & Hrun & Ht & Hcur & Hopen & Hdone).
    exists w'. rewrite (run_cons_returned c rest w w1 H1).
    split; [exact Hrun|]. split; [congruence|]. split; [rewrite <- Ht1; exact Hcur|].
    split.
    + intros E. destruct (Hopen E) as (E1 & Hsum). destruct (Hstep E1) as (E0 & Hs).
      split; [exact E0|]. cbn [demand fold_right]. fold (demand rest). lia.
    + intros E. rewrite <- Ht1. apply Hdone. exact E.
Qed.

(** X2. A bar that is asked for no more than its total: no call panics or
    blocks, the counter never leaves the range from 0 to the total, it is
    the sum of the steps asked for until Complete is called, and the
    total from then on. *)
Theorem run_within_total (now : Z) (title : string) (units width : Z)
    (options : list OptionCall) (pb : ProgressBar) (calls : list Call) :
  NewProgressBar now title units width (map optionOf options) = (Some pb, None) ->
  0 <= units <= Int.maxUint32 ->
  Forall inRangeCall calls ->
  demand calls <= units ->
  exists w,
    run calls (start pb) = Returned tt w
    /\ 0 <= currentProcess (bar w) <= units
    /\ (complete (bar w) = false -> currentProcess (bar w) = demand calls)
    /\ (complete (bar w) = true -> currentProcess (bar w) = units).
Proof.
  intros Hnew Hunits Hall Hsum.
  destruct (NewProgressBar_fresh now title units width options pb Hnew)
    as (Hc & Hcur & Hmu & Htot & Hch & Hloc).
  destruct (run_withinTotal calls (start pb) Hall) as (w & Hrun & Ht & Hb & Hopen & Hdone).
  { unfold withinTotal, start. cbn [bar]. rewrite Hc, Hcur, Htot.
    repeat split; try assumption; try lia; try discriminate.
    exists []. exact Hch. }
  cbn [start bar] in *. rewrite Htot in *. rewrite Hcur in Hopen.
  exists w. split; [exact Hrun|]. split; [exact Hb|]. split; [|exact Hdone].
  intros E. destruct (Hopen E) as (_ & ->). lia.
Qed.

(** *** The last frame of a completed bar *)


Lemma exec_endsWithFinalFrame (c : Call) (w w' : World) :
  exec c w = Returned tt w' ->
  atCeiling w -> endsWithFinalFrame w -> endsWithFinalFrame w'.
Proof.
  unfold atCeiling, endsWithFinalFrame. intros H Hat Hinv Hdone.
  destruct c as [now|now steps|now|vw]; cbn [exec] in H.
  - pose proof (UpdateBar_effect now w w' H) as (_ & _ & Hc & _).
    rewrite Hc in Hdone.
    rewrite (UpdateBar_at_ceiling now w (Hat Hdone)) in H. injection H as <-. auto.
  - pose proof (AddSpecificTimes_effect now steps w w' H) as (_ & _ & Hc & _).
    rewrite Hc in Hdone.
    rewrite (AddSpecificTimes_at_ceiling now steps w (Hat Hdone)) in H.
    injection H as <-. auto.
  - apply Complete_effect in H as (Hset & _ & _ & _ & Hcase).
    destruct Hcase as [(Hc & ->)|[(_ & _ & _ & _ & _ & (sent & _ & Hs))|(_ & _ & Hc & _)]].
    + auto.
    + exists sent. rewrite Hs. unfold finalFrame.
      destruct Hset as (_ & _ & -> & _). reflexivity.
    + congruence.
  - unfold bind in H. destruct (Report vw w) as [e w1| |] eqn:E; try discriminate.
    injection H as <-. apply Report_keepsBar in E. rewrite E in *. auto.
Qed.

Lemma Reachable_endsWithFinalFrame (w : World) :
  Reachable w -> endsWithFinalFrame w.
Proof.
  intros (now & title & units & width & options & pb & calls & Hnew & Hrun).
  apply NewProgressBar_fresh in Hnew as (Hc & _).
  assert (H0 : atCeiling (start pb) /\ endsWithFinalFrame (start pb)).
  { unfold atCeiling, endsWithFinalFrame, start. cbn [bar]. split; congruence. }
  clear Hc. revert H0 Hrun. generalize (start pb). clear pb.
  induction calls as [|c rest IH]; intros w0 (Hat & Hinv) Hrun.
  - injection Hrun as <-. exact Hinv.
  - apply run_cons in Hrun as (w1 & H1 & H2).
    apply (IH w1); [|exact H2]. split.
    + eapply exec_atCeiling; eassumption.
    + eapply exec_endsWithFinalFrame; eassumption.
Qed.

(** X3. Whatever the calls were: once the complete flag of a bar is set, its
    print channel is closed and the last frame sent on it is the full bar
    at 100 %. *)
Theorem completed_bar_ends_with_final_frame (w : World) :
  Reachable w -> complete (bar w) = true ->
  exists sent,
    printChannel (bar w) = MkChan (sent ++ [finalFrame (bar w)])%list true.
Proof.
  intros Hreach Hdone.
  pose proof (Reachable_endsWithFinalFrame w Hreach) as Hinv.
  unfold endsWithFinalFrame in Hinv.
  destruct (Hinv Hdone) as (sent & Hsent).
  exists sent. exact Hsent.
Qed.

(** *** A bar without timer *)


Lemma exec_silent (c : Call) (w w' : World) :
  exec c w = Returned tt w' ->
  silent (finalFrame (bar w)) w -> silent (finalFrame (bar w')) w'.
Proof.
  intros H (Ht & Hf).
  assert (Hq : forall now, tickerReady now (bar w) = false).
  { intros now. unfold tickerReady. rewrite Ht. reflexivity. }
  destruct c as [now|now steps|now|vw]; cbn [exec] in H.
  - pose proof (UpdateBar_effect now w w' H) as (Hset & _).
    assert (Hl : finalFrame (bar w') = finalFrame (bar w)).
    { unfold finalFrame. destruct Hset as (_ & _ & -> & _). reflexivity. }
    rewrite Hl.
    pose proof (UpdateBar_effect now w w' H) as (_ & _ & _ & _ & _ & _ & Hsent).
    apply UpdateBar_ticker in H as [(Hfr & Hk)|(Hr & _)]; [|rewrite Hq in Hr; discriminate].
    split; [destruct Hk as [-> | ->]; auto|].
    destruct Hf as [Hf|Hf]; [left; congruence|right].
    destruct Hsent as [-> | (sent & msg & Hs & _)]; [exact Hf|congruence].
  - pose proof (AddSpecificTimes_effect now steps w w' H) as (Hset & _).
    assert (Hl : finalFrame (bar w') = finalFrame (bar w)).
    { unfold finalFrame. destruct Hset as (_ & _ & -> & _). reflexivity. }
    rewrite Hl.
    pose proof (AddSpecificTimes_effect now steps w w' H) as (_ & _ & _ & _ & _ & _ & Hsent).
    apply AddSpecificTimes_ticker in H as [(Hfr & Hk)|(Hr & _)];
      [|rewrite Hq in Hr; discriminate].
    split; [destruct Hk as [-> | ->]; auto|].
    destruct Hf as [Hf|Hf]; [left; congruence|right].
    destruct Hsent as [-> | (sent & msg & Hs & _)]; [exact Hf|congruence].
  - pose proof (Complete_ticker now w w' H) as Hk.
    apply Complete_effect in H as (Hset & _ & _ & _ & Hcase).
    assert (Hl : finalFrame (bar w') = finalFrame (bar w)).
    { unfold finalFrame. destruct Hset as (_ & _ & -> & _). reflexivity. }
    rewrite Hl.
    destruct Hcase as [(_ & ->)|[(_ & _ & _ & _ & _ & (sent & Hs & Hs'))
                                |(_ & _ & _ & _ & _ & (sent & Hs & Hs'))]].
    + split; assumption.
    + split; [destruct Hk as [-> | Hk]; assumption|].
      destruct Hf as [Hf|Hf]; [|congruence].
      unfold frames in Hf. rewrite Hs in Hf. cbn [sentOn] in Hf. subst sent.
      right. exact Hs'.
    + split; [destruct Hk as [-> | Hk]; assumption|].
      destruct Hf as [Hf|Hf]; [|congruence].
      unfold frames in *. rewrite Hs in Hf. rewrite Hs'. left. exact Hf.
  - unfold bind in H. destruct (Report vw w) as [e w1| |] eqn:E; try discriminate.
    injection H as <-. apply Report_keepsBar in E. unfold silent, frames.
    rewrite E. split; assumption.
Qed.

(** X4. A bar made with an update interval of zero or less has no timer, and
    none of its updates ever sends a frame: whatever the calls, the frames
    sent are none, or the one frame of Complete. *)
Theorem frames_without_timer (now : Z) (title : string) (units width : Z)
    (options : list OptionCall) (pb : ProgressBar) (calls : list Call) (w : World) :
  NewProgressBar now title units width (map optionOf options) = (Some pb, None) ->
  updateInterval pb <= 0 ->
  run calls (start pb) = Returned tt w ->
  frames w = [] \/ frames w = [finalFrame pb].
Proof.
  intros Hnew Hint Hrun.
  pose proof (NewProgressBar_fresh now title units width options pb Hnew)
    as (_ & _ & _ & _ & Hch & _).
  apply NewProgressBar_timer in Hnew as (Ht & _).
  replace (updateInterval pb >? 0) with false in Ht
    by (symmetry; rewrite Z.gtb_ltb; apply Z.ltb_ge; exact Hint).
  assert (H0 : silent (finalFrame (bar (start pb))) (start pb)).
  { split; [exact Ht|]. left. unfold frames, start. cbn [bar]. rewrite Hch. reflexivity. }
  assert (Hgen : forall w0, silent (finalFrame (bar w0)) w0 ->
                            run calls w0 = Returned tt w ->
                            silent (finalFrame (bar w0)) w).
  { clear. induction calls as [|c rest IH]; intros w0 Hs Hrun.
    - injection Hrun as <-. exact Hs.
    - apply run_cons in Hrun as (w1 & H1 & H2).
      pose proof (exec_silent c w0 w1 H1 Hs) as Hs1.
      assert (Hl : finalFrame (bar w1) = finalFrame (bar w0)).
      { unfold finalFrame. f_equal.
        destruct c as [t|t steps|t|vw]; cbn [exec] in H1.
        - apply UpdateBar_effect in H1 as (Hset & _). apply Hset.
        - apply AddSpecificTimes_effect in H1 as (Hset & _). apply Hset.
        - apply Complete_effect in H1 as (Hset & _). apply Hset.
        - unfold bind in H1. destruct (Report vw w0) as [e w2| |] eqn:E; try discriminate.
          injection H1 as <-. apply Report_keepsBar in E. rewrite E. reflexivity. }
      rewrite <- Hl. apply (IH w1); [exact Hs1|exact H2]. }
  destruct (Hgen (start pb) H0 Hrun) as (_ & [Hf|Hf]); [left; exact Hf|right].
  unfold frames. rewrite Hf. reflexivity.
Qed.
End Usage.

(** ** Strings *)

Lemma append_assoc (a b c : string) : (a ++ b) ++ c = a ++ (b ++ c).
Proof. induction a as [|x a IH]; cbn; [reflexivity|]. rewrite IH. reflexivity. Qed.

Lemma append_empty_r (a : string) : a ++ "" = a.
Proof. induction a as [|x a IH]; cbn; [reflexivity|]. rewrite IH. reflexivity. Qed.

Lemma length_append (a b : string) :
  String.length (a ++ b) = (String.length a + String.length b)%nat.
Proof. induction a as [|x a IH]; cbn; [reflexivity|]. rewrite IH. reflexivity. Qed.

Lemma length_repeatString (s : string) (n : nat) :
  String.length (repeatString s n) = (n * String.length s)%nat.
Proof.
  induction n as [|n IH]; cbn [repeatString]; [reflexivity|].
  rewrite length_append, IH. reflexivity.
Qed.

(** ** The printer *)

Lemma appendGlyphs_repeatString (glyph : string) (count : nat) (bar : string) :
  appendGlyphs glyph count bar = bar ++ repeatString glyph count.
Proof.
  revert bar. induction count as [|count IH]; intros bar; cbn [appendGlyphs repeatString].
  - symmetry. apply append_empty_r.
  - rewrite IH. apply append_assoc.
Qed.

Lemma barText_repeatString (width fill : Z) :
  barText width fill
  = repeatString filledGlyph (Z.to_nat fill)
      ++ repeatString emptyGlyph (Z.to_nat (width - fill)).
Proof.
  unfold barText. cbv zeta. rewrite !appendGlyphs_repeatString. reflexivity.
Qed.

(** X5. The bar that ListenPrinter draws has one glyph of three bytes for every
    round of its two loops; nothing cuts a fill to the width of the bar.
    So the bar is as wide as [barLength] exactly for a fill from 0 to
    [barLength], and wider for any other fill. *)
Theorem barText_width (width fill : Z) :
  Z.of_nat (String.length (barText width fill))
  = 3 * (Z.max 0 fill + Z.max 0 (width - fill))
  /\ (Z.of_nat (String.length (barText width fill)) = 3 * width
      <-> 0 <= fill <= width).
Proof.
  assert (E : Z.of_nat (String.length (barText width fill))
              = 3 * (Z.max 0 fill + Z.max 0 (width - fill))).
  { rewrite barText_repeatString, length_append, !length_repeatString.
    change (String.length filledGlyph) with 3%nat.
    change (String.length emptyGlyph) with 3%nat. lia. }
  split; [exact E|]. rewrite E. lia.
Qed.

Section PrinterFacts.
Context {lib : GoLib} {colors : Palette} {fmt : GoFmt}.

Lemma printFrames_returns (msgs : list barMessage) (w : World) :
  printFrames msgs w
  = Returned tt {| bar := bar w;
                   stdout := (stdout w ++ map (frameText (bar w)) msgs)%list |}.
Proof.
  revert w. induction msgs as [|msg rest IH]; intros w; cbn [printFrames map].
  - rewrite run_ret, app_nil_r. destruct w; reflexivity.
  - rewrite bind_read, bind_print, IH. cbn [bar stdout].
    rewrite <- app_assoc. reflexivity.
Qed.


Lemma ListenPrinter_open (w : World) (sent : list barMessage) :
  printChannel (bar w) = MkChan sent false -> ListenPrinter w = Blocked.
Proof.
  intros Hch. unfold ListenPrinter.
  rewrite bind_read, Hch. unfold bind at 1. rewrite printFrames_returns.
  reflexivity.
Qed.

Lemma exec_sameSetup (c : Call) (w w' : World) :
  exec c w = Returned tt w' -> sameSetup (bar w) (bar w').
Proof.
  intros H. destruct c as [now|now steps|now|vw]; cbn [exec] in H.
  - apply UpdateBar_effect in H. apply H.
  - apply AddSpecificTimes_effect in H. apply H.
  - apply Complete_effect in H. apply H.
  - unfold bind in H. destruct (Report vw w) as [e w1| |] eqn:E; try discriminate.
    injection H as <-. apply Report_keepsBar in E. rewrite E. apply sameSetup_refl.
Qed.

Lemma run_sameSetup (calls : list Call) (w w' : World) :
  run calls w = Returned tt w' -> sameSetup (bar w) (bar w').
Proof.
  revert w. induction calls as [|c rest IH]; intros w H.
  - injection H as <-. apply sameSetup_refl.
  - apply run_cons in H as (w1 & H1 & H2).
    eapply sameSetup_trans; [eapply exec_sameSetup; exact H1|apply IH; exact H2].
Qed.

Lemma Reachable_finishBar (w : World) :
  Reachable w -> finishBar (bar w) = MkChan [] false.
Proof.
  intros (now & title & units & width & options & pb & calls & Hnew & Hrun).
  apply run_sameSetup in Hrun. cbn [start bar] in Hrun.
  destruct Hrun as (_ & _ & _ & _ & _ & _ & _ & _ & _ & _ & ->).
  unfold NewProgressBar in Hnew.
  destruct (LoadLocation _); [|discriminate].
  injection Hnew as <-. destruct (updateInterval _ >? 0); reflexivity.
Qed.


Lemma exec_channelOpen (c : Call) (w w' : World) :
  isComplete c = false ->
  exec c w = Returned tt w' -> channelOpen (bar w) -> channelOpen (bar w').
Proof.
  intros Hc H Hopen. destruct c as [now|now steps|now|vw]; cbn [exec] in H;
    try discriminate Hc.
  - apply UpdateBar_effect in H as (_ & _ & _ & _ & _ & _ & Hsent).
    eapply sentAtMostOne_open; eassumption.
  - apply AddSpecificTimes_effect in H as (_ & _ & _ & _ & _ & _ & Hsent).
    eapply sentAtMostOne_open; eassumption.
  - unfold bind in H. destruct (Report vw w) as [e w1| |] eqn:E; try discriminate.
    injection H as <-. apply Report_keepsBar in E. rewrite E. exact Hopen.
Qed.

(** X7. Without a call of Complete the printer never stops, whatever the
    counter has reached: ListenPrinter waits for the next frame, and the
    goroutine of WaitForPrinterStop waits for its signal. *)
Theorem printer_waits_without_Complete (now : Z) (title : string) (units width : Z)
    (options : list OptionCall) (pb : ProgressBar) (calls : list Call) (w : World) :
  NewProgressBar now title units width (map optionOf options) = (Some pb, None) ->
  existsb isComplete calls = false ->
  run calls (start pb) = Returned tt w ->
  ListenPrinter w = Blocked /\ WaitForPrinterStop w = Blocked.
Proof.
  intros Hnew Hnone Hrun.
  assert (Hreach : Reachable w).
  { exists now, title, units, width, options, pb, calls. split; assumption. }
  pose proof (Reachable_finishBar w Hreach) as Hfin.
  apply NewProgressBar_fresh in Hnew as (_ & _ & _ & _ & Hch & _).
  assert (Hopen : channelOpen (bar w)).
  { assert (H0 : channelOpen (bar (start pb))) by (exists []; exact Hch).
    clear Hreach Hfin Hch. revert H0 Hrun. generalize (start pb).
    induction calls as [|c rest IH]; intros w0 H0 Hrun.
    - injection Hrun as <-. exact H0.
    - cbn [existsb] in Hnone. apply orb_false_iff in Hnone as (Hc & Hrest).
      apply run_cons in Hrun as (w1 & H1 & H2).
      apply (IH Hrest w1); [|exact H2].
      eapply exec_channelOpen; eassumption. }
  destruct Hopen as (sent & Hsent). split.
  - eapply ListenPrinter_open. exact Hsent.
  - unfold WaitForPrinterStop. rewrite bind_read, Hfin. reflexivity.
Qed.

(** ** GetNowTimeString *)

(** X8. GetNowTimeString and NewProgressBar look the zone up alike: for a zone
    name that does not resolve, both return the error of the lookup, the
    one with the empty string and the other with no bar; for a name that
    resolves, neither fails, and the string is the start time of the bar
    made at the same clock reading, in the layout asked for. *)
Theorem GetNowTimeString_as_NewProgressBar (now : Z) (format timeZone : string)
    (title : string) (units width : Z) :
  match LoadLocation timeZone with
  | Failure err =>
      GetNowTimeString now format timeZone = ("", Some err)
      /\ NewProgressBar now title units width [WithTimeZone timeZone] = (None, Some err)
  | Success loc =>
      exists pb,
        NewProgressBar now title units width [WithTimeZone timeZone] = (Some pb, None)
        /\ GetNowTimeString now format timeZone = (Format (startTime pb) format, None)
  end.
Proof.
  unfold GetNowTimeString, NewProgressBar.
  cbn [applyOptions fold_left WithTimeZone defaultBar set_timezone timezone].
  destruct (LoadLocation timeZone) as [loc|err]; [|split; reflexivity].
  eexists. split; [reflexivity|].
  cbv zeta. destruct (_ >? 0); reflexivity.
Qed.

(** X9. _TestTimeString with the zone of the tests panics exactly when the
    bar without options cannot be made, and with the same error. *)
Theorem TestTimeString_panics_as_default_bar (now : Z) (format : string)
    (title : string) (units width : Z) (err : error) :
  _TestTimeString now format "Asia/Shanghai" = Crash err
  <-> NewProgressBar now title units width [] = (None, Some err).
Proof.
  unfold _TestTimeString, GetNowTimeString, NewProgressBar.
  cbn [applyOptions fold_left defaultBar timezone].
  destruct (LoadLocation "Asia/Shanghai") as [loc|e].
  - split; intros H; discriminate H.
  - split; intros H; injection H as <-; reflexivity.
Qed.
End PrinterFacts.

(** ** The fills of the frames, and the completed bar *)

Section Frozen.
Context {lib : GoLib} {colors : Palette}.

Lemma last_cons (x : Z) (l : list Z) (d : Z) : last (x :: l) d = last l x.
Proof.
  revert x d. induction l as [|y l IH]; intros x d; [reflexivity|].
  change (last (x :: y :: l) d) with (last (y :: l) d).
  rewrite (IH y d). symmetry. apply IH.
Qed.

Lemma changes_snoc (prev : Z) (l : list Z) (fill : Z) :
  changes prev l -> fill <> last l prev -> changes prev (l ++ [fill]).
Proof.
  revert prev. induction l as [|x l IH]; intros prev Hl Hf; cbn [app changes].
  - cbn in Hf. auto.
  - destruct Hl as (Hx & Hl). split; [exact Hx|]. apply IH; [exact Hl|].
    rewrite last_cons in Hf. exact Hf.
Qed.

Lemma UpdateBar_fill (now : Z) (w w' : World) :
  UpdateBar now w = Returned tt w' ->
  (frames w' = frames w /\ lastFilledLength (bar w') = lastFilledLength (bar w))
  \/ exists msg,
       frames w' = (frames w ++ [msg])%list
       /\ filledLength msg <> lastFilledLength (bar w)
       /\ lastFilledLength (bar w') = filledLength msg.
Proof.
  intros H. unfold UpdateBar in H.
  cases_in H; injection H as <-; unfold frames; cbn [bar]; state;
    try (left; split; reflexivity).
  all: right; to_props; eexists;
    match goal with E : printChannel _ = _ |- _ => rewrite E end;
    (split; [reflexivity|]); cbn [filledLength]; split; [assumption|reflexivity].
Qed.

Lemma AddSpecificTimes_fill (now steps : Z) (w w' : World) :
  AddSpecificTimes now steps w = Returned tt w' ->
  (frames w' = frames w /\ lastFilledLength (bar w') = lastFilledLength (bar w))
  \/ exists msg,
       frames w' = (frames w ++ [msg])%list
       /\ filledLength msg <> lastFilledLength (bar w)
       /\ lastFilledLength (bar w') = filledLength msg.
Proof.
  intros H. unfold AddSpecificTimes in H.
  cases_in H; injection H as <-; unfold frames; cbn [bar]; state;
    try (left; split; reflexivity).
  all: right; to_props; eexists;
    match goal with E : printChannel _ = _ |- _ => rewrite E end;
    (split; [reflexivity|]); cbn [filledLength]; split; [assumption|reflexivity].
Qed.


Lemma exec_fillsOnRecord (c : Call) (w w' : World) :
  isComplete c = false ->
  exec c w = Returned tt w' -> fillsOnRecord w -> fillsOnRecord w'.
Proof.
  unfold fillsOnRecord, fills. intros Hc H (Hch & Hlast).
  assert (Hstep : (frames w' = frames w
                   /\ lastFilledLength (bar w') = lastFilledLength (bar w))
                  \/ exists msg,
                       frames w' = (frames w ++ [msg])%list
                       /\ filledLength msg <> lastFilledLength (bar w)
                       /\ lastFilledLength (bar w') = filledLength msg).
  { destruct c as [now|now steps|now|vw]; cbn [exec] in H; try discriminate Hc.
    - apply (UpdateBar_fill now). exact H.
    - apply (AddSpecificTimes_fill now steps). exact H.
    - unfold bind in H. destruct (Report vw w) as [e w1| |] eqn:E; try discriminate.
      injection H as <-. apply Report_keepsBar in E. left. unfold frames.
      rewrite E. split; reflexivity. }
  destruct Hstep as [(-> & ->)|(msg & -> & Hne & ->)]; [split; assumption|].
  rewrite map_app. cbn [map]. split.
  - apply changes_snoc; [exact Hch|]. rewrite <- Hlast. exact Hne.
  - rewrite last_last. reflexivity.
Qed.

(** X10. Until Complete is called, no frame repeats the fill of the frame
    before it (nor does the first frame have the fill 0 of the empty bar),
    and the fill on record in the bar is the one of the last frame sent. *)
Theorem frames_never_repeat_fill (now : Z) (title : string) (units width : Z)
    (options : list OptionCall) (pb : ProgressBar) (calls : list Call) (w : World) :
  NewProgressBar now title units width (map optionOf options) = (Some pb, None) ->
  existsb isComplete calls = false ->
  run calls (start pb) = Returned tt w ->
  changes 0 (fills w) /\ lastFilledLength (bar w) = last (fills w) 0.
Proof.
  intros Hnew Hnone Hrun.
  pose proof (NewProgressBar_fresh now title units width options pb Hnew)
    as (_ & _ & _ & _ & Hch & _).
  apply NewProgressBar_timer in Hnew as (_ & _ & Hl & _).
  assert (H0 : fillsOnRecord (start pb)).
  { unfold fillsOnRecord, fills, frames, start. cbn [bar]. rewrite Hch, Hl.
    split; [exact I|reflexivity]. }
  clear Hch Hl. revert H0 Hrun. generalize (start pb).
  induction calls as [|c rest IH]; intros w0 H0 Hrun.
  - injection Hrun as <-. exact H0.
  - cbn [existsb] in Hnone. apply orb_false_iff in Hnone as (Hc & Hrest).
    apply run_cons in Hrun as (w1 & H1 & H2).
    apply (IH Hrest w1); [|exact H2].
    eapply exec_fillsOnRecord; eassumption.
Qed.

(** X11. The methods write none of the fields that the constructor sets up
    (name, total, width, precision, zone and location, start time, update
    interval, colours, signal channel), and a call that returns has
    released the mutex. *)
Theorem run_keeps_setup (calls : list Call) (w w' : World) :
  run calls w = Returned tt w' ->
  sameSetup (bar w) (bar w') /\ mu (bar w') = mu (bar w).
Proof.
  intros H. split; [eapply run_sameSetup; exact H|].
  revert w H. induction calls as [|c rest IH]; intros w H.
  - injection H as <-. reflexivity.
  - apply run_cons in H as (w1 & H1 & H2).
    rewrite (IH w1 H2).
    destruct c as [now|now steps|now|vw]; cbn [exec] in H1.
    + apply UpdateBar_effect in H1. apply H1.
    + apply AddSpecificTimes_effect in H1. apply H1.
    + apply Complete_effect in H1. apply H1.
    + unfold bind in H1. destruct (Report vw w) as [e w2| |] eqn:E; try discriminate.
      injection H1 as <-. apply Report_keepsBar in E. rewrite E. reflexivity.
Qed.

(** X12. A completed bar is frozen: on a bar that a program completed, every
    call with arguments in range returns, and leaves every field of the
    bar as it was. *)
Theorem completed_bar_is_frozen (c : Call) (w : World) :
  Reachable w -> complete (bar w) = true -> inRangeCall c ->
  exists w', exec c w = Returned tt w' /\ bar w' = bar w.
Proof.
  intros Hreach Hdone Hc.
  pose proof (Reachable_atCeiling w Hreach Hdone) as Hcur.
  destruct c as [now|now steps|now|vw]; cbn [exec inRangeCall] in *.
  - exists w. split; [apply UpdateBar_at_ceiling; exact Hcur|reflexivity].
  - exists w. split; [apply AddSpecificTimes_at_ceiling; exact Hcur|reflexivity].
  - exists w. split; [apply Complete_done; exact Hdone|reflexivity].
  - destruct (Report_complete vw w Hdone Hc) as (lines & Hrun & _).
    eexists. unfold bind. rewrite Hrun. split; reflexivity.
Qed.

(** X13. A print channel that is closed while the complete flag is not set
    (Complete leaves this behind when the counter is beyond the total)
    makes every later Complete panic: on the send of the 100 % frame when
    the counter is within the total by then, and on the second close
    otherwise. *)
Theorem Complete_panics_once_closed (now : Z) (w : World)
    (sent : list barMessage) (l : Location) :
  complete (bar w) = false ->
  printChannel (bar w) = MkChan sent true ->
  location (bar w) = Some l ->
  Complete now w
  = Panicked (if currentProcess (bar w) <=? total (bar w)
              then "send on closed channel"
              else "close of closed channel").
Proof.
  intros Hc Hch Hloc. unfold Complete, LoadUint32, StoreUint32, send, close.
  rewrite bind_read, Hc. cbn [negb]. rewrite !bind_read.
  destruct (currentProcess (bar w) <=? total (bar w)) eqn:E.
  - rewrite bind_assoc, bind_read, Hloc.
    rewrite !bind_assoc, bind_assign, !bind_assoc, bind_assign, !bind_assoc, bind_read.
    rewrite !bind_assoc, bind_read. state. rewrite Hch. reflexivity.
  - rewrite bind_ret, bind_assign, bind_read. state. rewrite Hch. reflexivity.
Qed.
End Frozen.


(** ** shuffleSlice *)

Lemma setAt_length (i : nat) (x : Z) (l : list Z) :
  List.length (setAt i x l) = List.length l.
Proof.
  revert i. induction l as [|y l IH]; intros [|i]; cbn; auto.
Qed.

Lemma setAt_nth_same (i : nat) (x : Z) (l : list Z) :
  (i < List.length l)%nat -> nth_error (setAt i x l) i = Some x.
Proof.
  revert i. induction l as [|y l IH]; intros [|i] H; cbn in *; try lia; auto.
  apply IH. lia.
Qed.

Lemma setAt_nth_other (i j : nat) (x : Z) (l : list Z) :
  i <> j -> nth_error (setAt i x l) j = nth_error l j.
Proof.
  revert i j. induction l as [|y l IH]; intros [|i] [|j] H; cbn; auto; try congruence.
Qed.


Lemma setAt_count (i : nat) (a x y : Z) (l : list Z) :
  nth_error l i = Some a ->
  (count_occ Z.eq_dec (setAt i x l) y + hit a y = count_occ Z.eq_dec l y + hit x y)%nat.
Proof.
  revert i. induction l as [|z l IH]; intros [|i] H; cbn in H; try discriminate.
  - injection H as ->. unfold hit. cbn.
    destruct (Z.eq_dec x y), (Z.eq_dec a y); lia.
  - specialize (IH i H). cbn. destruct (Z.eq_dec z y); lia.
Qed.

Lemma sliceAt_Done (l : list Z) (i x : Z) :
  sliceAt l i = Done x ->
  0 <= i < Z.of_nat (List.length l) /\ nth_error l (Z.to_nat i) = Some x.
Proof.
  unfold sliceAt. destruct (Z.ltb_spec i 0); cbn; [discriminate|].
  destruct (Z.leb_spec (Z.of_nat (List.length l)) i); cbn; [discriminate|].
  destruct (nth_error l (Z.to_nat i)) eqn:E; [|discriminate].
  intros H'. injection H' as ->. split; [lia|reflexivity].
Qed.

Lemma sliceAt_in_range (l : list Z) (i : Z) :
  0 <= i < Z.of_nat (List.length l) -> exists x, sliceAt l i = Done x.
Proof.
  intros H. unfold sliceAt.
  destruct (Z.ltb_spec i 0); [lia|]. destruct (Z.leb_spec (Z.of_nat (List.length l)) i); [lia|].
  cbn. destruct (nth_error l (Z.to_nat i)) eqn:E; [eauto|].
  apply nth_error_None in E. lia.
Qed.

Lemma swapAt_Permutation (l l' : list Z) (i j : Z) :
  swapAt l i j = Done l' -> Permutation l l' /\ List.length l' = List.length l.
Proof.
  unfold swapAt. destruct (sliceAt l j) as [b|] eqn:Ej; [|discriminate].
  destruct (sliceAt l i) as [a|] eqn:Ei; [|discriminate].
  intros H. injection H as <-.
  apply sliceAt_Done in Ej as (Hj & Ej). apply sliceAt_Done in Ei as (Hi & Ei).
  split; [|rewrite !setAt_length; reflexivity].
  apply (Permutation_count_occ Z.eq_dec). intros y.
  pose proof (setAt_count (Z.to_nat i) a b y l Ei) as H1.
  assert (E2 : nth_error (setAt (Z.to_nat i) b l) (Z.to_nat j) = Some b).
  { destruct (Nat.eq_dec (Z.to_nat i) (Z.to_nat j)) as [E|E].
    - rewrite <- E. apply setAt_nth_same. lia.
    - rewrite setAt_nth_other by assumption. exact Ej. }
  pose proof (setAt_count (Z.to_nat j) b a y _ E2) as H2. lia.
Qed.

Lemma swapAt_in_range (l : list Z) (i j : Z) :
  0 <= i < Z.of_nat (List.length l) -> 0 <= j < Z.of_nat (List.length l) ->
  exists l', swapAt l i j = Done l'.
Proof.
  intros Hi Hj. unfold swapAt.
  destruct (sliceAt_in_range l j Hj) as (b & ->).
  destruct (sliceAt_in_range l i Hi) as (a & ->). eauto.
Qed.

Lemma shuffleFrom_Permutation (g : Rand) (i : nat) (l : list Z) (s : RandState g) :
  IntnInRange g -> (i < List.length l)%nat ->
  exists l' s', shuffleFrom g i l s = Done (l', s') /\ Permutation l l'.
Proof.
  intros Hg. revert l s. induction i as [|i IH]; intros l s Hi.
  - exists l, s. split; [reflexivity|apply Permutation_refl].
  - cbn [shuffleFrom]. unfold Intn.
    destruct (Z.leb_spec (Z.of_nat (S i) + 1) 0) as [H|H]; [lia|].
    pose proof (Hg (Z.of_nat (S i) + 1) s ltac:(lia)) as Hj.
    destruct (draw g (Z.of_nat (S i) + 1) s) as [j s1]. cbn [fst] in Hj.
    destruct (swapAt_in_range l (Z.of_nat (S i)) j) as (l1 & E1); [lia|lia|].
    rewrite E1. apply swapAt_Permutation in E1 as (P1 & L1).
    destruct (IH l1 s1) as (l' & s' & E & P); [lia|].
    exists l', s'. split; [exact E|]. eapply Permutation_trans; eassumption.
Qed.

(** X14. With a generator that keeps the contract of Intn, shuffleSlice does
    not panic, and the slice it leaves is a rearrangement of the one it
    was given: the same numbers, each as often as before. *)
Theorem shuffleSlice_Permutation (g : Rand) (slice : list Z) (s : RandState g) :
  IntnInRange g ->
  exists slice' s',
    shuffleSlice g slice s = Done (slice', s')
    /\ Permutation slice slice'
    /\ List.length slice' = List.length slice.
Proof.
  intros Hg. unfold shuffleSlice. destruct slice as [|x rest].
  - exists [], s. cbn. repeat split. apply Permutation_refl.
  - destruct (shuffleFrom_Permutation g (List.length (x :: rest) - 1) (x :: rest) s Hg)
      as (l' & s' & E & P); [cbn; lia|].
    exists l', s'. split; [exact E|]. split; [exact P|].
    symmetry. apply Permutation_length. exact P.
Qed.

(** X15. A slice of no or one element is left as it is, and no number is
    drawn, whatever the generator. *)
Theorem shuffleSlice_short (g : Rand) (slice : list Z) (s : RandState g) :
  (List.length slice <= 1)%nat -> shuffleSlice g slice s = Done (slice, s).
Proof.
  intros H. unfold shuffleSlice.
  replace (List.length slice - 1)%nat with 0%nat by lia. reflexivity.
Qed.


Lemma tape_in_range : IntnInRange tape.
Proof.
  intros n [|x s] Hn; cbn; [lia|]. apply Z.mod_pos_bound. exact Hn.
Qed.

Lemma setAt_app_l (i : nat) (x : Z) (p q : list Z) :
  (i < List.length p)%nat -> setAt i x (p ++ q) = (setAt i x p ++ q)%list.
Proof.
  revert i. induction p as [|y p IH]; intros [|i] H; cbn in *; try lia; auto.
  f_equal. apply IH. lia.
Qed.

Lemma sliceAt_app_l (p q : list Z) (i x : Z) :
  sliceAt p i = Done x -> sliceAt (p ++ q)%list i = Done x.
Proof.
  intros H. apply sliceAt_Done in H as (Hi & E).
  unfold sliceAt. rewrite length_app.
  destruct (Z.ltb_spec i 0); [lia|].
  destruct (Z.leb_spec (Z.of_nat (List.length p + List.length q)) i); [lia|].
  cbn. rewrite nth_error_app1 by lia. rewrite E. reflexivity.
Qed.

Lemma swapAt_app_l (p p1 q : list Z) (i j : Z) :
  swapAt p i j = Done p1 -> swapAt (p ++ q)%list i j = Done (p1 ++ q)%list.
Proof.
  unfold swapAt. destruct (sliceAt p j) as [b|] eqn:Ej; [|discriminate].
  destruct (sliceAt p i) as [a|] eqn:Ei; [|discriminate].
  intros H. injection H as <-.
  rewrite (sliceAt_app_l p q j b Ej), (sliceAt_app_l p q i a Ei).
  apply sliceAt_Done in Ej as (Hj & _). apply sliceAt_Done in Ei as (Hi & _).
  rewrite (setAt_app_l (Z.to_nat i)) by lia.
  rewrite (setAt_app_l (Z.to_nat j)) by (rewrite setAt_length; lia).
  reflexivity.
Qed.

Lemma shuffleFrom_app_l (g : Rand) (i : nat) (p p' q : list Z) (s s' : RandState g) :
  shuffleFrom g i p s = Done (p', s') ->
  shuffleFrom g i (p ++ q)%list s = Done ((p' ++ q)%list, s').
Proof.
  revert p s. induction i as [|i IH]; intros p s H.
  - injection H as <- <-. reflexivity.
  - cbn [shuffleFrom] in *.
    destruct (Intn g (Z.of_nat (S i) + 1) s) as [[j s1]|]; [|discriminate].
    destruct (swapAt p (Z.of_nat (S i)) j) as [p1|] eqn:E; [|discriminate].
    rewrite (swapAt_app_l p p1 q _ _ E). apply IH. exact H.
Qed.

Lemma swapAt_nth (l l1 : list Z) (i j : Z) :
  swapAt l i j = Done l1 ->
  nth_error l1 (Z.to_nat i) = nth_error l (Z.to_nat j).
Proof.
  unfold swapAt. destruct (sliceAt l j) as [b|] eqn:Ej; [|discriminate].
  destruct (sliceAt l i) as [a|] eqn:Ei; [|discriminate].
  intros H. injection H as <-.
  apply sliceAt_Done in Ej as (Hj & Ej). apply sliceAt_Done in Ei as (Hi & Ei).
  destruct (Nat.eq_dec (Z.to_nat j) (Z.to_nat i)) as [E|E].
  - rewrite E. rewrite setAt_nth_same by (rewrite setAt_length; lia).
    rewrite E in Ej. congruence.
  - rewrite setAt_nth_other by assumption.
    rewrite setAt_nth_same by lia. congruence.
Qed.

Lemma shuffleSlice_reaches (n : nat) :
  forall l l' : list Z,
    List.length l = n -> Permutation l l' ->
    exists s s', shuffleSlice tape l s = Done (l', s').
Proof.
  induction n as [|n IH]; intros l l' Hn P.
  - destruct l; [|discriminate]. apply Permutation_nil in P. subst l'.
    exists [], []. reflexivity.
  - destruct n as [|n].
    + destruct l as [|x [|]]; try discriminate.
      apply Permutation_length_1_inv in P. subst l'.
      exists [], []. reflexivity.
    + assert (Hn' : List.length l' = S (S n)).
      { rewrite <- Hn. symmetry. apply Permutation_length. exact P. }
      destruct (exists_last (l := l')) as (p' & z & ->); [destruct l'; discriminate|].
      assert (Hz : List.In z l).
      { apply (Permutation_in z (Permutation_sym P)). apply in_or_app. right. left. reflexivity. }
      apply In_nth_error in Hz as (j & Ej).
      assert (Hj : (j < List.length l)%nat) by (apply nth_error_Some; congruence).
      destruct (swapAt_in_range l (Z.of_nat (S n)) (Z.of_nat j)) as (l1 & E1); [lia|lia|].
      pose proof (swapAt_nth l l1 _ _ E1) as Hlast.
      rewrite !Nat2Z.id, Ej in Hlast.
      pose proof (swapAt_Permutation l l1 _ _ E1) as (P1 & L1).
      destruct (exists_last (l := l1)) as (q & w & ->); [destruct l1; discriminate|].
      rewrite length_app in L1. cbn in L1.
      rewrite nth_error_app2 in Hlast by lia.
      replace (S n - List.length q)%nat with 0%nat in Hlast by lia.
      cbn in Hlast. injection Hlast as ->.
      assert (Pq : Permutation q p').
      { apply Permutation_app_inv_r with (l := [z]).
        eapply Permutation_trans; [apply Permutation_sym; exact P1|exact P]. }
      destruct (IH q p') as (s1 & s' & E); [lia|exact Pq|].
      exists (Z.of_nat j :: s1), s'.
      unfold shuffleSlice. rewrite Hn.
      replace (S (S n) - 1)%nat with (S n) by lia.
      cbn [shuffleFrom]. unfold Intn.
      destruct (Z.leb_spec (Z.of_nat (S n) + 1) 0) as [H|H]; [lia|].
      cbn [draw tape]. rewrite Z.mod_small by lia. rewrite E1.
      apply shuffleFrom_app_l.
      unfold shuffleSlice in E. replace (List.length q - 1)%nat with n in E by lia.
      exact E.
Qed.

(** X16. Every rearrangement of the slice is one that shuffleSlice can leave:
    there are draws (here read off a tape) that lead to it. *)
Theorem shuffleSlice_every_permutation (slice target : list Z) :
  Permutation slice target ->
  exists s s', shuffleSlice tape slice s = Done (target, s').
Proof. intros P. exact (shuffleSlice_reaches (List.length slice) slice target eq_refl P). Qed.

(** ** The percentage of a frame, and the times of the report *)

Lemma percentOf_capped (progress : float64) :
  F64.gt (percentOf progress) F64.hundred = false.
Proof.
  unfold percentOf. cbv zeta.
  destruct (F64.gt (F64.mul progress F64.hundred) F64.hundred) eqn:E.
  - vm_compute. reflexivity.
  - exact E.
Qed.

Section Invariants.
Context {lib : GoLib} {colors : Palette}.

Lemma exec_capped (c : Call) (w w' : World) :
  exec c w = Returned tt w' ->
  Forall capped (frames w) -> Forall capped (frames w').
Proof.
  intros H Hinv. destruct c as [now|now steps|now|vw]; cbn [exec] in H.
  - apply UpdateBar_frame in H as [->|(_ & progress & _ & -> & _)]; [exact Hinv|].
    apply Forall_app. split; [exact Hinv|].
    constructor; [apply percentOf_capped|constructor].
  - apply AddSpecificTimes_frame in H as [->|(_ & progress & _ & -> & _)]; [exact Hinv|].
    apply Forall_app. split; [exact Hinv|].
    constructor; [apply percentOf_capped|constructor].
  - apply Complete_effect in H as (_ & _ & _ & _ & Hcase).
    destruct Hcase as [(_ & ->)|[(_ & _ & _ & _ & _ & (sent & Hs & Hs'))
                                |(_ & _ & _ & _ & _ & (sent & Hs & Hs'))]].
    + exact Hinv.
    + unfold frames in *. rewrite Hs in Hinv. rewrite Hs'. cbn [sentOn] in *.
      apply Forall_app. split; [exact Hinv|].
      constructor; [vm_compute; reflexivity|constructor].
    + unfold frames in *. rewrite Hs in Hinv. rewrite Hs'. exact Hinv.
  - unfold bind in H. destruct (Report vw w) as [e w1| |] eqn:E; try discriminate.
    injection H as <-. apply Report_keepsBar in E. unfold frames. rewrite E.
    exact Hinv.
Qed.

(** X17. No frame shows more than 100 %: whatever the calls, and however far
    the counter is beyond the total, the percentage of every frame sent is
    not above 100. (The fill of a frame has no such bound.) *)
Theorem frames_percentage_capped (w : World) :
  Reachable w -> Forall capped (frames w).
Proof.
  intros (now & title & units & width & options & pb & calls & Hnew & Hrun).
  apply NewProgressBar_fresh in Hnew as (_ & _ & _ & _ & Hch & _).
  assert (H0 : Forall capped (frames (start pb))).
  { unfold frames, start. cbn [bar]. rewrite Hch. constructor. }
  clear Hch. revert H0 Hrun. generalize (start pb).
  induction calls as [|c rest IH]; intros w0 H0 Hrun.
  - injection Hrun as <-. exact H0.
  - apply run_cons in Hrun as (w1 & H1 & H2).
    apply (IH w1); [|exact H2]. eapply exec_capped; eassumption.
Qed.

Lemma exec_timesInZone (c : Call) (w w' : World) :
  exec c w = Returned tt w' -> timesInZone w -> timesInZone w'.
Proof.
  intros H (l & Hl & Hs & He & Hz).
  pose proof (exec_sameSetup c w w' H) as (_ & _ & _ & _ & _ & Hl' & Hs' & _).
  exists l. rewrite Hl', Hs'. split; [exact Hl|]. split; [exact Hs|].
  destruct c as [now|now steps|now|vw]; cbn [exec] in H.
  - apply UpdateBar_effect in H as (_ & _ & -> & -> & _). split; assumption.
  - apply AddSpecificTimes_effect in H as (_ & _ & -> & -> & _). split; assumption.
  - apply Complete_effect in H as (_ & _ & _ & _ & Hcase).
    destruct Hcase as [(_ & ->)|[(_ & _ & Hc & _ & (l0 & Hl0 & ->) & _)
                                |(Hc & _ & -> & _ & -> & _)]].
    + split; assumption.
    + rewrite Hc. split; [|discriminate]. intros _. cbn [In zone]. congruence.
    + split; [discriminate|]. intros _. apply Hz. exact Hc.
  - unfold bind in H. destruct (Report vw w) as [e w1| |] eqn:E; try discriminate.
    injection H as <-. apply Report_keepsBar in E. rewrite E. split; assumption.
Qed.

(** X18. The two times of the report are in the zone of the bar, and the
    end time is set together with the complete flag: in every state a
    program can reach, the start time is in the location that was loaded;
    while the flag is unset the end time is still the zero time; once the
    flag is set the end time is in that location too. *)
Theorem times_in_zone (w : World) :
  Reachable w ->
  exists l,
    location (bar w) = Some l
    /\ zone (startTime (bar w)) = Some l
    /\ (complete (bar w) = true -> zone (endTime (bar w)) = Some l)
    /\ (complete (bar w) = false -> endTime (bar w) = zeroTime).
Proof.
  intros (now & title & units & width & options & pb & calls & Hnew & Hrun).
  assert (H0 : timesInZone (start pb)).
  { pose proof (NewProgressBar_cases now title units width (map optionOf options)) as Hc.
    cbv zeta in Hc. destruct (LoadLocation _) as [loc|err]; [|congruence].
    destruct Hc as (pb0 & Hpb0 & _ & Hun & Hloc & Hst & _).
    assert (pb0 = pb) by congruence. subst pb0.
    destruct (applyOptions_untouched options (defaultBar title units width))
      as (Hu & _).
    destruct Hun as (_ & _ & _ & _ & _ & Hc1 & He1 & _).
    destruct Hu as (_ & _ & _ & _ & _ & Hc2 & He2 & _).
    exists loc. unfold start. cbn [bar].
    split; [exact Hloc|]. split; [rewrite Hst; reflexivity|].
    split.
    - intros E. rewrite Hc1, Hc2 in E. discriminate E.
    - intros _. rewrite He1, He2. reflexivity. }
  clear Hnew. revert H0 Hrun. generalize (start pb).
  induction calls as [|c rest IH]; intros w0 H0 Hrun.
  - injection Hrun as <-. exact H0.
  - apply run_cons in Hrun as (w1 & H1 & H2).
    apply (IH w1); [|exact H2]. eapply exec_timesInZone; eassumption.
Qed.
End Invariants.

(** ** Default values from struct tags *)

Lemma splitComma_not_empty (s : string) : splitComma s <> [].
Proof.
  induction s as [|c s IH]; cbn [splitComma]; [discriminate|].
  destruct (Ascii.eqb c ","); [discriminate|].
  destruct (splitComma s); [contradiction|discriminate].
Qed.

Section DefaultsFacts.
Context {strconv : GoStrconv}.

Lemma setElements_length (set : Value -> string -> Value * option error)
    (elems : list Value) (items : list string) (elems' : list Value)
    (err : option error) :
  setElements set elems items = (elems', err) ->
  List.length elems' = List.length elems.
Proof.
  revert items elems' err.
  induction elems as [|x elems IH]; intros [|item items] elems' err H;
    cbn [setElements] in H; try (injection H as <- _; reflexivity).
  destruct (set x (TrimSpace item)) as [x' [e|]].
  - injection H as <- _. reflexivity.
  - destruct (setElements set elems items) as [rest e] eqn:E.
    injection H as <- _. cbn [List.length]. f_equal. eapply IH. exact E.
Qed.

Lemma setElements_again (set : Value -> string -> Value * option error)
    (elems : list Value) (items : list string) (elems' : list Value) :
  (forall x item x', set x item = (x', None) -> set x' item = (x', None)) ->
  setElements set elems items = (elems', None) ->
  setElements set elems' items = (elems', None).
Proof.
  intros Hset. revert items elems'.
  induction elems as [|x elems IH]; intros [|item items] elems' H;
    cbn [setElements] in H; try (injection H as <-; reflexivity).
  destruct (set x (TrimSpace item)) as [x' [e|]] eqn:Ex; [discriminate H|].
  destruct (setElements set elems items) as [rest [e|]] eqn:E; [discriminate H|].
  injection H as <-. cbn [setElements].
  rewrite (Hset _ _ _ Ex), (IH _ _ E). reflexivity.
Qed.

(** A default that was set is set to the same value again. *)
Lemma setFieldValue_again (t : Ty) :
  forall (canSet : bool) (field : Value) (value : string) (field' : Value),
    setFieldValue canSet t field value = (field', None) ->
    setFieldValue canSet t field' value = (field', None).
Proof.
  induction t as [kind|len elem IH|elem IH|fields];
    intros canSet field value field' H;
    destruct canSet; cbn [setFieldValue negb] in *; try discriminate H.
  - destruct kind; try discriminate H;
      try (injection H as <-; reflexivity);
      match type of H with
      | context [match ?p with Success _ => _ | Failure _ => _ end] =>
          destruct p; [injection H as <-; reflexivity|discriminate H]
      end.
  - destruct (negb (Nat.eqb (List.length (splitComma value)) len)); [discriminate H|].
    destruct field as [| | | | | |elems| | |]; try (injection H as <-; reflexivity).
    destruct (setElements (setFieldValue true elem) elems (splitComma value))
      as [elems' [e|]] eqn:E; [discriminate H|].
    injection H as <-.
    rewrite (setElements_again _ _ _ _ (IH true) E). reflexivity.
  - destruct (setElements (setFieldValue true elem) _ (splitComma value))
      as [slice [e|]] eqn:E; [discriminate H|].
    injection H as <-. reflexivity.
Qed.

Lemma applyFields_Field (name : string) (exported : bool) (defaultTag : string)
    (type : Ty) (rest : Fields) (field : Value) (vals : list Value) :
  applyFields (Field name exported defaultTag type rest) (field :: vals)
  = let continue (field' : Value) :=
      match applyFields rest vals with
      | Crash msg => Crash msg
      | Done (vals'', err) => Done (field' :: vals'', err)
      end in
    match type with
    | StructOf _ =>
        if negb exported then Crash unexportedPanic
        else
          match applyDefaults type field with
          | Crash msg => Crash msg
          | Done (field', Some err) => Done (field' :: vals, Some err)
          | Done (field', None) => continue field'
          end
    | _ =>
        if String.eqb defaultTag "" then continue field
        else if negb exported then Crash unexportedPanic
        else if negb (isZero field) then continue field
        else
          match setFieldValue true type field defaultTag with
          | (field', Some err) =>
              Done (field' :: vals, Some ("field " ++ name ++ ": " ++ err))
          | (field', None) => continue field'
          end
    end.
Proof. destruct type; reflexivity. Qed.


(** X19. applyDefaults is idempotent: called again on the struct that a call
    without error has left, it returns without error and changes nothing
    (a default that was set is not zero and is skipped, or it is zero and
    is set to the same value again). *)
Theorem applyDefaults_idempotent :
  forall (t : Ty) (v v' : Value),
    applyDefaults t v = Done (v', None) -> applyDefaults t v' = Done (v', None).
Proof.
  apply (Ty_Fields_ind
           (fun t => forall v v',
                applyDefaults t v = Done (v', None) ->
                applyDefaults t v' = Done (v', None))
           (fun fields => forall vals vals',
                applyFields fields vals = Done (vals', None) ->
                applyFields fields vals' = Done (vals', None))).
  - intros kind v v' H. discriminate H.
  - intros len elem _ v v' H. discriminate H.
  - intros elem _ v v' H. discriminate H.
  - intros fields IH v v' H. destruct v as [| | | | | | | |vals|]; try discriminate H.
    cbn [applyDefaults] in *.
    destruct (applyFields fields vals) as [[vals' e]|] eqn:E; [|discriminate H].
    injection H as <- ->. rewrite (IH _ _ E). reflexivity.
  - intros vals vals' H. cbn [applyFields] in *. injection H as <-. reflexivity.
  - intros name exported defaultTag type IHt rest IHr vals vals' H.
    destruct vals as [|field vals]; [injection H as <-; reflexivity|].
    rewrite applyFields_Field in H. cbv zeta in H.
    destruct type as [kind|len elem|elem|fs].
    4: { destruct exported; cbn [negb] in H; [|discriminate H].
         destruct (applyDefaults (StructOf fs) field) as [[field' [e|]]|] eqn:Ed;
           try discriminate H.
         destruct (applyFields rest vals) as [[rest' e]|] eqn:Er; [|discriminate H].
         injection H as <- ->.
         rewrite applyFields_Field. cbv zeta. cbn [negb].
         rewrite (IHt _ _ Ed), (IHr _ _ Er). reflexivity. }
    all: destruct (String.eqb defaultTag "") eqn:Et;
      [ destruct (applyFields rest vals) as [[rest' e]|] eqn:Er; [|discriminate H];
        injection H as <- ->;
        rewrite applyFields_Field; cbv zeta; rewrite Et, (IHr _ _ Er); reflexivity
      | ].
    all: destruct exported; cbn [negb] in H; [|discriminate H].
    all: destruct (isZero field) eqn:Ez; cbn [negb] in H;
      [ | destruct (applyFields rest vals) as [[rest' e]|] eqn:Er; [|discriminate H];
          injection H as <- ->;
          rewrite applyFields_Field; cbv zeta; rewrite Et, Ez, (IHr _ _ Er); reflexivity ].
    all: match type of H with
         | context [setFieldValue true ?t ?x ?tag] =>
             destruct (setFieldValue true t x tag) as [field' [e|]] eqn:Es;
               [discriminate H|];
             destruct (applyFields rest vals) as [[rest' e]|] eqn:Er; [|discriminate H];
             injection H as <- ->;
             rewrite applyFields_Field; cbv zeta; rewrite Et; cbn [negb];
             rewrite (setFieldValue_again _ _ _ _ _ Es), (IHr _ _ Er);
             destruct (isZero field'); reflexivity
         end.
Qed.

Lemma filledFrom_refl :
  forall (t : Ty) (v : Value), filledFrom t v v.
Proof.
  apply (Ty_Fields_ind
           (fun t => forall v, filledFrom t v v)
           (fun fields => forall vals, fieldsFilledFrom fields vals vals)).
  - intros kind v. reflexivity.
  - intros len elem _ v. reflexivity.
  - intros elem _ v. reflexivity.
  - intros fields IH v. destruct v; try reflexivity. apply IH.
  - intros vals. reflexivity.
  - intros name exported defaultTag type IHt rest IHr [|x vals]; [reflexivity|].
    cbn [fieldsFilledFrom]. split; [|apply IHr].
    destruct type; try (intros _; reflexivity). apply IHt.
Qed.

Lemma fieldsFilledFrom_refl (fields : Fields) (vals : list Value) :
  fieldsFilledFrom fields vals vals.
Proof. exact (filledFrom_refl (StructOf fields) (VStruct vals)). Qed.

Lemma applyDefaults_filledFrom :
  forall (t : Ty) (v v' : Value) (err : option error),
    applyDefaults t v = Done (v', err) -> filledFrom t v v'.
Proof.
  apply (Ty_Fields_ind
           (fun t => forall v v' err,
                applyDefaults t v = Done (v', err) -> filledFrom t v v')
           (fun fields => forall vals vals' err,
                applyFields fields vals = Done (vals', err) ->
                fieldsFilledFrom fields vals vals')).
  - intros kind v v' err H. discriminate H.
  - intros len elem _ v v' err H. discriminate H.
  - intros elem _ v v' err H. discriminate H.
  - intros fields IH v v' err H. destruct v as [| | | | | | | |vals|]; try discriminate H.
    cbn [applyDefaults] in H.
    destruct (applyFields fields vals) as [[vals' e]|] eqn:E; [|discriminate H].
    injection H as <- <-. cbn [filledFrom]. eapply IH. exact E.
  - intros vals vals' err H. injection H as <- _. reflexivity.
  - intros name exported defaultTag type IHt rest IHr vals vals' err H.
    destruct vals as [|field vals]; [injection H as <- _; reflexivity|].
    rewrite applyFields_Field in H. cbv zeta in H.
    destruct type as [kind|len elem|elem|fs].
    4: { destruct exported; cbn [negb] in H; [|discriminate H].
         destruct (applyDefaults (StructOf fs) field) as [[field' [e|]]|] eqn:Ed;
           try discriminate H.
         - injection H as <- _. cbn [fieldsFilledFrom].
           split; [eapply IHt; exact Ed|apply fieldsFilledFrom_refl].
         - destruct (applyFields rest vals) as [[rest' e]|] eqn:Er; [|discriminate H].
           injection H as <- _. cbn [fieldsFilledFrom].
           split; [eapply IHt; exact Ed|eapply IHr; exact Er]. }
    all: destruct (String.eqb defaultTag "") eqn:Et;
      [ destruct (applyFields rest vals) as [[rest' e]|] eqn:Er; [|discriminate H];
        injection H as <- _; cbn [fieldsFilledFrom];
        split; [intros _; reflexivity|eapply IHr; exact Er]
      | ].
    all: destruct exported; cbn [negb] in H; [|discriminate H].
    all: destruct (isZero field) eqn:Ez; cbn [negb] in H;
      [ | destruct (applyFields rest vals) as [[rest' e]|] eqn:Er; [|discriminate H];
          injection H as <- _; cbn [fieldsFilledFrom];
          split; [intros _; reflexivity|eapply IHr; exact Er] ].
    all: assert (Hno : defaultTag = "" \/ true = false -> False)
      by (intros [->|Hx]; [discriminate Et|discriminate Hx]).
    all: match type of H with
         | context [setFieldValue true ?t ?x ?tag] =>
             destruct (setFieldValue true t x tag) as [field' [e|]] eqn:Es;
               [ injection H as <- _; cbn [fieldsFilledFrom];
                 split; [intros Hx; rewrite Ez in Hx; destruct (Hno Hx)|apply fieldsFilledFrom_refl]
               | destruct (applyFields rest vals) as [[rest' e]|] eqn:Er;
                   [|discriminate H];
                 injection H as <- _; cbn [fieldsFilledFrom];
                 split; [intros Hx; rewrite Ez in Hx; destruct (Hno Hx)|eapply IHr; exact Er] ]
         end.
Qed.

(** X20. Whether it ends with an error or without, applyDefaults writes
    only fields that have a default tag and hold their zero value: every
    field without tag and every field that is not zero, at any depth of
    nested structs, is left as it was. *)
Theorem applyDefaults_fills_only_zero_tagged (t : Ty) (v v' : Value)
    (err : option error) :
  applyDefaults t v = Done (v', err) -> filledFrom t v v'.
Proof.
  intros H. eapply applyDefaults_filledFrom. exact H.
Qed.

(** *** The panics of reflection, and lists of items *)

Lemma applyDefaults_returns_mutual :
  forall (t : Ty) (v : Value),
    exportedWhereRead t -> hasType t v ->
    match t with
    | StructOf _ => exists v' err, applyDefaults t v = Done (v', err)
    | _ => True
    end.
Proof.
  apply (Ty_Fields_ind
           (fun t => forall v,
                exportedWhereRead t -> hasType t v ->
                match t with
                | StructOf _ => exists v' err, applyDefaults t v = Done (v', err)
                | _ => True
                end)
           (fun fields => forall vals,
                exportedFields fields -> haveTypes fields vals ->
                exists vals' err, applyFields fields vals = Done (vals', err))).
  - intros; exact I.
  - intros; exact I.
  - intros; exact I.
  - intros fields IH v Hexp Hty. destruct v as [| | | | | | | |vals|]; try contradiction.
    cbn [applyDefaults]. destruct (IH vals Hexp Hty) as (vals' & err & ->). eauto.
  - intros vals _ _. cbn [applyFields]. eauto.
  - intros name exported defaultTag type IHt rest IHr vals Hexp Hty.
    destruct vals as [|field vals]; [contradiction|].
    cbn [exportedFields haveTypes] in Hexp, Hty.
    destruct Hexp as (Hfield & Hrest). destruct Hty as (Htf & Htr).
    destruct (IHr vals Hrest Htr) as (rest' & e & Er).
    rewrite applyFields_Field. cbv zeta. rewrite Er.
    destruct type as [kind|len elem|elem|fs].
    4: { destruct Hfield as (-> & Hin). cbn [negb].
         destruct (IHt field Hin Htf) as (field' & e' & ->).
         destruct e'; eauto. }
    all: destruct (String.eqb defaultTag "") eqn:Et; [eauto|].
    all: destruct Hfield as [-> | ->]; [discriminate Et|]; cbn [negb].
    all: destruct (isZero field); cbn [negb]; [|eauto].
    all: match goal with
         | |- context [setFieldValue true ?t ?x ?tag] =>
             destruct (setFieldValue true t x tag) as [field' [e'|]]; eauto
         end.
Qed.

(** X21. applyDefaults panics only on unexported fields. On a struct in
    which every field of struct type is exported, and so is every other
    field with a default tag, it returns (with or without error). A first
    field of struct type with an unexported name makes it panic, and so
    does a first field with a default tag and an unexported name, even
    when the field is not zero. *)
Theorem applyDefaults_panics_only_on_unexported :
  (forall (fields : Fields) (vals : list Value),
      exportedFields fields -> haveTypes fields vals ->
      exists v' err, applyDefaults (StructOf fields) (VStruct vals) = Done (v', err))
  /\ (forall name defaultTag inner rest field vals,
         applyDefaults (StructOf (Field name false defaultTag (StructOf inner) rest))
           (VStruct (field :: vals))
         = Crash unexportedPanic)
  /\ (forall name defaultTag type rest field vals,
         defaultTag <> "" ->
         applyDefaults (StructOf (Field name false defaultTag type rest))
           (VStruct (field :: vals))
         = Crash unexportedPanic).
Proof.
  split; [|split].
  - intros fields vals Hexp Hty.
    exact (applyDefaults_returns_mutual (StructOf fields) (VStruct vals) Hexp Hty).
  - intros. reflexivity.
  - intros name defaultTag type rest field vals Hne.
    cbn [applyDefaults]. rewrite applyFields_Field. cbv zeta.
    assert (Et : String.eqb defaultTag "" = false)
      by (apply String.eqb_neq; exact Hne).
    destruct type; rewrite ?Et; reflexivity.
Qed.

(** X22. A default for a slice or an array is cut at every comma, and a
    string without comma is one item. So a slice that setFieldValue sets
    has as many elements as the tag has commas, and one more: it is never
    empty. An array of length 0 can not be given a default at all: the
    call fails on the length and leaves the field. *)
Theorem setFieldValue_items (elem : Ty) (field : Value) (value : string) :
  (forall field',
      setFieldValue true (SliceOf elem) field value = (field', None) ->
      exists elems,
        field' = VSlice (Some elems)
        /\ List.length elems = List.length (splitComma value)
        /\ elems <> [])
  /\ (exists err, setFieldValue true (ArrayOf 0 elem) field value = (field, Some err)).
Proof.
  split.
  - intros field' H. cbn [setFieldValue negb] in H. cbv zeta in H.
    destruct (setElements _ _ _) as [slice [e|]] eqn:E; [discriminate H|].
    injection H as <-. exists slice.
    apply setElements_length in E. rewrite repeat_length in E.
    split; [reflexivity|]. split; [exact E|].
    intros ->. cbn in E. pose proof (splitComma_not_empty value) as Hne.
    destruct (splitComma value); [contradiction|discriminate E].
  - cbn [setFieldValue negb]. cbv zeta.
    pose proof (splitComma_not_empty value) as Hne.
    destruct (splitComma value); [contradiction|]. cbn [List.length Nat.eqb negb].
    eauto.
Qed.
(** X23. setFieldValue never reports a default that is too large for the
    field: for a field of a signed integer kind, a tag that ParseInt reads
    as [z] is stored as the number of the field's width that equals [z]
    modulo 2^width, which is [z] itself exactly when [z] fits. *)
Theorem setFieldValue_wraps_integers (kind : Kind.t) (field : Value)
    (value : string) (z : Z) :
  List.In kind [Kind.Int; Kind.Int8; Kind.Int16; Kind.Int32; Kind.Int64] ->
  ParseInt value = Success z ->
  let half := 2 ^ (Kind.bits kind - 1) in
  exists z',
    setFieldValue true (Basic kind) field value = (VInt z', None)
    /\ - half <= z' < half
    /\ (z' - z) mod (2 * half) = 0
    /\ (z' = z <-> - half <= z < half).
Proof.
  intros Hk Hp half.
  assert (Hhalf : 0 < half) by (subst half; apply Z.pow_pos_nonneg;
    [lia|destruct kind; cbn; lia]).
  assert (Hfull : 2 ^ Kind.bits kind = 2 * half).
  { subst half. cbn [List.In] in Hk.
    destruct Hk as [<-|[<-|[<-|[<-|[<-|[]]]]]]; reflexivity. }
  exists (wrapSigned (Kind.bits kind) z).
  assert (Hset : setFieldValue true (Basic kind) field value
                 = (VInt (wrapSigned (Kind.bits kind) z), None)).
  { cbn [List.In] in Hk.
    destruct Hk as [<-|[<-|[<-|[<-|[<-|[]]]]]]; cbn [setFieldValue negb kindOf];
      rewrite Hp; reflexivity. }
  split; [exact Hset|].
  unfold wrapSigned. fold half. rewrite Hfull.
  pose proof (Z.mod_pos_bound (z + half) (2 * half) ltac:(lia)) as Hb.
  pose proof (Z.div_mod (z + half) (2 * half) ltac:(lia)) as Hd.
  split; [lia|]. split.
  - replace ((z + half) mod (2 * half) - half - z)
      with (- ((z + half) / (2 * half)) * (2 * half)) by lia.
    apply Z.mod_mul. lia.
  - split.
    + intros E. lia.
    + intros Hz. rewrite Z.mod_small by lia. lia.
Qed.
End DefaultsFacts.

(** ** The config file *)

(** X24. The file comes first, and without the file there are no defaults.
    When the config file cannot be read, for whatever reason (also when it
    does not exist), _parseDefault returns the error of the read and
    leaves the config as it was: no default is applied. When the file is
    read, the defaults only fill what json.Unmarshal has left at its zero
    value: every field that the file has set to something else is kept. *)
Theorem parseDefault_file_first {strconv : GoStrconv} {files : GoFiles}
    (filePath : string) (t : Ty) (v v' : Value) (err : option error) :
  _parseDefault filePath (ByPointer t v) = Done (v', err) ->
  match ReadFile filePath with
  | Failure e => v' = v /\ err = Some e
  | Success file =>
      filledFrom t (fst (Unmarshal file t v)) v'
      /\ (snd (Unmarshal file t v) <> None ->
          v' = fst (Unmarshal file t v) /\ err = snd (Unmarshal file t v))
  end.
Proof.
  intros H. unfold _parseDefault in H.
  destruct (ReadFile filePath) as [file|e].
  - destruct (Unmarshal file t v) as [loaded [e|]]; cbn [fst snd].
    + injection H as <- <-. split; [apply filledFrom_refl|]. intros _. split; reflexivity.
    + destruct (applyDefaults t loaded) as [[v2 e2]|] eqn:E; [|discriminate H].
      assert (Hres : v' = v2 /\ err = e2)
        by (destruct e2; injection H as <- <-; split; reflexivity).
      destruct Hres as (-> & ->).
      split; [|intros Hx; contradiction].
      eapply applyDefaults_filledFrom. exact E.
  - injection H as <- <-. split; reflexivity.
Qed.

(** ** The configuration of the package *)

(** X25. ForceReloadConfig does not reload. Once the package is initialised
    the Once of ParseDefault is used up, so the closure that reads the
    defaults is not run again: ForceReloadConfig leaves the zero value of
    the config, without any default, and no error. *)
Theorem ForceReloadConfig_resets (Config : Type) (zeroConfig : Config)
    (load : Config -> Run (Config * option error)) (p : Package Config) :
  initPackage Config zeroConfig load = Done p ->
  _ones Config p = true
  /\ ForceReloadConfig Config zeroConfig load p
     = Done {| _unitTestConfig := zeroConfig; _configParseErr := None; _ones := true |}
  /\ forall p',
       ForceReloadConfig Config zeroConfig load p = Done p' ->
       GetDefaultConfig Config p' = zeroConfig.
Proof.
  intros H. unfold initPackage, ParseDefault in H.
  destruct (load zeroConfig) as [[cfg [e|]]|]; try discriminate H.
  injection H as <-. cbn [_ones].
  split; [reflexivity|]. split; [reflexivity|].
  intros p' H. unfold ForceReloadConfig, ParseDefault in H. cbn [_ones] in H.
  injection H as <-. reflexivity.
Qed.

(** ** The bar, the printer and the shuffle on concrete inputs *)

(** The bar of ten units: the UpdateBar two seconds after the start sends
    a frame, and the three updates of the following second send none. *)
Lemma throttle_after_frame_witness :
  frames sampleFirstFrame <> frames sampleFresh
  /\ frames sampleThrottled = frames sampleFirstFrame.
Proof.
  assert (Hsent : frames sampleFirstFrame <> frames sampleFresh)
    by (cbn; discriminate).
  split; [exact Hsent|].
  apply (@throttle_after_frame sampleLib samplePalette
           (CallUpdateBar 2000000000) 2000000000 hastyCalls
           sampleFresh sampleFirstFrame sampleThrottled).
  - left. reflexivity.
  - unfold Int.maxInt. cbn. lia.
  - vm_compute. reflexivity.
  - exact Hsent.
  - repeat constructor; cbn; lia.
  - vm_compute. reflexivity.
Defined.

(** Calls for nine of the ten units, with Complete among them. *)
Lemma run_within_total_witness :
  exists w,
    @run sampleLib samplePalette modestCalls (start (bar sampleFresh)) = Returned tt w
    /\ 0 <= currentProcess (bar w) <= 10
    /\ (complete (bar w) = false -> currentProcess (bar w) = demand modestCalls)
    /\ (complete (bar w) = true -> currentProcess (bar w) = 10).
Proof.
  apply (@run_within_total sampleLib samplePalette 0 "x" 10 10 []
           (bar sampleFresh) modestCalls).
  - vm_compute. reflexivity.
  - unfold Int.maxUint32. lia.
  - repeat constructor; unfold Int.maxInt; cbn; lia.
  - cbn. lia.
Defined.

Lemma sampleDone_Reachable : @Reachable sampleLib samplePalette sampleDone.
Proof.
  exists 0, "idx", 10, 10, [].
  eexists. exists [CallAddSpecificTimes 1000 3; CallComplete 5000000].
  split; reflexivity.
Qed.

(** The completed sample bar. *)
Lemma completed_bar_ends_with_final_frame_witness :
  exists sent,
    printChannel (bar sampleDone)
    = MkChan (sent ++ [finalFrame (bar sampleDone)])%list true.
Proof.
  exact (@completed_bar_ends_with_final_frame sampleLib samplePalette sampleDone
           sampleDone_Reachable eq_refl).
Defined.

(** The bar without timer: two updates and Complete send the one frame. *)
Lemma frames_without_timer_witness :
  frames sampleUntimedDone = []
  \/ frames sampleUntimedDone = [finalFrame (bar sampleUntimed)].
Proof.
  apply (@frames_without_timer sampleLib samplePalette 0 "x" 10 10
           [CallWithTimeControl 0] (bar sampleUntimed) untimedCalls sampleUntimedDone).
  - vm_compute. reflexivity.
  - cbn. lia.
  - vm_compute. reflexivity.
Defined.


(** The printer on the bar of ten units after its four updates. *)
Lemma printer_waits_without_Complete_witness :
  @ListenPrinter sampleFmt sampleThrottled = Blocked
  /\ WaitForPrinterStop sampleThrottled = Blocked.
Proof.
  apply (@printer_waits_without_Complete sampleLib samplePalette sampleFmt
           0 "x" 10 10 [] (bar sampleFresh) (CallUpdateBar 2000000000 :: hastyCalls)
           sampleThrottled).
  - vm_compute. reflexivity.
  - reflexivity.
  - vm_compute. reflexivity.
Defined.

(** The fills of the bar of ten units after its four updates. *)
Lemma frames_never_repeat_fill_witness :
  changes 0 (fills sampleThrottled)
  /\ lastFilledLength (bar sampleThrottled) = last (fills sampleThrottled) 0.
Proof.
  apply (@frames_never_repeat_fill sampleLib samplePalette
           0 "x" 10 10 [] (bar sampleFresh) (CallUpdateBar 2000000000 :: hastyCalls)
           sampleThrottled).
  - vm_compute. reflexivity.
  - reflexivity.
  - vm_compute. reflexivity.
Defined.

(** The setup of the bar of ten units after its four updates. *)
Lemma run_keeps_setup_witness :
  sameSetup (bar sampleFresh) (bar sampleThrottled)
  /\ mu (bar sampleThrottled) = mu (bar sampleFresh).
Proof.
  apply (@run_keeps_setup sampleLib samplePalette
           (CallUpdateBar 2000000000 :: hastyCalls) sampleFresh sampleThrottled).
  vm_compute. reflexivity.
Defined.

(** One more update of four on the completed sample bar. *)
Lemma completed_bar_is_frozen_witness :
  exists w',
    @exec sampleLib samplePalette (CallAddSpecificTimes 6000000 4) sampleDone
    = Returned tt w'
    /\ bar w' = bar sampleDone.
Proof.
  apply (@completed_bar_is_frozen sampleLib samplePalette
           (CallAddSpecificTimes 6000000 4) sampleDone sampleDone_Reachable eq_refl).
  cbn. lia.
Defined.

(** Complete on the bar of three units at five, whose channel an earlier
    Complete has closed. *)
Lemma Complete_panics_once_closed_witness :
  Complete 3000 sampleClosed = Panicked "close of closed channel".
Proof.
  exact (Complete_panics_once_closed 3000 sampleClosed []
           (MkLocation "Asia/Shanghai") eq_refl eq_refl eq_refl).
Defined.

(** The frames of the completed sample bar. *)
Lemma frames_percentage_capped_witness :
  Forall capped (frames sampleDone).
Proof.
  exact (@frames_percentage_capped sampleLib samplePalette sampleDone
           sampleDone_Reachable).
Defined.

(** The times of the completed sample bar. *)
Lemma times_in_zone_witness :
  exists l,
    location (bar sampleDone) = Some l
    /\ zone (startTime (bar sampleDone)) = Some l
    /\ (complete (bar sampleDone) = true -> zone (endTime (bar sampleDone)) = Some l)
    /\ (complete (bar sampleDone) = false -> endTime (bar sampleDone) = zeroTime).
Proof.
  exact (@times_in_zone sampleLib samplePalette sampleDone sampleDone_Reachable).
Defined.

(** A fill of four on a bar of ten glyphs. *)
Lemma barText_width_witness :
  Z.of_nat (String.length (barText 10 4)) = 3 * 10 /\ 0 <= 4 <= 10.
Proof.
  assert (Hfill : 0 <= 4 <= 10) by lia.
  split; [|exact Hfill].
  exact (proj2 (proj2 (barText_width 10 4)) Hfill).
Defined.

(** A platform without the zone of the tests: the helper panics and the
    bar is not made. *)
Lemma TestTimeString_panics_as_default_bar_witness :
  @_TestTimeString bareLib sampleFmt 0 "2006-01-02" "Asia/Shanghai"
  = Crash "unknown time zone Asia/Shanghai"
  /\ @NewProgressBar bareLib samplePalette 0 "x" 10 10 []
     = (None, Some "unknown time zone Asia/Shanghai").
Proof.
  assert (Hpanic : @_TestTimeString bareLib sampleFmt 0 "2006-01-02" "Asia/Shanghai"
                   = Crash "unknown time zone Asia/Shanghai") by reflexivity.
  split; [exact Hpanic|].
  exact (proj1 (@TestTimeString_panics_as_default_bar bareLib samplePalette sampleFmt
                  0 "2006-01-02" "x" 10 10 "unknown time zone Asia/Shanghai") Hpanic).
Defined.

Lemma lcg_in_range : IntnInRange lcg.
Proof.
  intros n s Hn. cbn. apply Z.mod_pos_bound. exact Hn.
Qed.

(** Five numbers shuffled with the linear congruential generator. *)
Lemma shuffleSlice_Permutation_witness :
  exists slice' s',
    shuffleSlice lcg [1; 2; 3; 4; 5] 42 = Done (slice', s')
    /\ Permutation [1; 2; 3; 4; 5] slice'
    /\ List.length slice' = List.length [1; 2; 3; 4; 5].
Proof.
  exact (shuffleSlice_Permutation lcg [1; 2; 3; 4; 5] 42 lcg_in_range).
Defined.

(** A slice of one number. *)
Lemma shuffleSlice_short_witness :
  shuffleSlice lcg [7] 42 = Done ([7], 42).
Proof.
  apply (shuffleSlice_short lcg [7] 42). cbn. lia.
Defined.

(** The tape that turns 1, 2, 3 into 3, 1, 2. *)
Lemma shuffleSlice_every_permutation_witness :
  exists s s', shuffleSlice tape [1; 2; 3] s = Done ([3; 1; 2], s').
Proof.
  apply (shuffleSlice_every_permutation [1; 2; 3] [3; 1; 2]).
  apply (perm_trans (l' := [1; 3; 2])).
  - apply perm_skip. apply perm_swap.
  - apply perm_swap.
Defined.

(** ** The defaults on a sample config *)

(** The sample config after applyDefaults, given to it again. *)
Lemma applyDefaults_idempotent_witness :
  @applyDefaults sampleStrconv sampleConfigType sampleConfigFilled
  = Done (sampleConfigFilled, None).
Proof.
  apply (@applyDefaults_idempotent sampleStrconv sampleConfigType sampleConfig).
  vm_compute. reflexivity.
Defined.

(** The sample config: its count of 5 and its unexported note are kept. *)
Lemma applyDefaults_fills_only_zero_tagged_witness :
  filledFrom sampleConfigType sampleConfig sampleConfigFilled.
Proof.
  apply (@applyDefaults_fills_only_zero_tagged sampleStrconv sampleConfigType
           sampleConfig sampleConfigFilled None).
  vm_compute. reflexivity.
Defined.

(** A package whose closure loads the number 7 without error. *)
Lemma ForceReloadConfig_resets_witness :
  ForceReloadConfig Z 0 (fun _ => Done (7, None))
    {| _unitTestConfig := 7; _configParseErr := None; _ones := true |}
  = Done {| _unitTestConfig := 0; _configParseErr := None; _ones := true |}.
Proof.
  apply (ForceReloadConfig_resets Z 0 (fun _ => Done (7, None))
           {| _unitTestConfig := 7; _configParseErr := None; _ones := true |}).
  reflexivity.
Defined.

(** The default 300 for a field of kind int8. *)
Lemma setFieldValue_wraps_integers_witness :
  exists z',
    @setFieldValue sampleStrconv true (Basic Kind.Int8) (VInt 0) "300" = (VInt z', None)
    /\ - 128 <= z' < 128
    /\ (z' - 300) mod 256 = 0
    /\ (z' = 300 <-> - 128 <= 300 < 128).
Proof.
  apply (@setFieldValue_wraps_integers sampleStrconv Kind.Int8 (VInt 0) "300" 300).
  - cbn. auto.
  - reflexivity.
Defined.

(** The sample config, whose only unexported field has no tag. *)
Lemma applyDefaults_panics_only_on_unexported_witness :
  exists v' err,
    @applyDefaults sampleStrconv sampleConfigType sampleConfig = Done (v', err).
Proof.
  apply (proj1 (@applyDefaults_panics_only_on_unexported sampleStrconv)).
  - cbn. repeat split; auto.
  - cbn. repeat split; auto.
Defined.

(** The widths of the sample config. *)
Lemma setFieldValue_items_witness :
  exists elems,
    VSlice (Some [VInt 3; VInt 6; VInt 7]) = VSlice (Some elems)
    /\ List.length elems = List.length (splitComma "3, 6, 7")
    /\ elems <> [].
Proof.
  apply (proj1 (@setFieldValue_items sampleStrconv (Basic Kind.Int) (VSlice None)
                  "3, 6, 7")).
  vm_compute. reflexivity.
Defined.

(** The sample config file sets the count to 8, and the defaults fill the
    rest; a file that is not there leaves the config empty. *)
Lemma parseDefault_file_first_witness :
  filledFrom sampleConfigType
    (VStruct [VString ""; VSlice None; VStruct [VInt 8; VFloat F64.zero]; VString ""])
    (VStruct [VString "idx"; VSlice (Some [VInt 3; VInt 6; VInt 7]);
              VStruct [VInt 8; VFloat (F64.ofZ 2)]; VString ""])
  /\ @_parseDefault sampleStrconv sampleFiles "config/none.json"
       (ByPointer sampleConfigType sampleConfigZero)
     = Done (sampleConfigZero, Some "open config/none.json: no such file or directory").
Proof.
  split.
  - apply (@parseDefault_file_first sampleStrconv sampleFiles "config/sample.json"
             sampleConfigType sampleConfigZero _ None).
    vm_compute. reflexivity.
  - reflexivity.
Defined.
